(** * mypack.analysis: zero-crossing search, cursor location, axis stacking,
      mask dilation, regridding, and the helpers around them

    A shallow embedding of [src/mypack/analysis.py].  Python lists are Rocq
    lists, Python integers are [Z], exceptions are a value of [result], and
    numpy arrays are views over buffers of an explicit store, because
    [do_stack] writes into an array it may share with its caller. *)

From Stdlib Require Import ZArith Lia Bool.
From Stdlib Require Import Floats.PrimFloat Floats.SpecFloat Floats.FloatOps.
From Stdlib Require Import Floats.FloatAxioms.
From stdpp Require Import base list strings gmap.

Local Open Scope Z_scope.

(** ** Python: exceptions, indexing, slicing *)

Module Py.

(** The exceptions the modelled code can raise.  numpy's [AxisError] derives
  from both [ValueError] and [IndexError]; it is kept apart here. *)
Inductive pyerr : Set :=
| IndexError
| AxisError
| ValueError
| ZeroDivisionError
| OverflowError.

Inductive result (X : Type) : Type :=
| Ok (x : X)
| Raise (e : pyerr).
Arguments Ok {X} x.
Arguments Raise {X} e.

Definition rbind {X Y} (r : result X) (k : X -> result Y) : result Y :=
match r with
| Ok x => k x
| Raise e => Raise e
end.

Definition is_ok {X} (r : result X) : Prop :=
match r with Ok _ => True | Raise _ => False end.

(** [l[i]] on a sequence of length [n]: the position [i] stands for, negative
  [i] counting from the end, and [IndexError] outside [-n, n). *)
Definition py_index (n : nat) (i : Z) : result nat :=
if (0 <=? i) && (i <? Z.of_nat n) then Ok (Z.to_nat i)
else if (- Z.of_nat n <=? i) && (i <? 0) then Ok (Z.to_nat (i + Z.of_nat n))
else Raise IndexError.

Definition py_getitem {X} (l : list X) (i : Z) : result X :=
rbind (py_index (length l) i) (fun k =>
match l !! k with
| Some x => Ok x
| None => Raise IndexError
end).

(** [l[i] = v] on a list. *)
Definition py_setitem {X} (l : list X) (i : Z) (v : X) : result (list X) :=
rbind (py_index (length l) i) (fun k => Ok (<[k := v]> l)).

(** [list(range(-n, 0))] *)
Definition range_neg (n : nat) : list Z :=
map (fun k => Z.of_nat k - Z.of_nat n) (seq 0 n).

(** [l[:-n]] for [n >= 0].  [-0] is [0], so [l[:-0]] is [l[:0]], the empty
  list, and not the whole of [l]. *)
Definition slice_until_neg {X} (n : nat) (l : list X) : list X :=
match n with
| O => []
| S _ => take (length l - n) l
end.

(** [l[-n:]] for [n >= 0]; [l[-0:]] is [l[0:]], the whole list. *)
Definition slice_from_neg {X} (n : nat) (l : list X) : list X :=
match n with
| O => l
| S _ => drop (length l - n) l
end.

End Py.
Export Py.

(** ** Computations that subscript a sequence

    [get_zero_dichoto] and [get_cursor] subscript lists.  A computation
    carries the indices it subscripted with, in order, next to its result, so
    that "only reads indices in range" is a statement about the code. *)

Definition reader (X : Type) : Type := list Z * result X.

Definition rd_ret {X} (x : X) : reader X := ([], Ok x).

Definition rd_bind {X Y} (c : reader X) (k : X -> reader Y) : reader Y :=
  match c with
  | (l, Ok x) => let '(l', r) := k x in (l ++ l', r)
  | (l, Raise e) => (l, Raise e)
  end.

Definition rd_lift {X} (r : result X) : reader X := ([], r).

(** [l[i]], recorded. *)
Definition subscript {X} (l : list X) (i : Z) : reader X := ([i], py_getitem l i).

Declare Scope reader_scope.
Delimit Scope reader_scope with reader.
Notation "'do' x <- c ; k" := (rd_bind c (fun x => k))
  (at level 10, x name, c at level 100, k at level 200) : reader_scope.

(** ** get_zero_dichoto and get_cursor *)

Section Dichoto.

(** The element type of the sequences and Python's [-], [*], [+], [/] and
    [>= 0] on it.  The arithmetic may raise (a Python float divided by
    zero; an integer too large for a float). *)
Variable num : Type.
Variable sub mul add truediv : num -> num -> result num.
Variable ge0 : num -> bool.

(** [sigZero = [0.]*len(sig)], then [sigZero[i] = sig[i] - target] for
    [i] in [range(n)].  These subscripts are in range by construction and
    are not recorded. *)
Fixpoint centered (sig : list num) (target : num) : result (list num) :=
  match sig with
  | [] => Ok []
  | s :: rest =>
      rbind (sub s target) (fun z =>
      rbind (centered rest target) (fun zs => Ok (z :: zs)))
  end.

(** [int((t2+t1)/2)]: the true quotient, truncated towards zero.  The float
    quotient is exact for [|t2+t1| <= 2^53], which every pair of indices of
    a list in memory meets. *)
Definition midpoint (t1 t2 : Z) : Z := Z.quot (t2 + t1) 2.

(** The body of the [while] loop after [ncount += 1]: the new [(t1, t2)]. *)
Definition dichoto_step (sigZero : list num) (t1 t2 : Z) : reader (Z * Z) :=
  (let t3 := midpoint t1 t2 in
   do a <- subscript sigZero t2;
   do b <- subscript sigZero t3;
   do p <- rd_lift (mul a b);
   if ge0 p then rd_ret (t1, t3) else rd_ret (t3, t2))%reader.

(** The iteration cap of the loop. *)
Definition max_count : Z := 10000.

(** [while (t2 - t1 > 1) and (ncount < 10000)].  [fuel] makes the recursion
    structural; [dichoto_fuel] below never runs out, since every iteration
    increments [ncount]. *)
Fixpoint dichoto_loop (fuel : nat) (sigZero : list num) (t1 t2 ncount : Z)
  : reader (Z * Z * Z) :=
  match fuel with
  | O => rd_ret (t1, t2, ncount)
  | S fuel' =>
      if (1 <? t2 - t1) && (ncount <? max_count) then
        (let ncount := ncount + 1 in
         do w <- dichoto_step sigZero t1 t2;
         dichoto_loop fuel' sigZero (fst w) (snd w) ncount)%reader
      else rd_ret (t1, t2, ncount)
  end.

Definition dichoto_fuel : nat := Z.to_nat max_count.

(** The state [(t1, t2, ncount)] the loop of [get_zero_dichoto] ends in. *)
Definition dichoto_run (sig : list num) (target : num) (t1 : Z) (t2 : option Z)
  : reader (Z * Z * Z) :=
  (let n := Z.of_nat (length sig) in
   do sigZero <- rd_lift (centered sig target);
   let t2 := match t2 with None => n - 1 | Some t => t end in
   dichoto_loop dichoto_fuel sigZero t1 t2 0)%reader.

Definition get_zero_dichoto (sig : list num) (target : num) (t1 : Z) (t2 : option Z)
  : reader Z :=
  (do st <- dichoto_run sig target t1 t2;
   rd_ret (fst (fst st)))%reader.

Definition get_cursor (x y : list num) (pointer : num)
    (t1 t2 : option num) (Xaxis : bool) : reader num :=
  (let '(x, y) := if Xaxis then (y, x) else (x, y) in
   do t1 <- match t1 with
            | None => rd_ret 0
            | Some g => get_zero_dichoto x g 0 None
            end;
   do t2 <- match t2 with
            | None => rd_ret None
            | Some g => do t <- get_zero_dichoto x g 0 None; rd_ret (Some t)
            end;
   do t <- get_zero_dichoto y pointer t1 t2;
   do y1 <- subscript y (t + 1);
   do y0 <- subscript y t;
   do dy <- rd_lift (sub y1 y0);
   do x1 <- subscript x (t + 1);
   do x0 <- subscript x t;
   do dx <- rd_lift (sub x1 x0);
   do slope <- rd_lift (truediv dy dx);
   do y0' <- subscript y t;
   do d <- rd_lift (sub pointer y0');
   do q <- rd_lift (truediv d slope);
   do x0' <- subscript x t;
   rd_lift (add q x0'))%reader.

End Dichoto.

Arguments centered {num} sub sig target.
Arguments dichoto_step {num} mul ge0 sigZero t1 t2.
Arguments dichoto_loop {num} mul ge0 fuel sigZero t1 t2 ncount.
Arguments dichoto_run {num} sub mul ge0 sig target t1 t2.
Arguments get_zero_dichoto {num} sub mul ge0 sig target t1 t2.
Arguments get_cursor {num} sub mul add truediv ge0 x y pointer t1 t2 Xaxis.

(** ** Python numbers: [int] and [float] *)

Module PyNum.

Inductive pynum : Set :=
  | PyInt (z : Z)
  | PyFloat (f : float).

(** [float(z)]: the nearest binary64, ties to even; [OverflowError] when
    that is not finite. *)
Definition float_of_int (z : Z) : result float :=
  let f := SF2Prim (binary_normalize prec emax z 0 false) in
  if is_infinity f then Raise OverflowError else Ok f.

Definition as_float (a : pynum) : result float :=
  match a with
  | PyInt z => float_of_int z
  | PyFloat f => Ok f
  end.

(** A binary operator that stays in [int] on two integers and otherwise
    converts both operands to [float]. *)
Definition arith (fz : Z -> Z -> Z) (ff : float -> float -> float)
    (a b : pynum) : result pynum :=
  match a, b with
  | PyInt x, PyInt y => Ok (PyInt (fz x y))
  | _, _ =>
      rbind (as_float a) (fun x =>
      rbind (as_float b) (fun y => Ok (PyFloat (ff x y))))
  end.

Definition sub : pynum -> pynum -> result pynum := arith Z.sub PrimFloat.sub.
Definition mul : pynum -> pynum -> result pynum := arith Z.mul PrimFloat.mul.
Definition add : pynum -> pynum -> result pynum := arith Z.add PrimFloat.add.

Definition spec_of_int (z : Z) : spec_float :=
  match z with
  | Z0 => S754_zero false
  | Zpos p => S754_finite false p 0
  | Zneg p => S754_finite true p 0
  end.

(** [x / y] on two integers: the exact quotient rounded once to the nearest
    binary64. *)
Definition int_truediv (x y : Z) : result float :=
  if y =? 0 then Raise ZeroDivisionError
  else
    let q := SF2Prim (SFdiv prec emax (spec_of_int x) (spec_of_int y)) in
    if is_infinity q then Raise OverflowError else Ok q.

(** [a / b]; with a float operand both are converted first.  A zero
    divisor raises. *)
Definition truediv (a b : pynum) : result pynum :=
  match a, b with
  | PyInt x, PyInt y => rbind (int_truediv x y) (fun q => Ok (PyFloat q))
  | _, _ =>
      rbind (as_float a) (fun x =>
      rbind (as_float b) (fun y =>
      if PrimFloat.eqb y 0%float then Raise ZeroDivisionError
      else Ok (PyFloat (PrimFloat.div x y))))
  end.

(** [f ** 2] on a float, taken as the product [f * f] rounded once, which is
    what C's [pow] gives whenever the square is exact (as the squares of the
    half-integers of [in_circle] are); [OverflowError] when a finite [f] has
    no finite square. *)
Definition float_sq (f : float) : result float :=
  let r := PrimFloat.mul f f in
  if is_infinity r && negb (is_infinity f) then Raise OverflowError else Ok r.

(** [a >= 0] *)
Definition ge0 (a : pynum) : bool :=
  match a with
  | PyInt z => 0 <=? z
  | PyFloat f => PrimFloat.leb 0%float f
  end.

End PyNum.

(** The same operators on sequences that hold floats only: nothing but a
    division by zero raises. *)
Module FloatSeq.

Definition sub (a b : float) : result float := Ok (PrimFloat.sub a b).
Definition mul (a b : float) : result float := Ok (PrimFloat.mul a b).
Definition add (a b : float) : result float := Ok (PrimFloat.add a b).
Definition truediv (a b : float) : result float :=
  if PrimFloat.eqb b 0%float then Raise ZeroDivisionError
  else Ok (PrimFloat.div a b).
Definition ge0 (a : float) : bool := PrimFloat.leb 0%float a.

End FloatSeq.

(** ** numpy: shapes, views and the store *)

(** Number of elements of an array of shape [s]. *)
Definition size (s : list nat) : nat := foldr Nat.mul 1%nat s.

(** Row-major (C order) position of the multi-index [ix] in shape [s]. *)
Fixpoint ravel (s ix : list nat) : nat :=
  match s, ix with
  | _ :: s', i :: ix' => (i * size s' + ravel s' ix')%nat
  | _, _ => 0%nat
  end.

(** The multi-index of the row-major position [f] in shape [s]. *)
Fixpoint unravel (s : list nat) (f : nat) : list nat :=
  match s with
  | [] => []
  | _ :: s' => (f / size s')%nat :: unravel s' (f mod size s')%nat
  end.

(** Exchange the entries at positions [i] and [j]. *)
Definition swap_at {X} (i j : nat) (l : list X) : list X :=
  match l !! i, l !! j with
  | Some a, Some b => <[i := b]> (<[j := a]> l)
  | _, _ => l
  end.

(** For each row-major position of the array with axes [i] and [j]
    exchanged, the row-major position it has in the array of shape [s]. *)
Definition swapaxes_perm (s : list nat) (i j : nat) : list nat :=
  let s' := swap_at i j s in
  map (fun f => ravel s (swap_at i j (unravel s' f))) (seq 0 (size s')).

(** The same for [.T], which reverses the axes. *)
Definition transpose_perm (s : list nat) : list nat :=
  let s' := rev s in
  map (fun f => ravel s (rev (unravel s' f))) (seq 0 (size s')).

Definition gather {X} (d : X) (p : list nat) (l : list X) : list X :=
  map (fun k => default d (l !! k)) p.

(** numpy's [normalize_axis_index]. *)
Definition normalize_axis (rank : nat) (ax : Z) : result nat :=
  if (- Z.of_nat rank <=? ax) && (ax <? Z.of_nat rank) then
    Ok (Z.to_nat (if ax <? 0 then ax + Z.of_nat rank else ax))
  else Raise AxisError.

(** The shape [reshape] gives an array of [n] elements for the requested
    [dims], one of which may be [-1] (numpy's [_fix_unknown_dimension]). *)
Definition resolve_shape (n : nat) (dims : list Z) : result (list nat) :=
  if existsb (fun d => d <? -1) dims then Raise ValueError
  else
    let known := size (map Z.to_nat (filter (fun d => 0 <= d) dims)) in
    match length (filter (fun d => d = -1) dims) with
    | O => if (known =? n)%nat then Ok (map Z.to_nat dims) else Raise ValueError
    | 1%nat =>
        if (known =? 0)%nat || negb (n mod known =? 0)%nat then Raise ValueError
        else Ok (map (fun d => if d =? -1 then (n / known)%nat else Z.to_nat d) dims)
    | _ => Raise ValueError
    end.

(** The shape [vs] aligned with a target of rank [r]: leading axes of length
    one are dropped or added. *)
Fixpoint drop_ones (k : nat) (s : list nat) : option (list nat) :=
  match k, s with
  | O, _ => Some s
  | S k', 1%nat :: s' => drop_ones k' s'
  | S _, _ => None
  end.

Definition align_shape (vs : list nat) (r : nat) : option (list nat) :=
  if (r <? length vs)%nat then drop_ones (length vs - r) vs
  else Some (replicate (r - length vs) 1%nat ++ vs).

Section NumPy.

(** The element type, [0.] and [1.] in it. *)
Variable A : Type.
Variable zero one : A.

(** An array by value: what a function that reads its argument and returns
    a new array sees and gives. *)
Record varray : Type := { vshape : list nat; vdata : list A }.

(** An array object: a view of buffer [buf], giving for each row-major
    position of the array the position in the buffer that holds it. *)
Record ndarray : Type := { buf : nat; shape : list nat; idx : list nat }.

(** The buffers allocated so far, and the number of calls of the per-slice
    function made so far. *)
Record state : Type := { heap : list (list A); calls : nat }.

Definition M (X : Type) : Type := state -> result X * state.

Definition ret {X} (x : X) : M X := fun st => (Ok x, st).
Definition raise {X} (e : pyerr) : M X := fun st => (Raise e, st).
Definition bind {X Y} (c : M X) (k : X -> M Y) : M Y :=
  fun st =>
    match c st with
    | (Ok x, st') => k x st'
    | (Raise e, st') => (Raise e, st')
    end.
Definition lift {X} (r : result X) : M X := fun st => (r, st).

(** Whether [np.reshape] of a view to a shape copies the data.  numpy
    decides from the strides (a view when it can); the decision is
    left open. *)
Variable reshape_copies : ndarray -> list nat -> bool.

Definition peek (h : list (list A)) (b p : nat) : A :=
  default zero (h !! b ≫= fun l => l !! p).

Definition poke (b p : nat) (x : A) (h : list (list A)) : list (list A) :=
  alter (fun l => <[p := x]> l) b h.

Definition contents (h : list (list A)) (a : ndarray) : varray :=
  {| vshape := shape a; vdata := map (peek h (buf a)) (idx a) |}.

(** Allocate a buffer holding [d]; the array of shape [s] over it. *)
Definition alloc (s : list nat) (d : list A) : M ndarray :=
  fun st =>
    (Ok {| buf := length (heap st); shape := s; idx := seq 0 (length d) |},
     {| heap := heap st ++ [d]; calls := calls st |}).

Definition np_zeros (s : list nat) : M ndarray :=
  alloc s (replicate (size s) zero).

Definition np_swapaxes (a : ndarray) (axis1 axis2 : Z) : result ndarray :=
  rbind (normalize_axis (length (shape a)) axis1) (fun i =>
  rbind (normalize_axis (length (shape a)) axis2) (fun j =>
  Ok {| buf := buf a;
        shape := swap_at i j (shape a);
        idx := gather 0%nat (swapaxes_perm (shape a) i j) (idx a) |})).

Definition np_reshape (a : ndarray) (dims : list Z) : M ndarray :=
  bind (lift (resolve_shape (size (shape a)) dims)) (fun s =>
  if reshape_copies a s then
    fun st => alloc s (vdata (contents (heap st) a)) st
  else ret {| buf := buf a; shape := s; idx := idx a |}).

(** [a[i]] for an integer [i >= 0]: a view of the [i]-th slice. *)
Definition np_getitem (a : ndarray) (i : nat) : result ndarray :=
  match shape a with
  | [] => Raise IndexError
  | d :: s =>
      if (i <? d)%nat then
        Ok {| buf := buf a; shape := s;
              idx := take (size s) (drop (i * size s) (idx a)) |}
      else Raise IndexError
  end.

(** The data of [v] broadcast to shape [ts], as an assignment into an array
    of that shape does. *)
Definition broadcast_to (v : varray) (ts : list nat) : result (list A) :=
  match align_shape (vshape v) (length ts) with
  | None => Raise ValueError
  | Some vs =>
      if forallb (fun p => (fst p =? snd p)%nat || (fst p =? 1)%nat) (zip vs ts) then
        Ok (map (fun f =>
                   let ix := zip_with (fun d i => if (d =? 1)%nat then 0%nat else i)
                               vs (unravel ts f) in
                   default zero (vdata v !! ravel vs ix))
              (seq 0 (size ts)))
      else Raise ValueError
  end.

Definition poke_all (b : nat) (ps : list nat) (xs : list A) (h : list (list A))
  : list (list A) :=
  foldl (fun h px => poke b (fst px) (snd px) h) h (zip ps xs).

(** [a[i] = v] *)
Definition np_setitem (a : ndarray) (i : nat) (v : varray) : M unit :=
  bind (lift (np_getitem a i)) (fun slot =>
  bind (lift (broadcast_to v (shape slot))) (fun d =>
  fun st =>
    (Ok tt, {| heap := poke_all (buf slot) (idx slot) d (heap st);
               calls := calls st |}))).

(** [v.T] *)
Definition transpose (v : varray) : varray :=
  {| vshape := rev (vshape v);
     vdata := gather zero (transpose_perm (vshape v)) (vdata v) |}.

(** One more call of the per-slice function. *)
Definition tick : M unit :=
  fun st => (Ok tt, {| heap := heap st; calls := S (calls st) |}).

Definition get_contents (a : ndarray) : M varray :=
  fun st => (Ok (contents (heap st) a), st).

Declare Scope M_scope.
Delimit Scope M_scope with M.
Notation "'do' x <- c ; k" := (bind c (fun x => k))
  (at level 10, x name, c at level 100, k at level 200) : M_scope.

(** [for x in l: body(x)] *)
Fixpoint for_each {X} (l : list X) (body : X -> M unit) : M unit :=
  match l with
  | [] => ret tt
  | x :: l' => (do _ <- body x; for_each l' body)%M
  end.

(** A loop that updates its variables [s] and has no other effect. *)
Fixpoint rfold {X S} (f : S -> X -> result S) (l : list X) (s : S) : result S :=
  match l with
  | [] => Ok s
  | x :: l' => rbind (f s x) (rfold f l')
  end.

(** [a.shape[0]] *)
Definition shape0 (a : ndarray) : result nat :=
  match shape a with
  | [] => Raise IndexError
  | d :: _ => Ok d
  end.

(** ** do_stack *)

(** [np.swapaxes(a, axes[i], lastaxes[i])] *)
Definition swap_ith (axes lastaxes : list Z) (a : ndarray) (i : nat) : result ndarray :=
  rbind (py_getitem axes (Z.of_nat i)) (fun ax =>
  rbind (py_getitem lastaxes (Z.of_nat i)) (fun la =>
  np_swapaxes a ax la)).

(** The body of the second loop: [array], then [output]. *)
Definition reswap_ith (axes lastaxes : list Z) (ao : ndarray * ndarray) (i : nat)
  : result (ndarray * ndarray) :=
  rbind (swap_ith axes lastaxes (fst ao) i) (fun a =>
  rbind (swap_ith axes lastaxes (snd ao) i) (fun o => Ok (a, o))).

(** [output[i] = func(array[i], *args, **kwargs)] *)
Definition apply_slice {Args} (func : varray -> Args -> result varray)
    (args : Args) (array output : ndarray) (i : nat) : M unit :=
  (do x <- lift (np_getitem array i);
   do xv <- get_contents x;
   do _ <- tick;
   do r <- lift (func xv args);
   np_setitem output i r)%M.

(** [func] reads the slice it is given and returns a new array; [args]
    stands for the [*args, **kwargs] handed through to it. *)
Definition do_stack {Args} (func : varray -> Args -> result varray) (ndim : nat)
    (array : ndarray) (args : Args)
    (axes : option (list Z)) (output : option ndarray) : M ndarray :=
  (let axes := match axes with None => range_neg ndim | Some l => l end in
   let lastaxes := range_neg ndim in
   (* Swap axes to the end *)
   do array <- lift (rfold (swap_ith axes lastaxes) (seq 0 ndim) array);
   (* Save shape *)
   let stackshape := slice_until_neg ndim (shape array) in
   do output <- match output with
                | None => np_zeros (shape array)
                | Some o => ret o
                end;
   (* Place all stack into one dimension *)
   do array <- np_reshape array
                 (-1 :: map Z.of_nat (slice_from_neg ndim (shape array)));
   do output <- np_reshape output
                  (-1 :: map Z.of_nat (slice_from_neg ndim (shape output)));
   do n <- lift (shape0 array);
   do _ <- for_each (seq 0 n) (apply_slice func args array output);
   do array <- np_reshape array
                 (map Z.of_nat (stackshape ++ slice_from_neg ndim (shape array)));
   do output <- np_reshape output
                  (map Z.of_nat (stackshape ++ slice_from_neg ndim (shape output)));
   (* Reswap axes *)
   do ao <- lift (rfold (reswap_ith axes lastaxes) (seq 0 ndim) (array, output));
   ret (snd ao))%M.

(** ** get_circle_kernel and enlarge_mask *)

(** [(i-(n-1)/2)**2 + (j-(n-1)/2)**2 <= (n/2)**2] on Python integers. *)
Definition in_circle (n i j : Z) : result bool :=
  rbind (PyNum.int_truediv (n - 1) 2) (fun h =>
  rbind (PyNum.float_of_int i) (fun fi =>
  rbind (PyNum.float_sq (PrimFloat.sub fi h)) (fun a =>
  rbind (PyNum.int_truediv (n - 1) 2) (fun h' =>
  rbind (PyNum.float_of_int j) (fun fj =>
  rbind (PyNum.float_sq (PrimFloat.sub fj h')) (fun b =>
  rbind (PyNum.int_truediv n 2) (fun r =>
  rbind (PyNum.float_sq r) (fun r2 =>
  Ok (PrimFloat.leb (PrimFloat.add a b) r2))))))))).

Definition of_bool (b : bool) : A := if b then one else zero.

(** [kernel[i, j] = x] for [i], [j] in range. *)
Definition set_cell (a : ndarray) (i j : nat) (x : A) : M unit :=
  fun st =>
    match idx a !! ravel (shape a) [i; j] with
    | Some p => (Ok tt, {| heap := poke (buf a) p x (heap st); calls := calls st |})
    | None => (Raise IndexError, st)
    end.

Definition get_circle_kernel (n : Z) : M ndarray :=
  (if n <? 0 then raise ValueError
   else
     do kernel <- np_zeros [Z.to_nat n; Z.to_nat n];
     do _ <- for_each (seq 0 (Z.to_nat n)) (fun i =>
               for_each (seq 0 (Z.to_nat n)) (fun j =>
                 do c <- lift (in_circle n (Z.of_nat i) (Z.of_nat j));
                 set_cell kernel i j (of_bool c)));
     ret kernel)%M.

(** A boolean array, by value. *)
Record barray : Type := { bshape : list nat; bdata : list bool }.

(** [a > 0] *)
Variable gt0 : A -> bool.

(** [scipy.ndimage.convolve(input, weights, output)], the positional
    parameters it is called with here. *)
Variable convolve : varray -> varray * option (list Z) -> result varray.

Definition enlarge_mask (mask : barray) (n_neighbors : Z) (axes : option (list Z))
  : M barray :=
  (let N := 2 * n_neighbors + 1 in
   do kernel <- get_circle_kernel N;
   do fmask <- alloc (bshape mask) (map of_bool (bdata mask));
   do kv <- get_contents kernel;
   do out <- do_stack convolve 2 fmask (kv, axes) None None;
   do ov <- get_contents out;
   ret {| bshape := vshape ov; bdata := map gt0 (vdata ov) |})%M.

(** ** regrid *)

Inductive kwval : Type :=
  | KwInt (z : Z)
  | KwNum (x : A)
  | KwStr (s : string).

(** numpy's elementwise [-], [*], [/] on the element type, the conversion of
    an integer to it, and [np.nan]. *)
Variable npsub npmul npdiv : A -> A -> A.
Variable of_int : Z -> A.
Variable nan : A.

(** [scipy.ndimage.map_coordinates(values, coords, **kw)] *)
Variable map_coordinates :
  varray -> list varray -> gmap string kwval -> result varray.

(** [np.meshgrid] of the sequences of [grid], with the default ['xy']
    indexing: the first two axes of the mesh are exchanged. *)
Definition meshgrid (grid : list (list A)) : list varray :=
  let s := swap_at 0 1 (map length grid) in
  imap (fun i g =>
          let ax := if (2 <=? length grid)%nat
                    then match i with O => 1%nat | 1%nat => O | _ => i end
                    else i in
          {| vshape := s;
             vdata := map (fun f => default zero (g !! default 0%nat (unravel s f !! ax)))
                        (seq 0 (size s)) |})
       grid.

(** [CartesianGrid.__call__]: the coordinates as pixel values, then the
    interpolation. *)
Definition CartesianGrid_call (limits : list (A * A)) (values : varray)
    (coords : list varray) (kwargs : gmap string kwval) : result varray :=
  let coords :=
    zip_with (fun lc n =>
                let '((lo, hi), c) := lc in
                {| vshape := vshape c;
                   vdata := map (fun x =>
                              npdiv (npmul (npsub x lo) (of_int (Z.of_nat n - 1)))
                                    (npsub hi lo))
                              (vdata c) |})
             (zip limits coords) (vshape values) in
  let kw := kwargs ∪ {[ "order" := KwInt 1; "cval" := KwNum nan ]} in
  map_coordinates values coords kw.

(** The function [regrid] hands to [do_stack]. *)
Definition regrid_func (a : varray)
    (args : list (A * A) * list varray * gmap string kwval) : result varray :=
  let '(limits, coords, kwargs) := args in
  rbind (CartesianGrid_call limits a coords kwargs) (fun r => Ok (transpose r)).

(** [for i, ax in enumerate(axes): shape[ax] = len(grid[i])] *)
Definition set_axis_length (grid : list (list A)) (shape : list nat) (iax : nat * Z)
  : result (list nat) :=
  rbind (py_getitem grid (Z.of_nat (fst iax))) (fun g =>
  py_setitem shape (snd iax) (length g)).

Definition regrid (data : ndarray) (limits : list (A * A)) (grid : list (list A))
    (axes : option (list Z)) (kwargs : gmap string kwval) : M ndarray :=
  (let ndim := length grid in
   let axes := match axes with None => range_neg ndim | Some l => l end in
   if negb (length limits =? ndim)%nat then raise ValueError
   else
     (* New shape *)
     do shape <- lift (rfold (set_axis_length grid)
                         (imap (fun i ax => (i, ax)) axes) (shape data));
     do regrid <- np_zeros shape;
     let coords := meshgrid grid in
     do regrid <- do_stack regrid_func ndim data (limits, coords, kwargs)
                    (Some axes) (Some regrid);
     ret regrid)%M.

End NumPy.

Arguments vshape {A} v.
Arguments vdata {A} v.
Arguments Build_varray {A} vshape vdata.
Arguments heap {A} s.
Arguments calls {A} s.
Arguments Build_state {A} heap calls.
Arguments ret {A X} x.
Arguments raise {A X} e.
Arguments bind {A X Y} c k.
Arguments lift {A X} r.
Arguments peek {A} zero h b p.
Arguments poke {A} b p x h.
Arguments poke_all {A} b ps xs h.
Arguments contents {A} zero h a.
Arguments alloc {A} s d.
Arguments np_zeros {A} zero s.
Arguments np_reshape {A} zero reshape_copies a dims.
Arguments broadcast_to {A} zero v ts.
Arguments np_setitem {A} zero a i v.
Arguments transpose {A} zero v.
Arguments tick {A}.
Arguments get_contents {A} zero a.
Arguments for_each {A X} l body.
Arguments apply_slice {A} zero {Args} func args array output i.
Arguments do_stack {A} zero reshape_copies {Args} func ndim array args axes output.
Arguments of_bool {A} zero one b.
Arguments set_cell {A} a i j x.
Arguments get_circle_kernel {A} zero one n.
Arguments enlarge_mask {A} zero one reshape_copies gt0 convolve mask n_neighbors axes.
Arguments KwInt {A} z.
Arguments KwNum {A} x.
Arguments KwStr {A} s.
Arguments meshgrid {A} zero grid.
Arguments CartesianGrid_call {A} npsub npmul npdiv of_int nan map_coordinates
  limits values coords kwargs.
Arguments regrid_func {A} zero npsub npmul npdiv of_int nan map_coordinates a args.
Arguments set_axis_length {A} grid shape iax.
Arguments regrid {A} zero reshape_copies npsub npmul npdiv of_int nan map_coordinates
  data limits grid axes kwargs.

(** ** Vocabulary of the statements *)

(** The [i]-th swap of [do_stack]'s first loop raises on every array of rank
    [rank]. *)
Definition swap_refused (axes lastaxes : list Z) (rank i : nat) : Prop :=
  forall a, length (shape a) = rank -> exists e, swap_ith axes lastaxes a i = Raise e.

Section FrameVocabulary.

Context {A : Type}.

(** Some cells of the store: the positions [ps] of buffer [b]. *)
Variable b : nat.
Variable ps : list nat.

Definition cell (h : list (list A)) (q : nat) : option A :=
  h !! b ≫= fun l => l !! q.

(** From [st] to [st'] no buffer was freed and the cells kept their
    values. *)
Definition keeps (st st' : state A) : Prop :=
  (length (heap st) <= length (heap st'))%nat /\
  forall q, q ∈ ps -> cell (heap st') q = cell (heap st) q.

(** An array that holds none of the cells. *)
Definition apart (a : ndarray) : Prop :=
  buf a <> b \/ Forall (fun p => p ∉ ps) (idx a).

(** [c] keeps the cells, and what it returns satisfies [Q]. *)
Definition safe {X} (c : M A X) (Q : X -> Prop) : Prop :=
  forall st, (b < length (heap st))%nat ->
    keeps st (snd (c st)) /\ forall x, fst (c st) = Ok x -> Q x.

End FrameVocabulary.

(** Array [a] holds, in store [h], the value [v]. *)
Definition rep {A : Type} (h : list (list A)) (a : ndarray) (v : varray A) : Prop :=
  shape a = vshape v /\ length (vdata v) = size (vshape v) /\
  Forall2 (fun p x => cell (buf a) h p = Some x) (idx a) (vdata v).

(** ** Concrete arrays for the examples *)

Module Examples.

(** A store that holds one buffer, [np.arange(n)]. *)
Definition arange_store (n : nat) : state Z :=
  {| heap := [map Z.of_nat (seq 0 n)]; calls := 0 |}.

(** [np.arange(size s).reshape(s)] over that buffer. *)
Definition arange (s : list nat) : ndarray :=
  {| buf := 0; shape := s; idx := seq 0 (size s) |}.

(** [lambda a: a] *)
Definition identity (v : varray Z) (_ : unit) : result (varray Z) := Ok v.

(** [np.reshape] never copying. *)
Definition views (_ : ndarray) (_ : list nat) : bool := false.

(** A stand-in for the interpolation: an array of the shape of the
    coordinate arrays, filled with [-1]. *)
Definition fill (values : varray Z) (coords : list (varray Z))
    (kw : gmap string (@kwval Z)) : result (varray Z) :=
  match coords with
  | c :: _ => Ok {| vshape := vshape c; vdata := map (fun _ => -1) (vdata c) |}
  | [] => Raise ValueError
  end.

(** [regrid] on integer-valued arrays with that stand-in. *)
Definition regrid_fill (reshape_copies : ndarray -> list nat -> bool) :=
  regrid 0 reshape_copies Z.sub Z.mul Z.div id (-1) fill.

(** A store with a second buffer of six zeros, and a [2 x 3] array over
    it to pass as [output]. *)
Definition arange_zeros_store : state Z :=
  {| heap := [map Z.of_nat (seq 0 6); replicate 6 0]; calls := 0 |}.
Definition zeros23 : ndarray :=
  {| buf := 1; shape := [2; 3]%nat; idx := seq 0 6 |}.

(** A stand-in for the convolution that gives its input back and looks
    at neither the kernel nor its third parameter. *)
Definition same_slice (v : varray Z) (_ : varray Z * option (list Z))
  : result (varray Z) := Ok v.

(** A stand-in for the convolution that gives its input back when its third
    parameter, [output], is [None], and raises when it is a list, which is
    no array to write to: scipy raises there too (the stand-in takes
    [ValueError] for the exception). *)
Definition output_checked (v : varray Z) (ko : varray Z * option (list Z))
  : result (varray Z) :=
  match snd ko with
  | None => Ok v
  | Some _ => Raise ValueError
  end.

(** The shape of the array a call returned, or the exception. *)
Definition shape_of (r : result ndarray * state Z) : result (list nat) :=
  match fst r with
  | Ok a => Ok (shape a)
  | Raise e => Raise e
  end.

(** What a call returned: the returned array by value, or the exception. *)
Definition returned (r : result ndarray * state Z) : result (varray Z) :=
  match fst r with
  | Ok a => Ok (contents 0 (heap (snd r)) a)
  | Raise e => Raise e
  end.

End Examples.

(** ** More of Python: exceptions of the language, sequencing *)

(** The exceptions of [pyerr], and two the interpreter raises on a local
    name read before any assignment and on a value of the wrong type. *)
Inductive pyexc : Set :=
| Builtin (e : pyerr)
| UnboundLocalError
| TypeError.

Inductive outcome (X : Type) : Type :=
| Returns (x : X)
| Throws (e : pyexc).
Arguments Returns {X} x.
Arguments Throws {X} e.

Declare Scope result_scope.
Delimit Scope result_scope with result.
Notation "'do' x <- c ; k" := (rbind c (fun x => k))
  (at level 10, x name, c at level 100, k at level 200) : result_scope.

(** ** downsample_average *)

Declare Scope M_scope.
Delimit Scope M_scope with M.
Notation "'do' x <- c ; k" := (bind c (fun x => k))
  (at level 10, x name, c at level 100, k at level 200) : M_scope.

Section Downsample.

Variable A : Type.
Variable zero : A.
Variable reshape_copies : ndarray -> list nat -> bool.

(** [np.isfinite] on an element. *)
Variable isfinite : A -> bool.

(** [downscale.downscale_average_stack(x_in, y_in, x_out, y_out, array)],
    compiled code of the package: it reads its arguments and returns a new
    array. *)
Variable downscale_average_stack :
  list A -> list A -> list A -> list A -> varray A -> result (varray A).

(** [output[~np.isfinite(output)] = 0] *)
Definition zero_nonfinite (a : ndarray) : M A unit :=
  fun st =>
    let d := vdata (contents zero (heap st) a) in
    (Ok tt,
     {| heap := poke_all (buf a) (idx a)
                  (map (fun x => if isfinite x then x else zero) d) (heap st);
        calls := calls st |}).

Definition downsample_average (array : ndarray) (x_in y_in x_out y_out : list A)
    (axes : option (list Z)) : M A ndarray :=
  (let ndim := 2%nat in
   let axes := match axes with None => range_neg ndim | Some l => l end in
   let lastaxes := range_neg ndim in
   (* Swap axes to the end *)
   do array <- lift (rfold (swap_ith axes lastaxes) (seq 0 ndim) array);
   (* Save shape *)
   let stackshape := slice_until_neg ndim (shape array) in
   do array <- np_reshape zero reshape_copies array
                 (-1 :: map Z.of_nat (slice_from_neg ndim (shape array)));
   do av <- get_contents zero array;
   do ov <- lift (downscale_average_stack x_in y_in x_out y_out av);
   do output <- alloc (vshape ov) (vdata ov);
   do _ <- zero_nonfinite output;
   do array <- np_reshape zero reshape_copies array
                 (map Z.of_nat (stackshape ++ slice_from_neg ndim (shape array)));
   do output <- np_reshape zero reshape_copies output
                  (map Z.of_nat (stackshape ++ slice_from_neg ndim (shape output)));
   (* Reswap axes *)
   do ao <- lift (rfold (reswap_ith axes lastaxes) (seq 0 ndim) (array, output));
   ret (snd ao))%M.

End Downsample.

Arguments zero_nonfinite {A} zero isfinite a.
Arguments downsample_average {A} zero reshape_copies isfinite downscale_average_stack
  array x_in y_in x_out y_out axes.

(** Every position of buffer [b] reads as a finite value. *)
Definition clean {A : Type} (zero : A) (isfinite : A -> bool)
    (h : list (list A)) (b : nat) : Prop :=
  forall p, isfinite (peek zero h b p) = true.

Module FloatExamples.

(** [np.isfinite] on a float. *)
Definition isfinite (f : float) : bool := negb (is_nan f) && negb (is_infinity f).

(** A store that holds one buffer of four floats, and the [1 x 2 x 2] array
    over it. *)
Definition store : state float :=
  {| heap := [[1; 2; 3; 4]%float]; calls := 0 |}.
Definition maps : ndarray :=
  {| buf := 0; shape := [1; 2; 2]%nat; idx := seq 0 4 |}.

(** A stand-in for the compiled routine: one cell for each map, holding
    the quotient of its first entry by zero. *)
Definition one_cell (x_in y_in x_out y_out : list float) (v : varray float)
  : result (varray float) :=
  match vshape v with
  | n :: _ =>
      Ok {| vshape := [n; 1; 1]%nat;
            vdata := map (fun k => PrimFloat.div (default 0%float (vdata v !! (4 * k)%nat)) 0)
                       (seq 0 n) |}
  | [] => Raise ValueError
  end.

End FloatExamples.

(** ** check_mask *)

(** [mask[i]], flattened: the [i]-th block of the data, of the size of the
    remaining axes. *)
Definition mask_row (mask : barray) (i : nat) : list bool :=
  let m := size (tail (bshape mask)) in
  take m (drop (i * m) (bdata mask)).

(** [np.any(np.bitwise_xor(a, b))] on two arrays of one shape. *)
Definition any_xor (a b : list bool) : bool := existsb id (zip_with xorb a b).

(** The loop over [range(1, mask.shape[0])], with its [break]; [diff] is
    [None] as long as the name has not been assigned. *)
Fixpoint check_mask_loop (mask : barray) (rows : list nat) (diff : option bool)
  : option bool :=
  match rows with
  | [] => diff
  | i :: rows' =>
      let d := any_xor (mask_row mask 0) (mask_row mask i) in
      if d then Some d else check_mask_loop mask rows' (Some d)
  end.

(** [~diff] on numpy's boolean is the negation. *)
Definition check_mask (mask : barray) : outcome bool :=
  match bshape mask with
  | [] => Throws (Builtin IndexError)
  | n :: _ =>
      match check_mask_loop mask (seq 1 (n - 1)) None with
      | Some diff => Returns (negb diff)
      | None => Throws UnboundLocalError
      end
  end.

(** ** get_closest *)

Section Closest.

(** The element type of the list, Python's [<], [<=] and [==] on it, and
    [-], which may raise. *)
Variable num : Type.
Variable lt le eq : num -> num -> bool.
Variable sub : num -> num -> result num.

(** The loop of the standard library's [bisect_left(a, x)]:
    [while lo < hi: mid = (lo + hi) // 2; if a[mid] < x: lo = mid + 1;
    else: hi = mid].  [fuel] makes the recursion structural; the window
    loses at least one index per iteration. *)
Fixpoint bisect_loop (fuel : nat) (a : list num) (x : num) (lo hi : Z) : result Z :=
  match fuel with
  | O => Ok lo
  | S fuel' =>
      if lo <? hi then
        let mid := (lo + hi) / 2 in
        rbind (py_getitem a mid) (fun am =>
        if lt am x then bisect_loop fuel' a x (mid + 1) hi
        else bisect_loop fuel' a x lo mid)
      else Ok lo
  end.

Definition bisect_left (a : list num) (x : num) : result Z :=
  bisect_loop (length a) a x 0 (Z.of_nat (length a)).

Definition loc_opt : list string := ["left"; "right"; "closest"].

(** The result is [Some] index, or [None] for Python's [None], which a
    function returns when it ends without a [return]. *)
Definition get_closest (L : list num) (elt : num) (loc : string) : result (option Z) :=
  if negb (bool_decide (loc ∈ loc_opt)) then Raise ValueError
  else
    rbind (bisect_left L elt) (fun pos =>
    if pos =? 0 then Ok (Some pos)
    else if pos =? Z.of_nat (length L) then Ok (Some (Z.of_nat (length L) - 1))
    else if String.eqb loc "closest" then
      rbind (py_getitem L (pos - 1)) (fun l =>
      rbind (sub elt l) (fun dl =>
      rbind (py_getitem L pos) (fun r =>
      rbind (sub r elt) (fun dr =>
      if le dl dr then Ok (Some (pos - 1)) else Ok (Some pos)))))
    else if String.eqb loc "left" then
      rbind (py_getitem L pos) (fun r =>
      if eq elt r then Ok (Some pos) else Ok (Some (pos - 1)))
    else if String.eqb loc "right" then Ok (Some pos)
    else Ok None).

End Closest.

Arguments bisect_loop {num} lt fuel a x lo hi.
Arguments bisect_left {num} lt a x.
Arguments get_closest {num} lt le eq sub L elt loc.

(** Lists of Python integers. *)
Module IntSeq.

Definition sub (a b : Z) : result Z := Ok (a - b).
Definition get_closest : list Z -> Z -> string -> result (option Z) :=
  get_closest Z.ltb Z.leb Z.eqb sub.

End IntSeq.

(** An ascending list. *)
Definition ascending (L : list Z) : Prop :=
  forall i j a b, (i <= j)%nat -> L !! i = Some a -> L !! j = Some b -> a <= b.

(** ** get_intersection_line and get_intersection_segment *)

Section Intersection.

(** The type of the coordinates, Python's [-], [*], [+], [/], [<=] and [==]
    on it, and the [0] the slope is compared with. *)
Variable num : Type.
Variable sub mul add truediv : num -> num -> result num.
Variable le eq : num -> num -> bool.
Variable zero : num.

(** [p == q] on two tuples. *)
Definition point_eq (p q : num * num) : bool :=
  eq (fst p) (fst q) && eq (snd p) (snd q).

(** [points.add(p)]: a set is kept as the list of its elements, none of
    them twice.  The order of the list has no counterpart in Python. *)
Definition set_add (p : num * num) (points : list (num * num)) : list (num * num) :=
  if existsb (point_eq p) points then points else points ++ [p].

(** [lo <= x <= hi] *)
Definition between (lo x hi : num) : bool := le lo x && le x hi.

(** [None] is Python's [None], returned when no intercept was caught. *)
Definition get_intersection_line (p1 : num * num) (a : num) (bl ur : num * num)
  : result (option (list (num * num))) :=
  (let points := [] in
   (* Catch left *)
   do d <- sub (fst bl) (fst p1);
   do t <- mul d a;
   do y <- add (snd p1) t;
   let points := if between (snd bl) y (snd ur) then set_add (fst bl, y) points
                 else points in
   (* Catch right *)
   do d <- sub (fst ur) (fst p1);
   do t <- mul d a;
   do y <- add (snd p1) t;
   let points := if between (snd bl) y (snd ur) then set_add (fst ur, y) points
                 else points in
   do points <-
     (if negb (eq a zero) then
        (* Catch bottom *)
        do d <- sub (snd bl) (snd p1);
        do t <- truediv d a;
        do x <- add (fst p1) t;
        let points := if between (fst bl) x (fst ur) then set_add (x, snd bl) points
                      else points in
        (* Catch top *)
        do d <- sub (snd ur) (snd p1);
        do t <- truediv d a;
        do x <- add (fst p1) t;
        let points := if between (fst bl) x (snd ur) then set_add (x, snd ur) points
                      else points in
        Ok points
      else Ok points);
   if (0 <? length points)%nat then Ok (Some points) else Ok None)%result.

(** [p[0] >= p1[0] and p[0] <= p2[0] and p[1] >= p1[1] and p[1] <= p2[1]],
    with [u >= v] read as [v <= u]. *)
Definition in_segment (p1 p2 p : num * num) : bool :=
  le (fst p1) (fst p) && le (fst p) (fst p2) &&
  le (snd p1) (snd p) && le (snd p) (snd p2).

(** The slope, then the intercepts of the line. *)
Definition segment_line (p1 p2 bl ur : num * num) : result (option (list (num * num))) :=
  (do dy <- sub (snd p2) (snd p1);
   do dx <- sub (fst p2) (fst p1);
   do a <- truediv dy dx;
   get_intersection_line p1 a bl ur)%result.

(** [for p in points] on [None] raises [TypeError]. *)
Definition get_intersection_segment (p1 p2 bl ur : num * num) : outcome (list (num * num)) :=
  match segment_line p1 p2 bl ur with
  | Raise e => Throws (Builtin e)
  | Ok None => Throws TypeError
  | Ok (Some points) =>
      Returns (foldl (fun points_ p => if in_segment p1 p2 p then set_add p points_
                                       else points_)
                 [] points)
  end.

End Intersection.

Arguments point_eq {num} eq p q.
Arguments set_add {num} eq p points.
Arguments between {num} le lo x hi.
Arguments get_intersection_line {num} sub mul add truediv le eq zero p1 a bl ur.
Arguments in_segment {num} le p1 p2 p.
Arguments segment_line {num} sub mul add truediv le eq zero p1 p2 bl ur.
Arguments get_intersection_segment {num} sub mul add truediv le eq zero p1 p2 bl ur.

(** Which test a point of [get_intersection_line] has passed: it lies on
    the line carrying the left, right, bottom or top side of the box. *)
Definition caught {num : Type} (le : num -> num -> bool) (bl ur p : num * num) : Prop :=
  (fst p = fst bl /\ between le (snd bl) (snd p) (snd ur) = true) \/
  (fst p = fst ur /\ between le (snd bl) (snd p) (snd ur) = true) \/
  (snd p = snd bl /\ between le (fst bl) (fst p) (fst ur) = true) \/
  (snd p = snd ur /\ between le (fst bl) (fst p) (snd ur) = true).

(** ** corr *)

Section Corr.

(** numpy's scalars: [np.average], the integer [0] the sums start from,
    [-], [*], [+], [/], [** 2] and [np.sqrt]; none of them raises. *)
Variable num : Type.
Variable average : list num -> num.
Variable zero : num.
Variable sub mul add div : num -> num -> num.
Variable sq sqrt : num -> num.

(** The body of the loop on [(sumxy, sumx2, sumy2)]. *)
Definition corr_step (x y : list num) (avgX avgY : num)
    (s : num * num * num) (i : nat) : result (num * num * num) :=
  (let '(sumxy, sumx2, sumy2) := s in
   do xi <- py_getitem x (Z.of_nat i);
   let devX := sub xi avgX in
   do yi <- py_getitem y (Z.of_nat i);
   let devY := sub yi avgY in
   Ok (add sumxy (mul devX devY), add sumx2 (sq devX), add sumy2 (sq devY)))%result.

Definition corr (x y : list num) : result num :=
  (let avgX := average x in
   let avgY := average y in
   do s <- rfold (corr_step x y avgX avgY) (seq 0 (length x)) (zero, zero, zero);
   let '(sumxy, sumx2, sumy2) := s in
   Ok (div sumxy (sqrt (mul sumx2 sumy2))))%result.

End Corr.

Arguments corr_step {num} sub mul add sq x y avgX avgY s i.
Arguments corr {num} average zero sub mul add div sq sqrt x y.

(** ** linearFit *)

(** [a ** 2] *)
Definition py_sq (a : PyNum.pynum) : result PyNum.pynum :=
  match a with
  | PyNum.PyInt z => Ok (PyNum.PyInt (z * z))
  | PyNum.PyFloat f => rbind (PyNum.float_sq f) (fun r => Ok (PyNum.PyFloat r))
  end.

(** The sums [(sumx, sumy, sumxy, sumx2, sumy2)]. *)
Definition sums : Type :=
  PyNum.pynum * PyNum.pynum * PyNum.pynum * PyNum.pynum * PyNum.pynum.

(** The body of the loop. *)
Definition fit_step (x y : list PyNum.pynum) (s : sums) (i : nat) : result sums :=
  (let '(sumx, sumy, sumxy, sumx2, sumy2) := s in
   do xi <- py_getitem x (Z.of_nat i);
   do yi <- py_getitem y (Z.of_nat i);
   do sumx <- PyNum.add sumx xi;
   do sumy <- PyNum.add sumy yi;
   do xy <- PyNum.mul xi yi;
   do sumxy <- PyNum.add sumxy xy;
   do x2 <- py_sq xi;
   do sumx2 <- PyNum.add sumx2 x2;
   do y2 <- py_sq yi;
   do sumy2 <- PyNum.add sumy2 y2;
   Ok (sumx, sumy, sumxy, sumx2, sumy2))%result.

(** The result [([m, b], r)] as [(m, b, r)]. *)
Definition linearFit (x y : list PyNum.pynum) (fixedInt : bool)
  : result (PyNum.pynum * PyNum.pynum * PyNum.pynum) :=
  (let n := length x in
   if negb (n =? length y)%nat then Raise ValueError
   else
     let zero := PyNum.PyInt 0 in
     do s <- rfold (fit_step x y) (seq 0 n) (zero, zero, zero, zero, zero);
     let '(sumx, sumy, sumxy, sumx2, sumy2) := s in
     let n := PyNum.PyInt (Z.of_nat n) in
     let fix_ := PyNum.PyInt (if fixedInt then 0 else 1) in
     let two := PyNum.PyInt 2 in
     (* m = (n*sumxy - fix*sumx*sumy) / (n*sumx2 - fix*sumx**2) *)
     do a1 <- PyNum.mul n sumxy;
     do a2 <- PyNum.mul fix_ sumx;
     do a3 <- PyNum.mul a2 sumy;
     do a4 <- PyNum.sub a1 a3;
     do b1 <- PyNum.mul n sumx2;
     do b2 <- py_sq sumx;
     do b3 <- PyNum.mul fix_ b2;
     do b4 <- PyNum.sub b1 b3;
     do m <- PyNum.truediv a4 b4;
     (* b = fix*(sumy*sumx2 - sumx*sumxy) / (n*sumx2 - sumx**2) *)
     do c1 <- PyNum.mul sumy sumx2;
     do c2 <- PyNum.mul sumx sumxy;
     do c3 <- PyNum.sub c1 c2;
     do c4 <- PyNum.mul fix_ c3;
     do d1 <- PyNum.mul n sumx2;
     do d2 <- py_sq sumx;
     do d3 <- PyNum.sub d1 d2;
     do b <- PyNum.truediv c4 d3;
     (* r = (sumy2 + m**2*sumx2 + n*b**2 + 2*m*b*sumx - 2*m*sumxy - 2*b*sumy) *)
     do e1 <- py_sq m;
     do e2 <- PyNum.mul e1 sumx2;
     do r <- PyNum.add sumy2 e2;
     do f1 <- py_sq b;
     do f2 <- PyNum.mul n f1;
     do r <- PyNum.add r f2;
     do g1 <- PyNum.mul two m;
     do g2 <- PyNum.mul g1 b;
     do g3 <- PyNum.mul g2 sumx;
     do r <- PyNum.add r g3;
     do h1 <- PyNum.mul two m;
     do h2 <- PyNum.mul h1 sumxy;
     do r <- PyNum.sub r h2;
     do k1 <- PyNum.mul two b;
     do k2 <- PyNum.mul k1 sumy;
     do r <- PyNum.sub r k2;
     (* r /= sumy2 *)
     do r <- PyNum.truediv r sumy2;
     Ok (m, b, r))%result.

(** * Properties *)

(** ** Python indexing *)

Lemma py_index_in_range n i :
  0 <= i < Z.of_nat n -> py_index n i = Ok (Z.to_nat i).
Proof.
  intros H. unfold py_index.
  destruct (0 <=? i) eqn:E1; [|lia].
  destruct (i <? Z.of_nat n) eqn:E2; [reflexivity|lia].
Qed.

Lemma py_index_negative n i :
  - Z.of_nat n <= i < 0 -> py_index n i = Ok (Z.to_nat (i + Z.of_nat n)).
Proof.
  intros H. unfold py_index.
  destruct (0 <=? i) eqn:E1; [lia|]. simpl.
  destruct (- Z.of_nat n <=? i) eqn:E2; [|lia].
  destruct (i <? 0) eqn:E3; [reflexivity|lia].
Qed.

Lemma py_index_out n i :
  ~ (- Z.of_nat n <= i < Z.of_nat n) -> py_index n i = Raise IndexError.
Proof.
  intros H. unfold py_index.
  destruct (0 <=? i) eqn:E1, (i <? Z.of_nat n) eqn:E2,
    (- Z.of_nat n <=? i) eqn:E3, (i <? 0) eqn:E4; simpl; try reflexivity; lia.
Qed.

Lemma py_index_lt n i k : py_index n i = Ok k -> (k < n)%nat.
Proof.
  unfold py_index.
  destruct (0 <=? i) eqn:E1, (i <? Z.of_nat n) eqn:E2,
    (- Z.of_nat n <=? i) eqn:E3, (i <? 0) eqn:E4; simpl;
    intros H; inversion H; lia.
Qed.

Lemma py_getitem_in_range {X} (l : list X) i :
  - Z.of_nat (length l) <= i < Z.of_nat (length l) ->
  exists x, py_getitem l i = Ok x.
Proof.
  intros H. unfold py_getitem.
  destruct (py_index (length l) i) as [k|e] eqn:E.
  - simpl. pose proof (py_index_lt _ _ _ E) as Hk.
    destruct (lookup_lt_is_Some_2 l k Hk) as [x Hx].
    exists x. now rewrite Hx.
  - destruct (Z_lt_dec i 0).
    + rewrite py_index_negative in E by lia. discriminate.
    + rewrite py_index_in_range in E by lia. discriminate.
Qed.

Lemma py_getitem_out {X} (l : list X) i :
  ~ (- Z.of_nat (length l) <= i < Z.of_nat (length l)) ->
  py_getitem l i = Raise IndexError.
Proof.
  intros H. unfold py_getitem. now rewrite py_index_out.
Qed.

Lemma py_getitem_lookup {X} (l : list X) (i : nat) x :
  l !! i = Some x -> py_getitem l (Z.of_nat i) = Ok x.
Proof.
  intros H. pose proof (lookup_lt_Some _ _ _ H) as Hlt.
  unfold py_getitem. rewrite py_index_in_range by lia. simpl.
  now rewrite Nat2Z.id, H.
Qed.

Lemma length_range_neg n : length (range_neg n) = n.
Proof. unfold range_neg. now rewrite length_map, length_seq. Qed.

Lemma lookup_range_neg n i :
  (i < n)%nat -> range_neg n !! i = Some (Z.of_nat i - Z.of_nat n).
Proof.
  intros H. unfold range_neg.
  rewrite list_lookup_fmap, lookup_seq_lt by lia. reflexivity.
Qed.

Lemma py_getitem_range_neg n i :
  (i < n)%nat -> py_getitem (range_neg n) (Z.of_nat i) = Ok (Z.of_nat i - Z.of_nat n).
Proof.
  intros H. unfold py_getitem.
  rewrite length_range_neg, py_index_in_range by lia. simpl.
  rewrite Nat2Z.id, lookup_range_neg by lia. reflexivity.
Qed.

(** ** The bisection loop *)

Section DichotoFacts.

Context {num : Type}.
Variable sub mul : num -> num -> result num.
Variable ge0 : num -> bool.

Lemma midpoint_between t1 t2 :
  1 < t2 - t1 -> t1 < midpoint t1 t2 < t2.
Proof.
  intros H. unfold midpoint.
  pose proof (Z.quot_rem' (t2 + t1) 2) as Hq.
  pose proof (Z.rem_bound_abs (t2 + t1) 2 ltac:(lia)) as Hr.
  lia.
Qed.

Lemma centered_length sig target z :
  centered sub sig target = Ok z -> length z = length sig.
Proof.
  revert z. induction sig as [|s rest IH]; intros z; simpl.
  - intros H; inversion H; reflexivity.
  - destruct (sub s target) as [c|e]; simpl; [|discriminate].
    destruct (centered sub rest target) as [zs|e]; simpl; [|discriminate].
    intros H; inversion H; subst; simpl. now rewrite (IH zs).
Qed.

Lemma centered_total sig target :
  (forall a b, is_ok (sub a b)) -> exists z, centered sub sig target = Ok z.
Proof.
  intros Hsub. induction sig as [|s rest [zs IH]]; simpl.
  - now exists [].
  - specialize (Hsub s target). destruct (sub s target) as [c|e]; [|contradiction].
    simpl. rewrite IH. simpl. now eexists.
Qed.

(** What one iteration does when both subscripts are in range. *)
Lemma dichoto_step_cases sigZero t1 t2 :
  - Z.of_nat (length sigZero) <= t1 -> t2 < Z.of_nat (length sigZero) ->
  1 < t2 - t1 ->
  let t3 := midpoint t1 t2 in
  exists r,
    dichoto_step mul ge0 sigZero t1 t2 = ([t2; t3], r) /\
    (r = Ok (t1, t3) \/ r = Ok (t3, t2) \/ exists a b e, mul a b = Raise e /\ r = Raise e).
Proof.
  intros Hlo Hhi Hw t3.
  pose proof (midpoint_between t1 t2 Hw) as Hm. fold t3 in Hm.
  destruct (py_getitem_in_range sigZero t2 ltac:(lia)) as [a Ha].
  destruct (py_getitem_in_range sigZero t3 ltac:(lia)) as [b Hb].
  unfold dichoto_step, subscript. fold t3. rewrite Ha, Hb. simpl.
  destruct (mul a b) as [p|e] eqn:Hp; simpl.
  - destruct (ge0 p); simpl; eexists; split; eauto.
  - eexists; split; eauto 10.
Qed.


(** The loop from a window inside the sequence: what it subscripts with lies
    in the window, and the state it ends in is inside the window too. *)
Lemma dichoto_loop_window sigZero fuel : forall t1 t2 ncount,
  - Z.of_nat (length sigZero) <= t1 -> t2 < Z.of_nat (length sigZero) ->
  exists l r,
    dichoto_loop mul ge0 fuel sigZero t1 t2 ncount = (l, r) /\
    Forall (fun i => t1 < i <= t2) l /\
    match r with
    | Ok (a, b, c) =>
        t1 <= a /\ b <= t2 /\ ((t1 < t2 /\ a < b) \/ (t2 <= t1 /\ a = t1 /\ b = t2))
    | Raise e => exists x y, mul x y = Raise e
    end.
Proof.
  induction fuel as [|fuel IH]; intros t1 t2 ncount Hlo Hhi; simpl.
  - exists [], (Ok (t1, t2, ncount)). repeat split; [constructor|lia|lia|lia].
  - destruct (1 <? t2 - t1) eqn:Hw; simpl;
      [destruct (ncount <? max_count) eqn:Hc; simpl|].
    + assert (1 < t2 - t1) as Hw' by lia.
      pose proof (midpoint_between t1 t2 Hw') as Hm.
      destruct (dichoto_step_cases sigZero t1 t2 Hlo Hhi Hw') as [r [Hs Hr]].
      rewrite Hs.
      destruct Hr as [-> | [-> | [x [y [e [Hxy ->]]]]]]; simpl.
      * destruct (IH t1 (midpoint t1 t2) (ncount + 1) Hlo ltac:(lia))
          as [l [r [Hl [Hf Hr]]]].
        rewrite Hl. exists ([t2; midpoint t1 t2] ++ l), r.
        split; [reflexivity|]. split.
        -- apply Forall_app. split.
           ++ repeat constructor; lia.
           ++ eapply Forall_impl; [exact Hf|]. simpl. intros; lia.
        -- destruct r as [[[a b] c]|e]; [|exact Hr]. lia.
      * destruct (IH (midpoint t1 t2) t2 (ncount + 1) ltac:(lia) Hhi)
          as [l [r [Hl [Hf Hr]]]].
        rewrite Hl. exists ([t2; midpoint t1 t2] ++ l), r.
        split; [reflexivity|]. split.
        -- apply Forall_app. split.
           ++ repeat constructor; lia.
           ++ eapply Forall_impl; [exact Hf|]. simpl. intros; lia.
        -- destruct r as [[[a b] c]|e]; [|exact Hr]. lia.
      * exists [t2; midpoint t1 t2], (Raise e). split; [reflexivity|]. split.
        -- repeat constructor; lia.
        -- eauto.
    + exists [], (Ok (t1, t2, ncount)). repeat split; [constructor|lia|lia|lia].
    + exists [], (Ok (t1, t2, ncount)). repeat split; [constructor|lia|lia|lia].
Qed.

End DichotoFacts.

(** The fuel the loop is run with covers any [k <= 10000] iterations. *)
Lemma dichoto_fuel_covers (k : nat) : Z.of_nat k <= max_count -> (k <= dichoto_fuel)%nat.
Proof. unfold dichoto_fuel. lia. Qed.

Opaque dichoto_fuel.

(** ** The bisection loop on any window *)

Section DichotoEnds.

Context {num : Type}.
Variable mul : num -> num -> result num.
Variable ge0 : num -> bool.
Hypothesis Hmul : forall a b, is_ok (mul a b).



End DichotoEnds.

(** ** What a computation subscripts with *)

Lemma rd_bind_reads {X Y} (P : Z -> Prop) (c : reader X) (k : X -> reader Y) :
  Forall P (fst c) ->
  (forall x, snd c = Ok x -> Forall P (fst (k x))) ->
  Forall P (fst (rd_bind c k)).
Proof.
  destruct c as [l [x|e]]; simpl; intros Hl Hk; [|exact Hl].
  specialize (Hk x eq_refl). destruct (k x) as [l' r]. simpl in *.
  apply Forall_app. now split.
Qed.

Lemma rd_bind_ok {X Y} (c : reader X) (k : X -> reader Y) y :
  snd (rd_bind c k) = Ok y -> exists x, snd c = Ok x /\ snd (k x) = Ok y.
Proof.
  destruct c as [l [x|e]]; simpl; [|discriminate].
  destruct (k x) as [l' r] eqn:E. simpl. intros ->. exists x. now rewrite E.
Qed.

Section CursorFacts.

Context {num : Type}.
Variable sub mul add truediv : num -> num -> result num.
Variable ge0 : num -> bool.

(** [get_zero_dichoto] from a window that starts at a valid index and ends
    no later than the last one: every subscript is an index of the
    sequence, and a returned index is inside the window. *)
Lemma get_zero_dichoto_window (sig : list num) target t1 ot2 :
  let n := Z.of_nat (length sig) in
  let t2 := default (n - 1) ot2 in
  0 <= t1 -> t2 <= n - 1 ->
  Forall (fun i => 0 <= i < n) (fst (get_zero_dichoto sub mul ge0 sig target t1 ot2)) /\
  (forall r, snd (get_zero_dichoto sub mul ge0 sig target t1 ot2) = Ok r ->
             t1 <= r /\ (t1 < t2 -> r < t2) /\ (t2 <= t1 -> r = t1)).
Proof.
  intros n t2 H1 H2.
  unfold get_zero_dichoto, dichoto_run, rd_lift.
  destruct (centered sub sig target) as [z|e] eqn:Hz; simpl.
  2: { split; [constructor|discriminate]. }
  pose proof (centered_length sub sig target z Hz) as Hlen.
  replace (match ot2 with Some t => t | None => Z.of_nat (length sig) - 1 end)
    with t2 by (unfold t2, n; now destruct ot2).
  destruct (dichoto_loop_window mul ge0 z dichoto_fuel t1 t2 0)
    as [l [r [Hl [Hf Hr]]]]; [rewrite Hlen; lia|rewrite Hlen; fold n; lia|].
  rewrite Hl. destruct r as [[[a b] c]|e]; simpl.
  - rewrite app_nil_r. split.
    + eapply Forall_impl; [exact Hf|]. simpl. intros; lia.
    + intros r Hr'. inversion Hr'; subst. lia.
  - split; [|discriminate].
    eapply Forall_impl; [exact Hf|]. simpl. intros; lia.
Qed.

(** [get_cursor] on two sequences of the same length, at least two: every
    subscript, those of the searches and [y[t+1]], [y[t]], [x[t+1]], [x[t]]
    after them, is an index of the sequences. *)
Lemma get_cursor_subscripts (x y : list num) pointer g1 g2 Xaxis :
  length x = length y -> (2 <= length y)%nat ->
  Forall (fun i => 0 <= i < Z.of_nat (length y))
    (fst (get_cursor sub mul add truediv ge0 x y pointer g1 g2 Xaxis)).
Proof.
  intros Hxy Hn. unfold get_cursor.
  set (n := Z.of_nat (length y)).
  assert (exists x' y', (if Xaxis then (y, x) else (x, y)) = (x', y') /\
            Z.of_nat (length x') = n /\ Z.of_nat (length y') = n) as [x' [y' [-> [Hx' Hy']]]].
  { destruct Xaxis; eexists; eexists; split; try reflexivity; unfold n; lia. }
  apply rd_bind_reads.
  { destruct g1 as [g|]; [|constructor].
    destruct (get_zero_dichoto_window x' g 0 None) as [Hf _]; simpl; try lia.
    now rewrite Hx' in Hf. }
  intros t1 Ht1.
  assert (0 <= t1 <= n - 2) as Ht1r.
  { destruct g1 as [g|]; [|inversion Ht1; lia].
    destruct (get_zero_dichoto_window x' g 0 None) as [_ Hr]; simpl; try lia.
    simpl in Hr. rewrite Hx' in Hr.
    destruct (Hr t1 Ht1) as [? [Hlt _]]. lia. }
  apply rd_bind_reads.
  { destruct g2 as [g|]; [|constructor].
    apply rd_bind_reads; [|intros; constructor].
    destruct (get_zero_dichoto_window x' g 0 None) as [Hf _]; simpl; try lia.
    now rewrite Hx' in Hf. }
  intros ot2 Hot2.
  assert (default (n - 1) ot2 <= n - 1) as Ht2r.
  { destruct g2 as [g|]; [|inversion Hot2; simpl; lia].
    apply rd_bind_ok in Hot2. destruct Hot2 as [t [Ht Hs]].
    inversion Hs; subst. simpl.
    destruct (get_zero_dichoto_window x' g 0 None) as [_ Hr]; simpl; try lia.
    simpl in Hr. rewrite Hx' in Hr.
    destruct (Hr t Ht) as [? [Hlt _]]. lia. }
  destruct (get_zero_dichoto_window y' pointer t1 ot2) as [Hf Hr];
    [lia|rewrite Hy'; exact Ht2r|].
  rewrite Hy' in Hf, Hr.
  apply rd_bind_reads; [exact Hf|].
  intros t Ht. destruct (Hr t Ht) as [Hlo [Hlt Heq]].
  assert (0 <= t <= n - 2) as Htr.
  { destruct (Z_lt_dec t1 (default (n - 1) ot2)); [specialize (Hlt ltac:(lia))|
      specialize (Heq ltac:(lia))]; lia. }
  repeat (apply rd_bind_reads;
          [first [ repeat constructor; lia | constructor ] | intros ? _]).
  constructor.
Qed.

End CursorFacts.



(** ** The claims about the zero-crossing search and the cursor *)

(** C4.  On the signal [-2, -1, 0, 1, 2] with target [0] and the default
    window, [get_zero_dichoto] subscripts the centred signal with 4, 2, 2, 1
    and returns 0: the exact zero at the first midpoint makes both products
    zero, so the right bound moves twice.  The interval [0, 1] it names does
    not hold the crossing; the returned index is outside [{1, 2}]. *)
Theorem get_zero_dichoto_exact_zero_returns_0 :
  get_zero_dichoto PyNum.sub PyNum.mul PyNum.ge0
    (map PyNum.PyInt [-2; -1; 0; 1; 2]) (PyNum.PyInt 0) 0 None
  = ([4; 2; 2; 1], Ok 0).
Proof. vm_compute. reflexivity. Qed.




Example get_zero_dichoto_negative_window :
  get_zero_dichoto FloatSeq.sub FloatSeq.mul FloatSeq.ge0 [-2; -1; 1; 2; 3]%float 0%float
    (-5) (Some 4)
  = ([4; 0; 4; 2; 2; 1], Ok 1).
Proof. vm_compute. reflexivity. Qed.

(** C8.  [get_cursor] on the Python lists [x = [0, 1, 2, 3]],
    [y = [0, 1, 2, 3]] with the float [pointer = 1.5] and the other arguments
    at their defaults returns the float 1.5. *)
Theorem get_cursor_identity_line_returns_1_5 :
  snd (get_cursor PyNum.sub PyNum.mul PyNum.add PyNum.truediv PyNum.ge0
         (map PyNum.PyInt [0; 1; 2; 3]) (map PyNum.PyInt [0; 1; 2; 3])
         (PyNum.PyFloat 1.5%float) None None false)
  = Ok (PyNum.PyFloat 1.5%float).
Proof. vm_compute. reflexivity. Qed.

(** C9.  For a signal of length [n >= 2], a window [0 <= t1 < t2 <= n-1] and
    arithmetic that does not raise, [get_zero_dichoto] subscripts the centred
    signal only with indices in [0, n-1] and returns an index [r] with
    [t1 <= r <= t2 - 1], so [r + 1] is an index too; and on two sequences of
    that length [get_cursor] subscripts only with indices in [0, n-1],
    whatever the pointer and the guesses. *)
Theorem get_zero_dichoto_stays_in_bounds
    {num : Type} (sub mul add truediv : num -> num -> result num) (ge0 : num -> bool)
    (sig : list num) (target : num) (t1 t2 : Z) :
  let n := Z.of_nat (length sig) in
  (forall a b, is_ok (sub a b)) ->
  (forall a b, is_ok (mul a b)) ->
  2 <= n -> 0 <= t1 -> t1 < t2 -> t2 <= n - 1 ->
  Forall (fun i => 0 <= i <= n - 1)
    (fst (get_zero_dichoto sub mul ge0 sig target t1 (Some t2))) /\
  (exists r,
      snd (get_zero_dichoto sub mul ge0 sig target t1 (Some t2)) = Ok r /\
      t1 <= r <= t2 - 1 /\ 0 <= r + 1 <= n - 1) /\
  (forall (x : list num) pointer g1 g2 Xaxis,
      length x = length sig ->
      Forall (fun i => 0 <= i <= n - 1)
        (fst (get_cursor sub mul add truediv ge0 x sig pointer g1 g2 Xaxis))).
Proof.
  intros n Hsub Hmul Hn H0 H12 H2.
  destruct (get_zero_dichoto_window sub mul ge0 sig target t1 (Some t2)) as [Hf Hr];
    [lia|simpl; lia|]. simpl in Hr.
  split; [|split].
  - eapply Forall_impl; [exact Hf|]. simpl. intros; lia.
  - destruct (centered_total sub sig target Hsub) as [z Hz].
    pose proof (centered_length sub sig target z Hz) as Hlen.
    destruct (dichoto_loop_window mul ge0 z dichoto_fuel t1 t2 0)
      as [l [r [Hl [_ Hres]]]]; [rewrite Hlen; lia|rewrite Hlen; lia|].
    destruct r as [[[a b] c]|e].
    + exists a.
      assert (snd (get_zero_dichoto sub mul ge0 sig target t1 (Some t2)) = Ok a) as Ha.
      { unfold get_zero_dichoto, dichoto_run, rd_lift. rewrite Hz. simpl.
        rewrite Hl. reflexivity. }
      split; [exact Ha|]. destruct (Hr a Ha) as [? [Hlt _]]. lia.
    + destruct Hres as [u [v Huv]]. specialize (Hmul u v).
      rewrite Huv in Hmul. contradiction.
  - intros x pointer g1 g2 Xaxis Hx.
    eapply Forall_impl;
      [apply (get_cursor_subscripts sub mul add truediv ge0 x sig); [exact Hx|lia]|].
    simpl. intros; lia.
Qed.

Lemma get_zero_dichoto_stays_in_bounds_witness :
  let sig := [-2; -1; 1; 2; 3]%float in
  let n := Z.of_nat (length sig) in
  (forall a b, is_ok (FloatSeq.sub a b)) /\
  (forall a b, is_ok (FloatSeq.mul a b)) /\
  2 <= n /\ 0 <= 0 /\ 0 < 4 /\ 4 <= n - 1 /\
  Forall (fun i => 0 <= i <= n - 1)
    (fst (get_zero_dichoto FloatSeq.sub FloatSeq.mul FloatSeq.ge0 sig 0%float 0 (Some 4))) /\
  (exists r,
      snd (get_zero_dichoto FloatSeq.sub FloatSeq.mul FloatSeq.ge0 sig 0%float 0 (Some 4)) = Ok r /\
      0 <= r <= 4 - 1 /\ 0 <= r + 1 <= n - 1) /\
  (forall (x : list float) pointer g1 g2 Xaxis,
      length x = length sig ->
      Forall (fun i => 0 <= i <= n - 1)
        (fst (get_cursor FloatSeq.sub FloatSeq.mul FloatSeq.add FloatSeq.truediv FloatSeq.ge0
                x sig pointer g1 g2 Xaxis))).
Proof.
  intros sig n.
  assert (forall a b, is_ok (FloatSeq.sub a b)) as Hsub by (intros; exact I).
  assert (forall a b, is_ok (FloatSeq.mul a b)) as Hmul by (intros; exact I).
  repeat (split; [first [assumption | subst n sig; simpl; lia]|]).
  apply (get_zero_dichoto_stays_in_bounds FloatSeq.sub FloatSeq.mul FloatSeq.add
           FloatSeq.truediv FloatSeq.ge0 sig 0%float 0 4 Hsub Hmul); subst n sig; simpl; lia.
Defined.

(** ** Axis swaps *)

Lemma length_swap_at {X} (i j : nat) (l : list X) : length (swap_at i j l) = length l.
Proof.
  unfold swap_at. destruct (l !! i), (l !! j); try reflexivity.
  now rewrite !length_insert.
Qed.

Lemma normalize_axis_ok rank ax k :
  normalize_axis rank ax = Ok k ->
  - Z.of_nat rank <= ax < Z.of_nat rank /\ (k < rank)%nat.
Proof.
  unfold normalize_axis.
  destruct (- Z.of_nat rank <=? ax) eqn:E1, (ax <? Z.of_nat rank) eqn:E2; simpl;
    try discriminate.
  intros H. inversion H. destruct (ax <? 0) eqn:E3; lia.
Qed.

Lemma normalize_axis_out rank ax :
  ~ (- Z.of_nat rank <= ax < Z.of_nat rank) -> normalize_axis rank ax = Raise AxisError.
Proof.
  intros H. unfold normalize_axis.
  destruct (- Z.of_nat rank <=? ax) eqn:E1, (ax <? Z.of_nat rank) eqn:E2; simpl;
    try reflexivity; lia.
Qed.

Lemma np_swapaxes_ok a ax1 ax2 a' :
  np_swapaxes a ax1 ax2 = Ok a' ->
  buf a' = buf a /\ length (shape a') = length (shape a) /\
  - Z.of_nat (length (shape a)) <= ax1 < Z.of_nat (length (shape a)) /\
  - Z.of_nat (length (shape a)) <= ax2 < Z.of_nat (length (shape a)).
Proof.
  unfold np_swapaxes.
  destruct (normalize_axis (length (shape a)) ax1) as [i|e] eqn:E1; simpl; [|discriminate].
  destruct (normalize_axis (length (shape a)) ax2) as [j|e] eqn:E2; simpl; [|discriminate].
  intros H. inversion H; subst; simpl. rewrite length_swap_at.
  apply normalize_axis_ok in E1, E2. tauto.
Qed.

Lemma np_swapaxes_raises a ax1 ax2 e :
  np_swapaxes a ax1 ax2 = Raise e -> e = AxisError.
Proof.
  unfold np_swapaxes, normalize_axis.
  repeat match goal with
         | |- context [if ?c then _ else _] => destruct c; simpl
         end; intros H; inversion H; reflexivity.
Qed.

Lemma py_getitem_raises {X} (l : list X) i e :
  py_getitem l i = Raise e -> e = IndexError.
Proof.
  unfold py_getitem, py_index.
  repeat match goal with
         | |- context [if ?c then _ else _] => destruct c; simpl
         | |- context [match ?l !! ?k with _ => _ end] => destruct (l !! k); simpl
         end; intros H; inversion H; reflexivity.
Qed.

Section SwapLoop.

Variable axes lastaxes : list Z.

Lemma swap_ith_ok a i a' :
  swap_ith axes lastaxes a i = Ok a' ->
  buf a' = buf a /\ length (shape a') = length (shape a).
Proof.
  unfold swap_ith.
  destruct (py_getitem axes (Z.of_nat i)) as [ax|e]; simpl; [|discriminate].
  destruct (py_getitem lastaxes (Z.of_nat i)) as [la|e]; simpl; [|discriminate].
  intros H. apply np_swapaxes_ok in H. tauto.
Qed.

Lemma swap_ith_raises a i e :
  swap_ith axes lastaxes a i = Raise e -> e = IndexError \/ e = AxisError.
Proof.
  unfold swap_ith.
  destruct (py_getitem axes (Z.of_nat i)) as [ax|e1] eqn:E1; simpl.
  2: { intros H; inversion H; subst. left. eapply py_getitem_raises; eauto. }
  destruct (py_getitem lastaxes (Z.of_nat i)) as [la|e2] eqn:E2; simpl.
  2: { intros H; inversion H; subst. left. eapply py_getitem_raises; eauto. }
  intros H. right. eapply np_swapaxes_raises; eauto.
Qed.

Lemma swap_loop_ok ks : forall a a',
  rfold (swap_ith axes lastaxes) ks a = Ok a' ->
  buf a' = buf a /\ length (shape a') = length (shape a).
Proof.
  induction ks as [|i ks IH]; intros a a'; simpl.
  - intros H; inversion H; tauto.
  - destruct (swap_ith axes lastaxes a i) as [a1|e] eqn:E; simpl; [|discriminate].
    intros H. apply IH in H. apply swap_ith_ok in E. destruct H, E. split; congruence.
Qed.

(** The first loop of [do_stack] raises as soon as one of its swaps is
    refused, and raises nothing but [IndexError] and [AxisError]. *)
Lemma swap_loop_refused ks : forall a i,
  i ∈ ks -> swap_refused axes lastaxes (length (shape a)) i ->
  exists e, rfold (swap_ith axes lastaxes) ks a = Raise e /\
            (e = IndexError \/ e = AxisError).
Proof.
  induction ks as [|j ks IH]; intros a i Hin Hbad.
  - inversion Hin.
  - simpl. destruct (swap_ith axes lastaxes a j) as [a1|e] eqn:E; simpl.
    + apply elem_of_cons in Hin. destruct Hin as [->|Hin].
      * destruct (Hbad a eq_refl) as [e He]. congruence.
      * apply (IH a1 i Hin). apply swap_ith_ok in E. destruct E as [_ ->]. exact Hbad.
    + exists e. split; [reflexivity|]. eapply swap_ith_raises; eauto.
Qed.

Lemma swap_refused_short rank i :
  (length axes <= i)%nat -> swap_refused axes lastaxes rank i.
Proof.
  intros H a _. unfold swap_ith.
  rewrite py_getitem_out by lia. simpl. eauto.
Qed.

Lemma swap_refused_axis rank i ax :
  axes !! i = Some ax -> ~ (- Z.of_nat rank <= ax < Z.of_nat rank) ->
  swap_refused axes lastaxes rank i.
Proof.
  intros Hax Hout a Ha. unfold swap_ith.
  rewrite (py_getitem_lookup _ _ _ Hax). simpl.
  destruct (py_getitem lastaxes (Z.of_nat i)) as [la|e]; simpl; [|eauto].
  unfold np_swapaxes. rewrite Ha. rewrite (normalize_axis_out rank ax Hout).
  simpl. eauto.
Qed.

Lemma swap_refused_lastaxis rank i la :
  lastaxes !! i = Some la -> ~ (- Z.of_nat rank <= la < Z.of_nat rank) ->
  swap_refused axes lastaxes rank i.
Proof.
  intros Hla Hout a Ha. unfold swap_ith.
  destruct (py_getitem axes (Z.of_nat i)) as [ax|e]; simpl; [|eauto].
  rewrite (py_getitem_lookup _ _ _ Hla). simpl.
  unfold np_swapaxes. rewrite Ha.
  destruct (normalize_axis rank ax); simpl; [|eauto].
  rewrite (normalize_axis_out rank la Hout). simpl. eauto.
Qed.

End SwapLoop.

(** ** do_stack raises before its loop *)

Section DoStackRaises.

Context {A : Type} (zero : A) (reshape_copies : ndarray -> list nat -> bool).
Context {Args : Type} (func : varray A -> Args -> result (varray A)).

(** When the first loop raises, [do_stack] raises the same exception and
    leaves the store, and the count of calls of [func], as they were. *)
Lemma do_stack_swap_raises ndim array args axes output st e :
  rfold (swap_ith (default (range_neg ndim) axes) (range_neg ndim)) (seq 0 ndim) array
    = Raise e ->
  do_stack zero reshape_copies func ndim array args axes output st = (Raise e, st).
Proof.
  intros H. unfold do_stack, bind, lift.
  replace (match axes with Some l => l | None => range_neg ndim end)
    with (default (range_neg ndim) axes) by now destruct axes.
  now rewrite H.
Qed.

(** With more axes to operate on than the array has, the first swap is
    refused whatever [axes] holds. *)
Lemma do_stack_rank_too_small ndim array args axes output st :
  (length (shape array) < ndim)%nat ->
  exists e, do_stack zero reshape_copies func ndim array args axes output st
            = (Raise e, st) /\ (e = IndexError \/ e = AxisError).
Proof.
  intros Hrank.
  destruct (swap_loop_refused (default (range_neg ndim) axes) (range_neg ndim)
              (seq 0 ndim) array 0%nat) as [e [He Hk]].
  - apply elem_of_seq. lia.
  - apply (swap_refused_lastaxis _ _ _ _ (Z.of_nat 0 - Z.of_nat ndim)).
    + apply lookup_range_neg. lia.
    + lia.
  - exists e. split; [|exact Hk]. now apply do_stack_swap_raises.
Qed.

End DoStackRaises.

(** ** The claims about what do_stack and regrid refuse *)

(** C5, as the code has it.  When the axis selection is shorter than
    [ndim], or one of its first [ndim] entries is outside the rank of the
    array, [do_stack] raises [IndexError] or numpy's [AxisError] from its
    first loop: no slice has been handed to [func] and the store is as it
    was.  Entries after the first [ndim] are never read. *)
Theorem do_stack_refuses_short_or_outside_axes
    {A : Type} (zero : A) (reshape_copies : ndarray -> list nat -> bool)
    {Args : Type} (func : varray A -> Args -> result (varray A))
    (ndim : nat) (array : ndarray) (args : Args) (axes : list Z)
    (output : option ndarray) (st : state A) :
  (length axes < ndim)%nat \/
  (exists i ax, (i < ndim)%nat /\ axes !! i = Some ax /\
     ~ (- Z.of_nat (length (shape array)) <= ax < Z.of_nat (length (shape array)))) ->
  exists e,
    do_stack zero reshape_copies func ndim array args (Some axes) output st
      = (Raise e, st) /\
    (e = IndexError \/ e = AxisError).
Proof.
  intros H.
  assert (exists i, i ∈ seq 0 ndim /\
            swap_refused axes (range_neg ndim) (length (shape array)) i) as [i [Hi Hbad]].
  { destruct H as [Hshort | [i [ax [Hi [Hax Hout]]]]].
    - exists (length axes). split; [apply elem_of_seq; lia|].
      now apply swap_refused_short.
    - exists i. split; [apply elem_of_seq; lia|].
      now apply (swap_refused_axis _ _ _ _ ax). }
  destruct (swap_loop_refused axes (range_neg ndim) (seq 0 ndim) array i Hi Hbad)
    as [e [He Hk]].
  exists e. split; [|exact Hk].
  now apply do_stack_swap_raises.
Qed.

Lemma do_stack_refuses_short_or_outside_axes_witness :
  exists e,
    do_stack 0 Examples.views Examples.identity 2 (Examples.arange [2; 3]%nat) tt
      (Some [5]) None (Examples.arange_store 6)
      = (Raise e, Examples.arange_store 6) /\
    (e = IndexError \/ e = AxisError).
Proof.
  apply (do_stack_refuses_short_or_outside_axes 0 Examples.views Examples.identity
           2 (Examples.arange [2; 3]%nat) tt [5] None (Examples.arange_store 6)).
  left. simpl. lia.
Defined.

(** C5, the claim as stated fails: with [ndim = 1] and [axes = [1, 7]] on an
    array of rank 2 the selection has two entries, the second outside the
    rank, and [do_stack] returns the array after two calls of [func]. *)
Lemma do_stack_accepts_longer_axes :
  Examples.returned
    (do_stack 0 Examples.views Examples.identity 1 (Examples.arange [2; 3]%nat) tt
       (Some [1; 7]) None (Examples.arange_store 6))
  = Ok {| vshape := [2; 3]%nat; vdata := [0; 1; 2; 3; 4; 5] |} /\
  calls (snd (do_stack 0 Examples.views Examples.identity 1 (Examples.arange [2; 3]%nat) tt
                (Some [1; 7]) None (Examples.arange_store 6))) = 2%nat.
Proof. vm_compute. split; reflexivity. Qed.



(** With the default [axes] and more target grids than axes, the very first
    assignment [shape[ax] = ...] is out of range. *)
Lemma new_shape_loop_default_raises {A} (grid : list (list A)) (shape : list nat) :
  (length shape < length grid)%nat ->
  rfold (set_axis_length grid)
    (imap (fun i ax => (i, ax)) (range_neg (length grid))) shape
  = Raise IndexError.
Proof.
  intros H. destruct grid as [|g grid']; [simpl in H; lia|].
  set (n := length (g :: grid')) in *.
  assert (range_neg n = (- Z.of_nat n) :: map (fun k => Z.of_nat k - Z.of_nat n)
                                              (seq 1 (length grid'))) as ->.
  { unfold range_neg, n. simpl length. rewrite <- cons_seq. simpl map.
    f_equal. }
  cbn [imap rfold]. unfold set_axis_length at 1. cbn [fst snd].
  rewrite (py_getitem_lookup (g :: grid') 0 g eq_refl). cbn [rbind].
  unfold py_setitem. rewrite py_index_out by lia. reflexivity.
Qed.




(** ** do_stack leaves its input as it was *)

Section Frame.

Context {A : Type} (zero : A) (reshape_copies : ndarray -> list nat -> bool).

(** The cells under consideration: positions [ps] of buffer [b]. *)
Variable b : nat.
Variable ps : list nat.

Lemma keeps_refl (st : state A) : keeps b ps st st.
Proof. split; [lia|reflexivity]. Qed.

Lemma keeps_trans (st1 st2 st3 : state A) :
  keeps b ps st1 st2 -> keeps b ps st2 st3 -> keeps b ps st1 st3.
Proof.
  intros [H1 H2] [H3 H4]. split; [lia|].
  intros q Hq. rewrite H4, H2 by assumption. reflexivity.
Qed.

Lemma safe_ret {X} (x : X) (Q : X -> Prop) : Q x -> safe b ps (ret (A:=A) x) Q.
Proof.
  intros HQ st _. split; [apply keeps_refl|].
  simpl. intros y Hy. inversion Hy; subst. exact HQ.
Qed.

Lemma safe_raise {X} e (Q : X -> Prop) : safe b ps (raise (A:=A) e) Q.
Proof. intros st _. split; [apply keeps_refl|]. simpl. discriminate. Qed.

Lemma safe_lift {X} (r : result X) (Q : X -> Prop) :
  (forall x, r = Ok x -> Q x) -> safe b ps (lift (A:=A) r) Q.
Proof. intros HQ st _. split; [apply keeps_refl|]. simpl. exact HQ. Qed.

Lemma safe_bind {X Y} (c : M A X) (k : X -> M A Y) (Q : X -> Prop) (R : Y -> Prop) :
  safe b ps c Q -> (forall x, Q x -> safe b ps (k x) R) -> safe b ps (bind c k) R.
Proof.
  intros Hc Hk st Hb. unfold bind.
  destruct (Hc st Hb) as [Hkeep HQ].
  destruct (c st) as [[x|e] st1]; simpl in *.
  - destruct (Hk x (HQ x eq_refl) st1) as [Hkeep' HR].
    { destruct Hkeep. lia. }
    split; [eapply keeps_trans; eauto|exact HR].
  - split; [exact Hkeep|discriminate].
Qed.

Lemma safe_weaken {X} (c : M A X) (Q R : X -> Prop) :
  safe b ps c Q -> (forall x, Q x -> R x) -> safe b ps c R.
Proof.
  intros Hc HQR st Hb. destruct (Hc st Hb) as [Hk HQ].
  split; [exact Hk|]. intros x Hx. apply HQR, HQ, Hx.
Qed.

Lemma safe_alloc s (d : list A) : safe b ps (alloc s d) (fun a => buf a <> b).
Proof.
  intros st Hb. unfold alloc, keeps, cell. simpl. split.
  - split.
    + rewrite length_app. simpl. lia.
    + intros q _. now rewrite lookup_app_l by lia.
  - intros x Hx. inversion Hx; subst. simpl. lia.
Qed.

Lemma safe_get_contents a : safe b ps (get_contents zero a) (fun _ => True).
Proof. intros st _. split; [apply keeps_refl|]. intros; exact I. Qed.

Lemma safe_tick : safe b ps (tick (A:=A)) (fun _ => True).
Proof.
  intros st _. split; [|intros; exact I].
  unfold tick, keeps. simpl. split; [lia|reflexivity].
Qed.

(** [np.reshape] gives a view of the same cells or a new buffer. *)
Lemma safe_reshape a dims (Q : ndarray -> Prop) :
  (forall a', (buf a' = buf a /\ idx a' = idx a) \/ buf a' <> b -> Q a') ->
  safe b ps (np_reshape zero reshape_copies a dims) Q.
Proof.
  intros HQ. unfold np_reshape.
  apply (safe_bind _ _ (fun _ => True)); [apply safe_lift; intros; exact I|].
  intros s _. destruct (reshape_copies a s).
  - intros st Hb.
    destruct (safe_alloc s (vdata (contents zero (heap st) a)) st Hb) as [Hk Hx].
    split; [exact Hk|]. intros x Hr. apply HQ. right. now apply Hx.
  - apply safe_ret. apply HQ. left. split; reflexivity.
Qed.

Lemma apart_reshape a dims :
  apart b ps a -> safe b ps (np_reshape zero reshape_copies a dims) (apart b ps).
Proof.
  intros Ha. apply safe_reshape. intros a' [[Hb Hi]|Hn].
  - unfold apart. rewrite Hb, Hi. exact Ha.
  - now left.
Qed.

Lemma cell_poke b' p (x : A) h q :
  b' <> b \/ p <> q -> cell b (poke b' p x h) q = cell b h q.
Proof.
  intros H. unfold cell, poke.
  destruct (decide (b' = b)) as [->|Hne].
  - rewrite list_lookup_alter_eq. destruct (h !! b) as [l|]; simpl; [|reflexivity].
    destruct H as [H|H]; [contradiction|]. now apply list_lookup_insert_ne.
  - now rewrite list_lookup_alter_ne.
Qed.

Lemma length_poke b' p (x : A) h : length (poke b' p x h) = length h.
Proof. unfold poke. apply length_alter. Qed.

Lemma poke_all_keeps b' (qs : list nat) (xs : list A) : forall h,
  b' <> b \/ Forall (fun p => p ∉ ps) qs ->
  length (poke_all b' qs xs h) = length h /\
  forall q, q ∈ ps -> cell b (poke_all b' qs xs h) q = cell b h q.
Proof.
  unfold poke_all. revert xs.
  induction qs as [|p qs IH]; intros xs h H; [simpl; tauto|].
  destruct xs as [|x xs]; [simpl; tauto|]. simpl.
  destruct (IH xs (poke b' p x h)) as [Hlen Hcell].
  { destruct H as [H|H]; [now left|right]. now inversion H. }
  split.
  - now rewrite Hlen, length_poke.
  - intros q Hq. rewrite Hcell by exact Hq. apply cell_poke.
    destruct H as [H|H]; [now left|right].
    inversion H; subst. intros ->. contradiction.
Qed.

Lemma np_getitem_apart a i slot :
  np_getitem a i = Ok slot -> apart b ps a -> apart b ps slot.
Proof.
  unfold np_getitem. destruct (shape a) as [|d s]; [discriminate|].
  destruct (i <? d)%nat; [|discriminate].
  intros H; inversion H; subst; clear H. unfold apart. simpl.
  intros [Hb|Hi]; [now left|right].
  rewrite Forall_forall in *. intros p Hp. apply Hi.
  apply elem_of_take in Hp. destruct Hp as [k [Hp _]].
  rewrite lookup_drop in Hp.
  eapply list_elem_of_lookup_2; eauto.
Qed.

(** An assignment into an array apart from the cells keeps them. *)
Lemma safe_setitem out i v : apart b ps out -> safe b ps (np_setitem zero out i v) (fun _ => True).
Proof.
  intros Hout. unfold np_setitem.
  apply (safe_bind _ _ (apart b ps)).
  { apply safe_lift. intros slot Hs. eapply np_getitem_apart; eauto. }
  intros slot Hslot.
  apply (safe_bind _ _ (fun _ => True)); [apply safe_lift; intros; exact I|].
  intros d _ st Hb. split; [|intros; exact I].
  destruct (poke_all_keeps (buf slot) (idx slot) d (heap st) Hslot) as [Hlen Hcell].
  unfold keeps. simpl. split; [lia|exact Hcell].
Qed.

Lemma safe_for_each {X} (l : list X) (body : X -> M A unit) :
  (forall x, safe b ps (body x) (fun _ => True)) ->
  safe b ps (for_each l body) (fun _ => True).
Proof.
  intros Hbody. induction l as [|x l IH]; simpl.
  - now apply safe_ret.
  - apply (safe_bind _ _ (fun _ => True)); [apply Hbody|]. intros _ _. exact IH.
Qed.

Lemma safe_apply_slice {Args} (func : varray A -> Args -> result (varray A))
    args array output i :
  apart b ps output -> safe b ps (apply_slice zero func args array output i) (fun _ => True).
Proof.
  intros Hout. unfold apply_slice.
  apply (safe_bind _ _ (fun _ => True)); [apply safe_lift; intros; exact I|].
  intros x _.
  apply (safe_bind _ _ (fun _ => True)); [apply safe_get_contents|].
  intros xv _.
  apply (safe_bind _ _ (fun _ => True)); [apply safe_tick|].
  intros _ _.
  apply (safe_bind _ _ (fun _ => True)); [apply safe_lift; intros; exact I|].
  intros r _. now apply safe_setitem.
Qed.

Lemma safe_do_stack {Args} (func : varray A -> Args -> result (varray A))
    ndim array args axes output :
  (forall o, output = Some o -> apart b ps o) ->
  safe b ps (do_stack zero reshape_copies func ndim array args axes output) (fun _ => True).
Proof.
  intros Hout. unfold do_stack.
  apply (safe_bind _ _ (fun _ => True)); [apply safe_lift; intros; exact I|].
  intros array1 _.
  apply (safe_bind _ _ (apart b ps)).
  { destruct output as [o|].
    - apply safe_ret. now apply Hout.
    - eapply safe_weaken; [apply safe_alloc|]. intros a Ha. now left. }
  intros out1 Hout1.
  apply (safe_bind _ _ (fun _ => True)); [apply safe_reshape; intros; exact I|].
  intros array2 _.
  apply (safe_bind _ _ (apart b ps)); [now apply apart_reshape|].
  intros out2 Hout2.
  apply (safe_bind _ _ (fun _ => True)); [apply safe_lift; intros; exact I|].
  intros n _.
  apply (safe_bind _ _ (fun _ => True)).
  { apply safe_for_each. intros i. now apply safe_apply_slice. }
  intros _ _.
  apply (safe_bind _ _ (fun _ => True)); [apply safe_reshape; intros; exact I|].
  intros array3 _.
  apply (safe_bind _ _ (fun _ => True)); [apply safe_reshape; intros; exact I|].
  intros out3 _.
  apply (safe_bind _ _ (fun _ => True)); [apply safe_lift; intros; exact I|].
  intros ao _. now apply safe_ret.
Qed.

End Frame.

Lemma contents_keeps {A : Type} (zero : A) (a : ndarray) (st st' : state A) :
  keeps (buf a) (idx a) st st' ->
  contents zero (heap st') a = contents zero (heap st) a.
Proof.
  intros [_ H]. unfold contents. f_equal.
  apply list_eq. intros i. rewrite !list_lookup_fmap.
  destruct (idx a !! i) as [p|] eqn:E; simpl; [|reflexivity].
  f_equal. unfold peek. fold (cell (buf a) (heap st') p). fold (cell (buf a) (heap st) p).
  rewrite H; [reflexivity|]. eapply list_elem_of_lookup_2; eauto.
Qed.

(** C10.  When the output handed to [do_stack], if any, shares no cell
    with the input array (another buffer, or other positions of the same
    one), the input array holds after the call what it held before, whether
    the call returns or raises.  More generally every cell allocated before
    the call and not part of the output handed in is unchanged: [do_stack]
    writes into that output or into buffers it allocated itself. *)
Theorem do_stack_keeps_input
    {A : Type} (zero : A) (reshape_copies : ndarray -> list nat -> bool)
    {Args : Type} (func : varray A -> Args -> result (varray A))
    (ndim : nat) (array : ndarray) (args : Args) (axes : option (list Z))
    (output : option ndarray) (st : state A) :
  (buf array < length (heap st))%nat ->
  (forall o, output = Some o ->
             buf o <> buf array \/ Forall (fun p => p ∉ idx array) (idx o)) ->
  let st' := snd (do_stack zero reshape_copies func ndim array args axes output st) in
  contents zero (heap st') array = contents zero (heap st) array /\
  (forall b q, (b < length (heap st))%nat ->
               (forall o, output = Some o -> buf o <> b \/ q ∉ idx o) ->
               cell b (heap st') q = cell b (heap st) q).
Proof.
  intros Hb Hout st'. split.
  - apply contents_keeps.
    now apply (safe_do_stack zero reshape_copies (buf array) (idx array)
                 func ndim array args axes output Hout st Hb).
  - intros b q Hlt Ho.
    destruct (safe_do_stack zero reshape_copies b [q] func ndim array args axes output)
      with (st := st) as [[_ Hcell] _].
    + intros o Heq. destruct (Ho o Heq) as [H|H]; [now left|right].
      apply Forall_forall. intros p Hp Hq. apply list_elem_of_singleton in Hq.
      subst. contradiction.
    + exact Hlt.
    + apply Hcell. apply list_elem_of_singleton. reflexivity.
Qed.

Lemma do_stack_keeps_input_witness :
  let array := Examples.arange [2; 3]%nat in
  let st := Examples.arange_zeros_store in
  let st' := snd (do_stack 0 Examples.views Examples.identity 1 array tt (Some [0])
                    (Some Examples.zeros23) st) in
  (buf array < length (heap st))%nat /\
  (forall o, Some Examples.zeros23 = Some o ->
             buf o <> buf array \/ Forall (fun p => p ∉ idx array) (idx o)) /\
  contents 0 (heap st') array = contents 0 (heap st) array /\
  (forall b q, (b < length (heap st))%nat ->
               (forall o, Some Examples.zeros23 = Some o -> buf o <> b \/ q ∉ idx o) ->
               cell b (heap st') q = cell b (heap st) q).
Proof.
  intros array st st'.
  assert (buf array < length (heap st))%nat as Hb by (simpl; lia).
  assert (forall o, Some Examples.zeros23 = Some o ->
             buf o <> buf array \/ Forall (fun p => p ∉ idx array) (idx o)) as Hout.
  { intros o Ho. inversion Ho; subst. left. simpl. lia. }
  split; [exact Hb|]. split; [exact Hout|].
  exact (do_stack_keeps_input 0 Examples.views Examples.identity 1 array tt (Some [0])
           (Some Examples.zeros23) st Hb Hout).
Defined.

(** ** Evaluating do_stack and regrid whatever [np.reshape] copies *)

(** Evaluate, and where the evaluation waits for a decision of [rc], take
    both decisions. *)
Ltac run_with rc :=
  repeat (vm_compute;
          match goal with
          | |- context [rc ?a ?s] => destruct (rc a s)
          end).

(** Replace a call of the interpolation [mc] by an array of the shape its
    contract [Hmc] promises, of at most five elements. *)
Ltac use_contract mc Hmc :=
  match goal with
  | |- context [mc ?v (?c :: ?cs) ?kw] =>
      let rs := fresh "rs" in let rd := fresh "rd" in
      let Hr := fresh "Hr" in let Hs := fresh "Hs" in let Hl := fresh "Hl" in
      destruct (Hmc v c cs kw) as [[rs rd] [Hr [Hs Hl]]]; rewrite Hr; clear Hr;
      simpl in Hs, Hl; subst rs;
      do 6 (destruct rd as [|? rd]; try discriminate Hl); clear Hl
  end.

(** C1, where the code departs from it.  On [np.arange(24).reshape(2, 3, 4)]
    with the identity, [ndim = 2] and [axes = [2, 0]], [do_stack] returns an
    array of shape [(4, 2, 3)], the input with its axes rotated: the second
    loop repeats the two swaps in the order of the first loop instead of
    undoing them in reverse.  This holds whichever reshapes copy. *)
Theorem do_stack_identity_rotates_axes (reshape_copies : ndarray -> list nat -> bool) :
  Examples.returned
    (do_stack 0 reshape_copies Examples.identity 2 (Examples.arange [2; 3; 4]%nat) tt
       (Some [2; 0]) None (Examples.arange_store 24))
  = Ok {| vshape := [4; 2; 3]%nat;
          vdata := [0; 4; 8; 12; 16; 20; 1; 5; 9; 13; 17; 21;
                    2; 6; 10; 14; 18; 22; 3; 7; 11; 15; 19; 23] |}.
Proof. run_with reshape_copies; vm_compute; reflexivity. Qed.

(** C2, where the code departs from it.  [regrid] of an array of shape
    [(3, 1, 5)] along [axes = [0, 1]] onto target grids of lengths 1 and 5
    returns, for every interpolation that gives an array of the shape of its
    coordinate arrays, an array of shape [(5, 5, 1)] and not [(1, 5, 5)]. *)
Theorem regrid_leading_axes_wrong_shape
    (reshape_copies : ndarray -> list nat -> bool)
    (map_coordinates : varray Z -> list (varray Z) -> gmap string (@kwval Z)
                       -> result (varray Z)) :
  (forall v c cs kw, exists r,
      map_coordinates v (c :: cs) kw = Ok r /\
      vshape r = vshape c /\ length (vdata r) = length (vdata c)) ->
  Examples.shape_of
    (regrid 0 reshape_copies Z.sub Z.mul Z.div id (-1) map_coordinates
       (Examples.arange [3; 1; 5]%nat) [(0, 4); (0, 4)] [[0]; [0; 1; 2; 3; 4]]
       (Some [0; 1]) ∅ (Examples.arange_store 15))
  = Ok [5; 5; 1]%nat.
Proof.
  intros Hmc.
  run_with reshape_copies.
  all: use_contract map_coordinates Hmc.
  all: run_with reshape_copies.
  all: vm_compute; reflexivity.
Qed.

Lemma regrid_leading_axes_wrong_shape_witness :
  (forall v c cs kw, exists r,
      Examples.fill v (c :: cs) kw = Ok r /\
      vshape r = vshape c /\ length (vdata r) = length (vdata c)) /\
  Examples.shape_of
    (Examples.regrid_fill Examples.views
       (Examples.arange [3; 1; 5]%nat) [(0, 4); (0, 4)] [[0]; [0; 1; 2; 3; 4]]
       (Some [0; 1]) ∅ (Examples.arange_store 15))
  = Ok [5; 5; 1]%nat.
Proof.
  assert (forall v c cs kw, exists r,
             Examples.fill v (c :: cs) kw = Ok r /\
             vshape r = vshape c /\ length (vdata r) = length (vdata c)) as H.
  { intros v c cs kw. eexists. split; [reflexivity|]. simpl.
    split; [reflexivity|]. apply length_map. }
  split; [exact H|].
  exact (regrid_leading_axes_wrong_shape Examples.views Examples.fill H).
Defined.

(** ** Computations that agree step by step *)

Section Extensionality.

Context {A : Type}.

Lemma bind_ext {X Y} (c c' : M A X) (k k' : X -> M A Y) :
  (forall st, c st = c' st) -> (forall x st, k x st = k' x st) ->
  forall st, bind c k st = bind c' k' st.
Proof.
  intros Hc Hk st. unfold bind. rewrite Hc.
  destruct (c' st) as [[x|e] st1]; [apply Hk|reflexivity].
Qed.

End Extensionality.

(** ** do_stack with the identity over the trailing axes *)

(** *** Positions and multi-indices *)

Lemma unravel_bound s : forall f,
  (f < size s)%nat -> Forall2 (fun d i => (i < d)%nat) s (unravel s f).
Proof.
  induction s as [|d s IH]; intros f Hf; simpl; [constructor|].
  unfold size in Hf. simpl in Hf. fold (size s) in Hf.
  assert (size s <> 0)%nat as Hm by (intros E; rewrite E in Hf; lia).
  constructor.
  - apply Nat.Div0.div_lt_upper_bound. lia.
  - apply IH. apply Nat.mod_upper_bound. exact Hm.
Qed.

Lemma ravel_unravel s : forall f, (f < size s)%nat -> ravel s (unravel s f) = f.
Proof.
  induction s as [|d s IH]; intros f Hf; simpl.
  - unfold size in Hf. simpl in Hf. lia.
  - unfold size in Hf. simpl in Hf. fold (size s) in Hf.
    assert (size s <> 0)%nat as Hm by (intros E; rewrite E in Hf; lia).
    rewrite IH by (apply Nat.mod_upper_bound; exact Hm).
    pose proof (Nat.div_mod_eq f (size s)). lia.
Qed.

Lemma swap_at_same {X} (j : nat) (l : list X) : swap_at j j l = l.
Proof.
  unfold swap_at. destruct (l !! j) as [x|] eqn:E; [|reflexivity].
  rewrite (list_insert_id l j x E). apply (list_insert_id l j x E).
Qed.

Lemma swapaxes_perm_same s j : swapaxes_perm s j j = seq 0 (size s).
Proof.
  unfold swapaxes_perm. rewrite swap_at_same.
  apply list_eq. intros i. rewrite list_lookup_fmap.
  destruct (seq 0 (size s) !! i) as [f|] eqn:E; simpl; [|reflexivity].
  apply lookup_seq in E. destruct E as [-> Hi]. simpl.
  rewrite swap_at_same, ravel_unravel by lia. reflexivity.
Qed.

Lemma gather_seq {X} (d : X) (l : list X) : gather d (seq 0 (length l)) l = l.
Proof.
  unfold gather. apply list_eq. intros i. rewrite list_lookup_fmap.
  destruct (l !! i) as [x|] eqn:E.
  - rewrite lookup_seq_lt by (eapply lookup_lt_Some; eauto). simpl. now rewrite E.
  - rewrite lookup_seq_ge by (apply lookup_ge_None; auto). reflexivity.
Qed.

(** *** The shapes [np.reshape] is asked for *)
Lemma filter_nonneg_of_nat (s : list nat) :
  filter (fun d => 0 <= d) (map Z.of_nat s) = map Z.of_nat s.
Proof.
  induction s as [|d s IH]; [reflexivity|]. simpl.
  rewrite filter_cons_True by (cbv beta; lia). now rewrite IH.
Qed.

Lemma filter_unknown_of_nat (s : list nat) :
  filter (fun d => d = -1) (map Z.of_nat s) = [].
Proof.
  induction s as [|d s IH]; [reflexivity|]. simpl.
  rewrite filter_cons_False by (cbv beta; lia). exact IH.
Qed.

Lemma existsb_negative_of_nat (s : list nat) :
  existsb (fun d => d <? -1) (map Z.of_nat s) = false.
Proof.
  induction s as [|d s IH]; [reflexivity|]. simpl. rewrite IH.
  destruct (Z.ltb_spec (Z.of_nat d) (-1)); [exfalso; lia|reflexivity].
Qed.

Lemma to_nat_of_nat (s : list nat) : map Z.to_nat (map Z.of_nat s) = s.
Proof.
  induction s as [|d s IH]; [reflexivity|]. simpl. now rewrite Nat2Z.id, IH.
Qed.

Lemma resolve_shape_known n (s : list nat) :
  size s = n -> resolve_shape n (map Z.of_nat s) = Ok s.
Proof.
  intros H. unfold resolve_shape.
  rewrite existsb_negative_of_nat, filter_unknown_of_nat, filter_nonneg_of_nat, to_nat_of_nat.
  simpl. rewrite H, Nat.eqb_refl. reflexivity.
Qed.

Lemma resolve_shape_stack n (tr : list nat) :
  size tr <> 0%nat -> (n mod size tr = 0)%nat ->
  resolve_shape n (-1 :: map Z.of_nat tr) = Ok ((n / size tr)%nat :: tr).
Proof.
  intros Hm Hd. unfold resolve_shape.
  cbn [existsb]. rewrite existsb_negative_of_nat.
  change (-1 <? -1) with false. cbn [orb].
  rewrite (filter_cons_False (fun d => 0 <= d) (-1)) by (cbv beta; lia).
  rewrite filter_nonneg_of_nat, to_nat_of_nat.
  rewrite (filter_cons_True (fun d => d = -1) (-1)) by reflexivity. rewrite filter_unknown_of_nat.
  cbn [length].
  destruct (size tr =? 0)%nat eqn:E1; [apply Nat.eqb_eq in E1; contradiction|].
  rewrite Hd. cbn [Nat.eqb negb orb map].
  change (-1 =? -1) with true. cbn [map]. f_equal. f_equal.
  generalize (n / size tr)%nat as q. intros q. clear.
  induction tr as [|d tr IH]; [reflexivity|]. simpl.
  destruct (Z.eqb_spec (Z.of_nat d) (-1)); [exfalso; lia|].
  rewrite Nat2Z.id. now f_equal.
Qed.

(** *** Arrays and their values in the store *)

Section RoundTrip.

Context {A : Type} (zero : A) (reshape_copies : ndarray -> list nat -> bool).

Lemma rep_contents h a (v : varray A) : rep h a v -> contents zero h a = v.
Proof.
  intros [Hs [_ Hf]]. destruct v as [vs vd]. simpl in *. unfold contents.
  rewrite Hs. f_equal.
  apply list_eq. intros i. rewrite list_lookup_fmap.
  destruct (idx a !! i) as [p|] eqn:E; simpl.
  - destruct (Forall2_lookup_l _ _ _ _ _ Hf E) as [x [Hx Hc]].
    rewrite Hx. f_equal. unfold peek. fold (cell (buf a) h p). now rewrite Hc.
  - symmetry. apply lookup_ge_None. rewrite <- (Forall2_length _ _ _ Hf).
    now apply lookup_ge_None.
Qed.

Lemma cell_app b (h t : list (list A)) p x :
  cell b h p = Some x -> cell b (h ++ t) p = Some x.
Proof.
  unfold cell. destruct (h !! b) as [l|] eqn:E; simpl; [|discriminate].
  now rewrite (lookup_app_l_Some _ _ _ _ E).
Qed.

Lemma rep_app h t a (v : varray A) : rep h a v -> rep (h ++ t) a v.
Proof.
  intros [Hs [Hl Hf]]. split; [exact Hs|]. split; [exact Hl|].
  eapply Forall2_impl; [exact Hf|]. simpl. intros p x. apply cell_app.
Qed.

Lemma rep_fresh (h : list (list A)) s d :
  length d = size s ->
  rep (h ++ [d]) {| buf := length h; shape := s; idx := seq 0 (length d) |}
      {| vshape := s; vdata := d |}.
Proof.
  intros Hl. split; [reflexivity|]. split; [exact Hl|]. simpl.
  apply Forall2_same_length_lookup_2; [now rewrite length_seq|].
  intros i p x Hp Hx. apply lookup_seq in Hp. destruct Hp as [-> _]. simpl.
  unfold cell. rewrite list_lookup_middle by reflexivity. simpl. exact Hx.
Qed.

Lemma np_swapaxes_same a ax :
  length (idx a) = size (shape a) ->
  - Z.of_nat (length (shape a)) <= ax < Z.of_nat (length (shape a)) ->
  np_swapaxes a ax ax = Ok a.
Proof.
  intros Hwf Hax. unfold np_swapaxes, normalize_axis.
  destruct (- Z.of_nat (length (shape a)) <=? ax) eqn:E1; [|lia].
  destruct (ax <? Z.of_nat (length (shape a))) eqn:E2; [|lia]. simpl.
  rewrite swap_at_same, swapaxes_perm_same, <- Hwf, gather_seq.
  now destruct a.
Qed.

Lemma rep_wf h a (v : varray A) : rep h a v -> length (idx a) = size (shape a).
Proof. intros [Hs [Hl Hf]]. rewrite (Forall2_length _ _ _ Hf), Hl, Hs. reflexivity. Qed.

(** The swaps of the default selection leave the array as it is. *)
Lemma swap_loop_default ndim a :
  length (idx a) = size (shape a) -> (ndim <= length (shape a))%nat ->
  forall ks, Forall (fun i => (i < ndim)%nat) ks ->
  rfold (swap_ith (range_neg ndim) (range_neg ndim)) ks a = Ok a.
Proof.
  intros Hwf Hr ks. induction ks as [|i ks IH]; intros Hks; [reflexivity|].
  inversion Hks; subst. simpl. unfold swap_ith.
  rewrite py_getitem_range_neg by assumption. simpl.
  rewrite np_swapaxes_same by (try assumption; lia). simpl. now apply IH.
Qed.

Lemma reswap_loop_default ndim a o :
  length (idx a) = size (shape a) -> (ndim <= length (shape a))%nat ->
  length (idx o) = size (shape o) -> (ndim <= length (shape o))%nat ->
  forall ks, Forall (fun i => (i < ndim)%nat) ks ->
  rfold (reswap_ith (range_neg ndim) (range_neg ndim)) ks (a, o) = Ok (a, o).
Proof.
  intros Ha Hra Ho Hro ks. induction ks as [|i ks IH]; intros Hks; [reflexivity|].
  inversion Hks; subst. simpl. unfold reswap_ith, swap_ith. simpl.
  rewrite py_getitem_range_neg by assumption. simpl.
  rewrite !np_swapaxes_same by (try assumption; lia). simpl. now apply IH.
Qed.


Lemma np_reshape_rep a dims s (v : varray A) st :
  resolve_shape (size (shape a)) dims = Ok s -> size s = size (shape a) ->
  rep (heap st) a v ->
  exists a' st',
    np_reshape zero reshape_copies a dims st = (Ok a', st') /\
    calls st' = calls st /\
    rep (heap st') a' {| vshape := s; vdata := vdata v |} /\
    ((a' = {| buf := buf a; shape := s; idx := idx a |} /\ st' = st) \/
     (a' = {| buf := length (heap st); shape := s; idx := seq 0 (length (vdata v)) |} /\
      heap st' = heap st ++ [vdata v])).
Proof.
  intros Hres Hsize Hrep. unfold np_reshape, bind, lift. rewrite Hres.
  pose proof Hrep as [Hs [Hl Hf]].
  assert (length (vdata v) = size s) as Hl' by (rewrite Hl, <- Hs; congruence).
  destruct (reshape_copies a s).
  - rewrite (rep_contents _ _ _ Hrep). unfold alloc.
    eexists. eexists. split; [reflexivity|]. simpl.
    split; [reflexivity|]. split; [now apply rep_fresh|]. right. split; reflexivity.
  - unfold ret. eexists. eexists. split; [reflexivity|].
    split; [reflexivity|]. split; [|left; split; reflexivity].
    split; [reflexivity|]. split; [exact Hl'|exact Hf].
Qed.

Lemma zip_with_unravel_same vs f :
  (f < size vs)%nat ->
  zip_with (fun d i => if (d =? 1)%nat then 0%nat else i) vs (unravel vs f) = unravel vs f.
Proof.
  intros Hf. generalize (unravel_bound vs f Hf). generalize (unravel vs f) as ix.
  clear Hf. intros ix Hb. induction Hb as [|d i s ix' Hi Hb IH]; [reflexivity|]. simpl.
  rewrite IH. destruct (Nat.eqb_spec d 1); [|reflexivity]. f_equal. lia.
Qed.

Lemma align_shape_same vs : align_shape vs (length vs) = Some vs.
Proof.
  unfold align_shape. rewrite Nat.ltb_irrefl, Nat.sub_diag. reflexivity.
Qed.

Lemma broadcast_to_same vs (vd : list A) :
  length vd = size vs ->
  broadcast_to zero {| vshape := vs; vdata := vd |} vs = Ok vd.
Proof.
  intros Hl. unfold broadcast_to. simpl. rewrite align_shape_same.
  assert (forallb (fun p => (p.1 =? p.2)%nat || (p.1 =? 1)%nat) (zip vs vs) = true) as ->.
  { clear. induction vs as [|d vs IH]; [reflexivity|]. simpl.
    now rewrite Nat.eqb_refl, IH. }
  f_equal. apply list_eq. intros i. rewrite list_lookup_fmap.
  destruct (vd !! i) as [x|] eqn:E.
  - pose proof (lookup_lt_Some _ _ _ E) as Hi.
    rewrite lookup_seq_lt by lia. simpl.
    rewrite zip_with_unravel_same, ravel_unravel by lia. now rewrite E.
  - rewrite lookup_seq_ge; [reflexivity|]. apply lookup_ge_None in E. lia.
Qed.

(** Writing [xs] at the positions [start, start+1, ...] of buffer [bo]. *)
Lemma poke_all_seq bo (xs : list A) : forall start (h : list (list A)) lo,
  h !! bo = Some lo -> (start + length xs <= length lo)%nat ->
  poke_all bo (seq start (length xs)) xs h
  = <[bo := take start lo ++ xs ++ drop (start + length xs) lo]> h.
Proof.
  unfold poke_all.
  induction xs as [|x xs IH]; intros start h lo Hlo Hle; simpl.
  - rewrite Nat.add_0_r, take_drop. symmetry. now apply list_insert_id.
  - simpl in Hle. unfold poke at 2.
    assert (alter (fun l => <[start := x]> l) bo h = <[bo := <[start := x]> lo]> h) as ->.
    { apply list_eq. intros i. destruct (decide (i = bo)) as [->|Hne].
      - rewrite list_lookup_alter_eq, Hlo. simpl.
        rewrite list_lookup_insert_eq; [reflexivity|]. eapply lookup_lt_Some; eauto.
      - rewrite list_lookup_alter_ne, list_lookup_insert_ne by auto. reflexivity. }
    rewrite (IH (S start) _ (<[start := x]> lo)).
    + rewrite list_insert_insert_eq. f_equal.
      assert (start < length lo)%nat as Hs by lia.
      replace (S start + length xs)%nat with (start + S (length xs))%nat by lia.
      rewrite drop_insert_lt by lia.
      rewrite (take_S_r _ _ x) by (now apply list_lookup_insert_eq).
      rewrite take_insert_ge by lia. now rewrite <- app_assoc.
    + apply list_lookup_insert_eq. eapply lookup_lt_Some; eauto.
    + rewrite length_insert. lia.
Qed.


Lemma size_cons d s : size (d :: s) = (d * size s)%nat.
Proof. reflexivity. Qed.

Lemma np_getitem_slice a n tr k :
  shape a = n :: tr -> (k < n)%nat ->
  np_getitem a k
  = Ok {| buf := buf a; shape := tr;
          idx := take (size tr) (drop (k * size tr) (idx a)) |}.
Proof.
  intros Hs Hk. unfold np_getitem. rewrite Hs.
  destruct (Nat.ltb_spec k n); [reflexivity|lia].
Qed.

Lemma rep_slice h a n tr (d : list A) k :
  rep h a {| vshape := n :: tr; vdata := d |} -> (k < n)%nat ->
  rep h {| buf := buf a; shape := tr;
           idx := take (size tr) (drop (k * size tr) (idx a)) |}
        {| vshape := tr; vdata := take (size tr) (drop (k * size tr) d) |}.
Proof.
  intros [Hs [Hl Hf]] Hk. cbn [vshape vdata shape idx buf] in *. rewrite size_cons in Hl.
  split; [reflexivity|]. split; cbn [vshape vdata shape idx buf].
  - rewrite length_take, length_drop. nia.
  - now apply Forall2_take, Forall2_drop.
Qed.

Lemma cell_insert_ne b bo (h : list (list A)) l p :
  bo <> b -> cell b (<[bo := l]> h) p = cell b h p.
Proof. intros H. unfold cell. now rewrite list_lookup_insert_ne. Qed.

Lemma rep_insert_ne h a (v : varray A) bo l :
  bo <> buf a -> rep h a v -> rep (<[bo := l]> h) a v.
Proof.
  intros Hne [Hs [Hl Hf]]. split; [exact Hs|]. split; [exact Hl|].
  eapply Forall2_impl; [exact Hf|]. simpl. intros p x Hc.
  now rewrite cell_insert_ne.
Qed.

Section Loop.

Context {Args : Type} (func : varray A -> Args -> result (varray A)) (args : Args).
Hypothesis func_identity : forall x, func x args = Ok x.

Variable array out : ndarray.
Variable n : nat.
Variable tr : list nat.
Variable d lo0 : list A.

Hypothesis array_shape : shape array = n :: tr.
Hypothesis out_shape : shape out = n :: tr.
Hypothesis out_idx : idx out = seq 0 (n * size tr).
Hypothesis out_apart : buf out <> buf array.
Hypothesis lo0_length : length lo0 = (n * size tr)%nat.

(** Slice [k] of the input is copied to positions [k*m .. k*m+m-1] of the
    buffer of the output. *)
Lemma apply_slice_identity k st :
  (k < n)%nat ->
  rep (heap st) array {| vshape := n :: tr; vdata := d |} ->
  heap st !! buf out = Some (take (k * size tr) d ++ drop (k * size tr) lo0) ->
  exists st',
    apply_slice zero func args array out k st = (Ok tt, st') /\
    rep (heap st') array {| vshape := n :: tr; vdata := d |} /\
    heap st' !! buf out = Some (take (S k * size tr) d ++ drop (S k * size tr) lo0) /\
    calls st' = S (calls st).
Proof.
  intros Hk Hrep Hlo.
  pose proof Hrep as [_ [Hld _]]. cbn [vshape vdata] in Hld. rewrite size_cons in Hld.
  unfold apply_slice, bind, lift, get_contents, tick.
  rewrite (np_getitem_slice array n tr k array_shape Hk).
  rewrite (rep_contents _ _ _ (rep_slice _ _ _ _ _ _ Hrep Hk)).
  cbn [heap calls]. rewrite func_identity.
  unfold np_setitem, bind, lift.
  rewrite (np_getitem_slice out n tr k out_shape Hk). cbn [shape idx buf].
  rewrite out_idx.
  set (m := size tr) in *.
  set (xs := take m (drop (k * m) d)).
  assert (length xs = m) as Hxs by (unfold xs; rewrite length_take, length_drop; nia).
  unfold m. rewrite broadcast_to_same by exact Hxs. cbn [heap calls]. fold m.
  rewrite drop_seq, take_seq.
  replace (m `min` (n * m - k * m))%nat with (length xs) by nia.
  cbn [Nat.add].
  set (lo := take (k * m) d ++ drop (k * m) lo0) in *.
  assert (length (take (k * m) d) = (k * m)%nat) as Htk by (rewrite length_take; nia).
  assert (length lo = (n * m)%nat) as Hlol.
  { unfold lo. rewrite length_app, Htk, length_drop. nia. }
  rewrite (poke_all_seq (buf out) xs (k * m) (heap st) lo Hlo) by nia.
  eexists. split; [reflexivity|]. cbn [heap calls].
  split; [now apply rep_insert_ne|]. split; [|reflexivity].
  rewrite list_lookup_insert_eq by (eapply lookup_lt_Some; eauto). f_equal.
  unfold lo. rewrite take_app_length' by (symmetry; exact Htk).
  rewrite Hxs. rewrite drop_app_ge by lia. rewrite Htk, drop_drop.
  replace (k * m + (k * m + m - k * m))%nat with (S k * m)%nat by lia.
  rewrite app_assoc. f_equal. unfold xs. rewrite take_take_drop. f_equal. lia.
Qed.

Lemma stack_loop_identity j : forall k st,
  (k + j = n)%nat ->
  rep (heap st) array {| vshape := n :: tr; vdata := d |} ->
  heap st !! buf out = Some (take (k * size tr) d ++ drop (k * size tr) lo0) ->
  exists st',
    for_each (seq k j) (apply_slice zero func args array out) st = (Ok tt, st') /\
    rep (heap st') array {| vshape := n :: tr; vdata := d |} /\
    heap st' !! buf out = Some d /\
    calls st' = (calls st + j)%nat.
Proof.
  induction j as [|j IH]; intros k st Hkj Hrep Hlo.
  - exists st. split; [reflexivity|]. split; [exact Hrep|]. split; [|lia].
    rewrite Hlo. f_equal.
    pose proof Hrep as [_ [Hld _]]. cbn [vshape vdata] in Hld. rewrite size_cons in Hld.
    rewrite take_ge, drop_ge by lia. apply app_nil_r.
  - destruct (apply_slice_identity k st ltac:(lia) Hrep Hlo) as [st1 [H1 [Hrep1 [Hlo1 Hc1]]]].
    destruct (IH (S k) st1 ltac:(lia) Hrep1 Hlo1) as [st2 [H2 [Hrep2 [Hlo2 Hc2]]]].
    exists st2. split.
    + cbn [seq for_each]. unfold bind. rewrite H1. exact H2.
    + split; [exact Hrep2|]. split; [exact Hlo2|]. lia.
Qed.

End Loop.


Lemma bind_ok {X Y} (c : M A X) (k : X -> M A Y) st x st' :
  c st = (Ok x, st') -> bind c k st = k x st'.
Proof. intros H. unfold bind. now rewrite H. Qed.

Lemma size_app s1 s2 : size (s1 ++ s2) = (size s1 * size s2)%nat.
Proof.
  induction s1 as [|d s1 IH]; [unfold size; simpl; lia|].
  change ((d :: s1) ++ s2) with (d :: (s1 ++ s2)).
  rewrite !size_cons, IH. lia.
Qed.

Lemma rep_dense (h : list (list A)) a s d :
  shape a = s -> idx a = seq 0 (length d) -> h !! buf a = Some d ->
  length d = size s -> rep h a {| vshape := s; vdata := d |}.
Proof.
  intros Hs Hi Hb Hl. split; [exact Hs|]. split; [exact Hl|]. cbn [vdata].
  rewrite Hi. apply Forall2_same_length_lookup_2; [now rewrite length_seq|].
  intros i p x Hp Hx. apply lookup_seq in Hp. destruct Hp as [-> _]. simpl.
  unfold cell. rewrite Hb. exact Hx.
Qed.

(** What [np.reshape] of an array that occupies a whole buffer gives: again
    an array that occupies a whole buffer, the same or a new one. *)
Lemma np_reshape_dense a dims s d st :
  resolve_shape (size (shape a)) dims = Ok s -> size s = size (shape a) ->
  idx a = seq 0 (length d) -> heap st !! buf a = Some d -> length d = size (shape a) ->
  exists a' st',
    np_reshape zero reshape_copies a dims st = (Ok a', st') /\
    calls st' = calls st /\
    shape a' = s /\ idx a' = seq 0 (length d) /\ heap st' !! buf a' = Some d /\
    (exists t, heap st' = heap st ++ t) /\
    (buf a' = buf a \/ (length (heap st) <= buf a')%nat).
Proof.
  intros Hres Hsize Hi Hb Hl.
  assert (rep (heap st) a {| vshape := shape a; vdata := d |}) as Hrep
    by (now apply rep_dense).
  destruct (np_reshape_rep a dims s _ st Hres Hsize Hrep)
    as [a' [st' [Hrun [Hc [_ [[-> ->]|[-> Hh]]]]]]];
    eexists; eexists; (split; [exact Hrun|]); (split; [exact Hc|]);
    cbn [shape idx buf vdata].
  - repeat split; auto. exists []. now rewrite app_nil_r.
  - rewrite Hh. repeat split; auto.
    + now apply list_lookup_middle.
    + now exists [d].
Qed.

Lemma slice_from_neg_stacked ndim (n : nat) (tr : list nat) :
  (1 <= ndim)%nat -> length tr = ndim -> slice_from_neg ndim (n :: tr) = tr.
Proof.
  intros H1 Hl. unfold slice_from_neg. destruct ndim as [|k]; [lia|].
  cbn [length]. rewrite Hl. replace (S (S k) - S k)%nat with 1%nat by lia. reflexivity.
Qed.

(** X1.  With the identity, [axes=None] and [output=None], on an array of
    rank at least [ndim >= 1] whose operating axes are not empty, [do_stack]
    returns an array equal to its input, after one call per stacked slice;
    whichever reshapes copy. *)
Theorem do_stack_identity_trailing_axes
    {Args : Type} (func : varray A -> Args -> result (varray A)) (args : Args)
    (ndim : nat) (a : ndarray) (v : varray A) (st : state A) :
  (forall x, func x args = Ok x) ->
  rep (heap st) a v -> (buf a < length (heap st))%nat ->
  (1 <= ndim <= length (shape a))%nat ->
  size (slice_from_neg ndim (shape a)) <> 0%nat ->
  exists out st',
    do_stack zero reshape_copies func ndim a args None None st = (Ok out, st') /\
    contents zero (heap st') out = v /\
    calls st' = (calls st + size (slice_until_neg ndim (shape a)))%nat.
Proof.
  intros Hid Hrep Halloc Hnd Hm.
  destruct v as [s d]. pose proof Hrep as [Hs [Hld _]]. cbn [vshape vdata] in Hs, Hld.
  (* the shape as stack axes followed by operating axes *)
  set (lead := slice_until_neg ndim (shape a)) in *.
  set (tr := slice_from_neg ndim (shape a)) in *.
  assert (lead = take (length s - ndim) s /\ tr = drop (length s - ndim) s) as [Hlead Htr].
  { unfold lead, tr, slice_until_neg, slice_from_neg. rewrite Hs.
    destruct ndim; [lia|]. split; reflexivity. }
  assert (s = lead ++ tr) as Hsplit by (rewrite Hlead, Htr; now rewrite take_drop).
  assert (length tr = ndim) as Htrl by (rewrite Htr, length_drop, <- Hs; lia).
  set (n := size lead) in *. set (m := size tr) in *.
  assert (size s = (n * m)%nat) as Hsize by (rewrite Hsplit; apply size_app).
  unfold do_stack.
  (* Swap axes to the end *)
  rewrite (bind_ok _ _ st a st).
  2: { unfold lift. f_equal. f_equal. apply swap_loop_default.
       - eapply rep_wf; eauto.
       - lia.
       - apply Forall_seq. intros; lia. }
  fold lead. fold tr.
  (* output = np.zeros(array.shape) *)
  set (zs := replicate (size (shape a)) zero).
  set (out0 := {| buf := length (heap st); shape := shape a; idx := seq 0 (length zs) |}).
  set (st1 := {| heap := heap st ++ [zs]; calls := calls st |}).
  rewrite (bind_ok _ _ st out0 st1) by reflexivity.
  assert (length zs = size (shape a)) as Hzs by apply length_replicate.
  (* Place all stack into one dimension *)
  assert (resolve_shape (size (shape a)) (-1 :: map Z.of_nat tr) = Ok (n :: tr)) as Hres.
  { rewrite Hs, Hsize. rewrite resolve_shape_stack.
    - fold m. now rewrite Nat.div_mul.
    - exact Hm.
    - fold m. now apply Nat.Div0.mod_mul. }
  assert (size (n :: tr) = size (shape a)) as Hsz2 by (rewrite size_cons, Hs, Hsize; reflexivity).
  destruct (np_reshape_rep a (-1 :: map Z.of_nat tr) (n :: tr) {| vshape := s; vdata := d |}
              st1 Hres Hsz2 (rep_app _ [zs] _ _ Hrep))
    as [a2 [st2 [Hrun2 [Hc2 [Hrep2 Hcase2]]]]]. cbn [vdata] in Hrep2.
  rewrite (bind_ok _ _ st1 a2 st2 Hrun2).
  assert (shape a2 = n :: tr) as Hs2 by apply Hrep2.
  assert ((exists t, heap st2 = heap st1 ++ t) /\
          ((buf a2 = buf a /\ length (heap st2) = S (length (heap st))) \/
           (buf a2 = S (length (heap st)) /\ length (heap st2) = S (S (length (heap st))))))
    as [[t2 Hext2] Hbuf2].
  { destruct Hcase2 as [[Ha2 Hst2]|[Ha2 Hh]]; rewrite Ha2; cbn [buf].
    - rewrite Hst2. split; [exists []; now rewrite app_nil_r|]. left.
      split; [reflexivity|]. unfold st1. cbn [heap]. rewrite length_app. simpl. lia.
    - split; [now exists [d]|]. right. rewrite Hh. unfold st1. cbn [heap].
      rewrite !length_app. simpl. lia. }
  change (shape out0) with (shape a).
  fold tr.
  destruct (np_reshape_dense out0 (-1 :: map Z.of_nat tr) (n :: tr) zs st2 Hres Hsz2)
    as [o2 [st3 [Hrun3 [Hc3 [Hso2 [Hio2 [Hbo2 [[t3 Hext3] Hbuf3]]]]]]]]; try reflexivity.
  { rewrite Hext2. apply lookup_app_l_Some. unfold st1, out0. cbn [heap buf].
    now apply list_lookup_middle. }
  { exact Hzs. }
  rewrite (bind_ok _ _ st2 o2 st3 Hrun3).
  rewrite (bind_ok _ _ st3 n st3) by (unfold lift, shape0; now rewrite Hs2).
  (* the loop *)
  assert (rep (heap st3) a2 {| vshape := n :: tr; vdata := d |}) as Hrep3
    by (rewrite Hext3; now apply rep_app).
  assert (buf o2 <> buf a2) as Hapart.
  { assert (length (heap st2) <= length (heap st3))%nat
      by (rewrite Hext3, length_app; lia).
    change (buf out0) with (length (heap st)) in Hbuf3. lia. }
  destruct (stack_loop_identity func args Hid a2 o2 n tr d zs Hs2 Hso2
              ltac:(rewrite Hio2, Hzs, Hs, Hsize; reflexivity) Hapart
              ltac:(rewrite Hzs, Hs, Hsize; reflexivity)
              n 0%nat st3 ltac:(lia) Hrep3)
    as [st4 [Hrun4 [Hrep4 [Hbo4 Hc4]]]].
  { rewrite take_0, drop_0. exact Hbo2. }
  rewrite (bind_ok _ _ st3 tt st4 Hrun4).
  (* back to the stack shape *)
  rewrite Hs2, Hso2, (slice_from_neg_stacked ndim n tr) by (try assumption; lia).
  assert (resolve_shape (size (n :: tr)) (map Z.of_nat (lead ++ tr)) = Ok s) as Hres5.
  { rewrite <- Hsplit. apply resolve_shape_known. now rewrite size_cons. }
  assert (size s = size (n :: tr)) as Hsz5 by now rewrite size_cons.
  rewrite <- Hs2 in Hres5 at 1. rewrite <- Hs2 in Hsz5.
  destruct (np_reshape_rep a2 _ s _ st4 Hres5 Hsz5 Hrep4)
    as [a5 [st5 [Hrun5 [Hc5 [Hrep5 Hcase5]]]]]. cbn [vdata] in Hrep5.
  rewrite (bind_ok _ _ st4 a5 st5 Hrun5).
  assert (exists t, heap st5 = heap st4 ++ t) as [t5 Hext5].
  { destruct Hcase5 as [[_ Hst]|[_ Hh]]; [rewrite Hst; exists []; now rewrite app_nil_r|
      now exists [d]]. }
  assert (length d = size (shape o2)) as Hld2 by (rewrite Hso2, size_cons; lia).
  assert (rep (heap st5) o2 {| vshape := shape o2; vdata := d |}) as Hrepo5.
  { rewrite Hext5. apply rep_app. apply rep_dense; try reflexivity; try assumption.
    rewrite Hio2. f_equal. rewrite Hzs, Hs. symmetry. exact Hld. }
  rewrite Hs2, <- Hso2 in Hres5, Hsz5.
  destruct (np_reshape_rep o2 _ s _ st5 Hres5 Hsz5 Hrepo5)
    as [o6 [st6 [Hrun6 [Hc6 [Hrep6 Hcase6]]]]]. cbn [vdata] in Hrep6.
  rewrite (bind_ok _ _ st5 o6 st6 Hrun6).
  assert (exists t, heap st6 = heap st5 ++ t) as [t6 Hext6].
  { destruct Hcase6 as [[_ Hst]|[_ Hh]]; [rewrite Hst; exists []; now rewrite app_nil_r|
      now exists [d]]. }
  (* Reswap axes *)
  assert (shape a5 = s) as Hs5 by apply Hrep5.
  assert (shape o6 = s) as Hs6 by apply Hrep6.
  rewrite (bind_ok _ _ st6 (a5, o6) st6).
  2: { unfold lift. f_equal. f_equal. apply reswap_loop_default.
       - eapply rep_wf; eauto.
       - rewrite Hs5, <- Hs. lia.
       - eapply rep_wf; eauto.
       - rewrite Hs6, <- Hs. lia.
       - apply Forall_seq. intros; lia. }
  exists o6, st6. split; [reflexivity|]. split.
  - now apply rep_contents.
  - rewrite Hc6, Hc5, Hc4, Hc3, Hc2. reflexivity.
Qed.

End RoundTrip.

Lemma do_stack_identity_trailing_axes_witness :
  let a := Examples.arange [2; 3]%nat in
  let v := {| vshape := [2; 3]%nat; vdata := [0; 1; 2; 3; 4; 5] |} in
  let st := Examples.arange_store 6 in
  (forall x, Examples.identity x tt = Ok x) /\
  rep (heap st) a v /\ (buf a < length (heap st))%nat /\
  (1 <= 1 <= length (shape a))%nat /\
  size (slice_from_neg 1 (shape a)) <> 0%nat /\
  exists out st',
    do_stack 0 Examples.views Examples.identity 1 a tt None None st = (Ok out, st') /\
    contents 0 (heap st') out = v /\
    calls st' = (calls st + size (slice_until_neg 1 (shape a)))%nat.
Proof.
  intros a v st.
  assert (forall x, Examples.identity x tt = Ok x) as Hid by reflexivity.
  assert (rep (heap st) a v) as Hrep.
  { split; [reflexivity|]. split; [reflexivity|]. repeat constructor. }
  assert (buf a < length (heap st))%nat as Hb by (simpl; lia).
  assert (1 <= 1 <= length (shape a))%nat as Hnd by (simpl; lia).
  assert (size (slice_from_neg 1 (shape a)) <> 0%nat) as Hm by (vm_compute; lia).
  repeat (split; [assumption|]).
  exact (do_stack_identity_trailing_axes 0 Examples.views Examples.identity tt 1%nat a v st
           Hid Hrep Hb Hnd Hm).
Defined.

(** ** The shape regrid returns with the trailing axes *)

Lemma bind_inv {A X Y} (c : M A X) (k : X -> M A Y) st y st' :
  bind c k st = (Ok y, st') ->
  exists x st1, c st = (Ok x, st1) /\ k x st1 = (Ok y, st').
Proof.
  unfold bind. destruct (c st) as [[x|e] st1]; [|discriminate].
  intros H. now exists x, st1.
Qed.

Lemma np_swapaxes_same_shape a ax a' :
  np_swapaxes a ax ax = Ok a' -> shape a' = shape a.
Proof.
  unfold np_swapaxes.
  destruct (normalize_axis (length (shape a)) ax) as [j|e]; simpl; [|discriminate].
  intros H. inversion H. simpl. apply swap_at_same.
Qed.

Lemma swap_loop_default_shape ndim ks : forall a a',
  Forall (fun i => (i < ndim)%nat) ks ->
  rfold (swap_ith (range_neg ndim) (range_neg ndim)) ks a = Ok a' ->
  shape a' = shape a.
Proof.
  induction ks as [|i ks IH]; intros a a' Hks; simpl.
  - intros H. now inversion H.
  - inversion Hks; subst. unfold swap_ith at 1.
    rewrite py_getitem_range_neg by assumption. simpl.
    destruct (np_swapaxes a _ _) as [a1|e] eqn:E; simpl; [|discriminate].
    intros H. rewrite (IH a1 a') by assumption. eapply np_swapaxes_same_shape; eauto.
Qed.

Lemma reswap_loop_default_shape ndim ks : forall ao ao',
  Forall (fun i => (i < ndim)%nat) ks ->
  rfold (reswap_ith (range_neg ndim) (range_neg ndim)) ks ao = Ok ao' ->
  shape (snd ao') = shape (snd ao).
Proof.
  induction ks as [|i ks IH]; intros ao ao' Hks; simpl.
  - intros H. now inversion H.
  - inversion Hks; subst. unfold reswap_ith at 1.
    destruct (swap_ith _ _ (fst ao) i) as [a1|e]; simpl; [|discriminate].
    destruct (swap_ith _ _ (snd ao) i) as [o1|e] eqn:E; simpl; [|discriminate].
    intros H. rewrite (IH (a1, o1) ao') by assumption. simpl.
    unfold swap_ith in E. rewrite py_getitem_range_neg in E by assumption. simpl in E.
    eapply np_swapaxes_same_shape; eauto.
Qed.

Lemma np_reshape_shape {A} (zero : A) rc a dims a' (st st' : state A) :
  np_reshape zero rc a dims st = (Ok a', st') ->
  resolve_shape (size (shape a)) dims = Ok (shape a').
Proof.
  unfold np_reshape, bind, lift.
  destruct (resolve_shape (size (shape a)) dims) as [s|e]; [|discriminate].
  destruct (rc a s); unfold alloc, ret; intros H; inversion H; reflexivity.
Qed.

Lemma resolve_shape_known_inv n (s s' : list nat) :
  resolve_shape n (map Z.of_nat s) = Ok s' -> s' = s.
Proof.
  unfold resolve_shape.
  rewrite existsb_negative_of_nat, filter_unknown_of_nat, filter_nonneg_of_nat, to_nat_of_nat.
  simpl. destruct (size s =? n)%nat; [|discriminate]. intros H. now inversion H.
Qed.

Lemma resolve_shape_stack_inv n (tr s' : list nat) :
  resolve_shape n (-1 :: map Z.of_nat tr) = Ok s' -> exists q, s' = q :: tr.
Proof.
  unfold resolve_shape.
  cbn [existsb]. rewrite existsb_negative_of_nat.
  change (-1 <? -1) with false. cbn [orb].
  rewrite (filter_cons_False (fun d => 0 <= d) (-1)) by (cbv beta; lia).
  rewrite filter_nonneg_of_nat, to_nat_of_nat.
  rewrite (filter_cons_True (fun d => d = -1) (-1)) by reflexivity.
  rewrite filter_unknown_of_nat. cbn [length].
  destruct ((size tr =? 0)%nat || negb (n mod size tr =? 0)%nat); [discriminate|].
  intros H. inversion H. cbn [map]. change (-1 =? -1) with true.
  eexists. f_equal.
  generalize (n / size tr)%nat as q. intros q. clear.
  induction tr as [|d tr IH]; [reflexivity|]. simpl.
  destruct (Z.eqb_spec (Z.of_nat d) (-1)); [exfalso; lia|].
  rewrite Nat2Z.id. now f_equal.
Qed.

(** The shape of what [do_stack] returns over the trailing axes, with an
    output handed in: the stack axes of the input, then the operating axes
    of the output. *)
Lemma do_stack_shape_trailing {A} (zero : A) rc {Args}
    (func : varray A -> Args -> result (varray A)) ndim a args o out (st st' : state A) :
  (1 <= ndim <= length (shape o))%nat ->
  do_stack zero rc func ndim a args (Some (range_neg ndim)) (Some o) st = (Ok out, st') ->
  shape out = slice_until_neg ndim (shape a) ++ slice_from_neg ndim (shape o).
Proof.
  intros Hnd H. unfold do_stack in H.
  assert (Forall (fun i => (i < ndim)%nat) (seq 0 ndim)) as Hks
    by (apply Forall_seq; intros; lia).
  apply bind_inv in H. destruct H as [a1 [st1 [H1 H]]].
  unfold lift in H1. injection H1 as Hswap _.
  pose proof (swap_loop_default_shape ndim _ _ _ Hks Hswap) as Hs1.
  apply bind_inv in H. destruct H as [o1 [st1' [H1 H]]].
  unfold ret in H1. injection H1 as Ho1 _. subst o1.
  apply bind_inv in H. destruct H as [a2 [st2 [H2 H]]].
  apply bind_inv in H. destruct H as [o2 [st3 [H3 H]]].
  apply np_reshape_shape in H3. apply resolve_shape_stack_inv in H3.
  destruct H3 as [q Hso2].
  apply bind_inv in H. destruct H as [n [st4 [_ H]]].
  apply bind_inv in H. destruct H as [u [st5 [_ H]]].
  apply bind_inv in H. destruct H as [a3 [st6 [_ H]]].
  apply bind_inv in H. destruct H as [o3 [st7 [H7 H]]].
  apply np_reshape_shape in H7. apply resolve_shape_known_inv in H7.
  apply bind_inv in H. destruct H as [ao [st8 [H8 H]]].
  unfold lift in H8. injection H8 as Hreswap _.
  apply reswap_loop_default_shape in Hreswap; [|exact Hks]. simpl in Hreswap.
  unfold ret in H. injection H as Hout _. subst out.
  rewrite Hreswap, H7, Hs1. f_equal.
  rewrite Hso2. apply slice_from_neg_stacked; [lia|].
  unfold slice_from_neg. destruct ndim; [lia|]. rewrite length_drop. lia.
Qed.

Lemma enumerate_range_neg k :
  imap (fun (i : nat) (ax : Z) => (i, ax)) (range_neg k)
  = map (fun i => (i, Z.of_nat i - Z.of_nat k)) (seq 0 k).
Proof.
  apply list_eq. intros i. rewrite list_lookup_imap, list_lookup_fmap.
  destruct (decide (i < k)%nat) as [Hi|Hi].
  - rewrite lookup_range_neg, lookup_seq_lt by lia. reflexivity.
  - unfold range_neg. rewrite list_lookup_fmap.
    rewrite lookup_seq_ge by lia. reflexivity.
Qed.

(** The loop that sets the new lengths, from target grid [j] on, with the
    default axes on a shape of rank [r >= k]. *)
Lemma new_shape_loop_from {A} (grid : list (list A)) (r : nat) c :
  forall j cur shape',
  (j + c = length grid)%nat -> (length grid <= r)%nat -> length cur = r ->
  rfold (set_axis_length grid)
    (map (fun i => (i, Z.of_nat i - Z.of_nat (length grid))) (seq j c)) cur = Ok shape' ->
  length shape' = r /\
  forall p, shape' !! p =
            if decide (r - length grid + j <= p < r)%nat
            then length <$> grid !! (p - (r - length grid))%nat
            else cur !! p.
Proof.
  induction c as [|c IH]; intros j cur shape' Hjc Hk Hr; simpl.
  - intros H. injection H as <-. split; [exact Hr|].
    intros p. destruct (decide _); [lia|reflexivity].
  - unfold set_axis_length at 1. cbn [fst snd].
    destruct (lookup_lt_is_Some_2 grid j ltac:(lia)) as [g Hg].
    rewrite (py_getitem_lookup grid j g Hg). cbn [rbind].
    unfold py_setitem. rewrite py_index_negative by lia. cbn [rbind].
    replace (Z.to_nat (Z.of_nat j - Z.of_nat (length grid) + Z.of_nat (length cur)))
      with (r - length grid + j)%nat by lia.
    intros H. apply IH in H; [|lia|lia|now rewrite length_insert].
    destruct H as [Hl Hp]. split; [exact Hl|].
    intros p. rewrite Hp.
    destruct (decide (r - length grid + S j <= p < r)%nat).
    + destruct (decide _); [reflexivity|lia].
    + destruct (decide (r - length grid + j <= p < r)%nat).
      * assert (p = r - length grid + j)%nat as -> by lia.
        rewrite list_lookup_insert_eq by lia.
        replace (r - length grid + j - (r - length grid))%nat with j by lia.
        now rewrite Hg.
      * apply list_lookup_insert_ne. lia.
Qed.

Lemma new_shape_default {A} (grid : list (list A)) (shape shape' : list nat) :
  grid <> [] ->
  rfold (set_axis_length grid)
    (imap (fun i ax => (i, ax)) (range_neg (length grid))) shape = Ok shape' ->
  (length grid <= length shape)%nat /\
  shape' = take (length shape - length grid) shape ++ map length grid.
Proof.
  intros Hne H.
  assert (length grid <= length shape)%nat as Hk.
  { destruct (le_lt_dec (length grid) (length shape)) as [|Hlt]; [assumption|].
    rewrite new_shape_loop_default_raises in H by exact Hlt. discriminate. }
  split; [exact Hk|].
  rewrite enumerate_range_neg in H.
  apply (new_shape_loop_from grid (length shape)) in H; try lia.
  destruct H as [Hl Hp].
  apply list_eq. intros p. rewrite Hp.
  destruct (decide _) as [Hin|Hout].
  - rewrite lookup_app_r by (rewrite length_take; lia).
    rewrite length_take, list_lookup_fmap. f_equal. f_equal. lia.
  - destruct (decide (p < length shape - length grid)%nat).
    + rewrite lookup_app_l by (rewrite length_take; lia).
      now rewrite lookup_take_lt.
    + rewrite lookup_app_r by (rewrite length_take; lia).
      rewrite lookup_ge_None_2 by lia. symmetry. apply lookup_ge_None_2.
      rewrite length_map, length_take. lia.
Qed.

(** X2.  With the default axes and at least one target grid, every call of
    [regrid] that returns gives an array of the shape of [data] with the
    lengths of the last axes replaced by those of the target grids. *)
Theorem regrid_shape_trailing_axes
    {A : Type} (zero : A) (reshape_copies : ndarray -> list nat -> bool)
    (npsub npmul npdiv : A -> A -> A) (of_int : Z -> A) (nan : A)
    (map_coordinates : varray A -> list (varray A) -> gmap string (@kwval A)
                       -> result (varray A))
    (data : ndarray) (limits : list (A * A)) (grid : list (list A))
    (kwargs : gmap string (@kwval A)) (st st' : state A) (out : ndarray) :
  grid <> [] ->
  regrid zero reshape_copies npsub npmul npdiv of_int nan map_coordinates
    data limits grid None kwargs st = (Ok out, st') ->
  (length grid <= length (shape data))%nat /\
  shape out = take (length (shape data) - length grid) (shape data) ++ map length grid.
Proof.
  intros Hne H. unfold regrid in H.
  destruct (negb (length limits =? length grid)%nat); [discriminate|].
  apply bind_inv in H. destruct H as [shape' [st1 [H1 H]]].
  unfold lift in H1. injection H1 as Hshape _.
  apply new_shape_default in Hshape; [|exact Hne]. destruct Hshape as [Hk Hshape].
  split; [exact Hk|].
  apply bind_inv in H. destruct H as [zeros [st2 [H2 H]]].
  unfold np_zeros, alloc in H2. injection H2 as Hz _.
  apply bind_inv in H. destruct H as [res [st3 [H3 H]]].
  unfold ret in H. injection H as -> _.
  assert (length grid <> 0)%nat as Hk0 by (destruct grid; [contradiction|simpl; lia]).
  assert (length shape' = length (shape data)) as Hl'.
  { rewrite Hshape, length_app, length_take, length_map. lia. }
  apply do_stack_shape_trailing in H3; [|subst zeros; cbn [shape]; lia].
  rewrite H3. subst zeros. cbn [shape].
  unfold slice_until_neg, slice_from_neg.
  destruct (length grid) as [|k] eqn:Ek; [lia|]. f_equal.
  rewrite Hl', Hshape. rewrite drop_app_length'; [reflexivity|].
  rewrite length_take. lia.
Qed.

Lemma regrid_shape_trailing_axes_witness :
  let data := Examples.arange [3; 2; 2]%nat in
  let grid := [[0; 1; 2]; [0; 1; 2; 3]] in
  exists out st',
    grid <> [] /\
    Examples.regrid_fill Examples.views data [(0, 1); (0, 1)] grid None ∅
      (Examples.arange_store 12) = (Ok out, st') /\
    (length grid <= length (shape data))%nat /\
    shape out = take (length (shape data) - length grid) (shape data) ++ map length grid.
Proof.
  intros data grid.
  destruct (Examples.regrid_fill Examples.views data [(0, 1); (0, 1)] grid None ∅
              (Examples.arange_store 12)) as [[out|e] st'] eqn:E.
  - exists out, st'. split; [discriminate|]. split; [reflexivity|].
    exact (regrid_shape_trailing_axes 0 Examples.views Z.sub Z.mul Z.div id (-1) Examples.fill
             data [(0, 1); (0, 1)] grid ∅ _ st' out ltac:(discriminate) E).
  - vm_compute in E. discriminate E.
Defined.

(** An accepted call with the default axes: maps of shape [2 x 2], three of
    them, onto a [3 x 4] grid. *)
Lemma regrid_trailing_axes_example (reshape_copies : ndarray -> list nat -> bool) :
  Examples.shape_of
    (Examples.regrid_fill reshape_copies (Examples.arange [3; 2; 2]%nat)
       [(0, 1); (0, 1)] [[0; 1; 2]; [0; 1; 2; 3]] None ∅ (Examples.arange_store 12))
  = Ok [3; 3; 4]%nat.
Proof. run_with reshape_copies; vm_compute; reflexivity. Qed.

(** * More properties *)

(** ** The search on integer samples *)

Lemma centered_ints (zs : list Z) (c : Z) :
  centered PyNum.sub (map PyNum.PyInt zs) (PyNum.PyInt c)
  = Ok (map (fun z => PyNum.PyInt (z - c)) zs).
Proof.
  induction zs as [|z zs IH]; [reflexivity|].
  cbn [map centered]. rewrite IH. reflexivity.
Qed.

Lemma py_getitem_map_nonneg {X Y} (f : X -> Y) (l : list X) (i : Z) x :
  0 <= i -> l !! Z.to_nat i = Some x -> py_getitem (map f l) i = Ok (f x).
Proof.
  intros Hi Hx. replace i with (Z.of_nat (Z.to_nat i)) by lia.
  apply py_getitem_lookup. rewrite list_lookup_fmap, Hx. reflexivity.
Qed.

(** On integer samples none of which is zero, a window whose two ends have
    opposite signs is narrowed to two neighbours of opposite signs. *)
Lemma dichoto_loop_sign_change (ws : list Z) :
  Forall (fun w => w <> 0) ws ->
  forall (k fuel : nat) t1 t2 ncount w1 w2,
  0 <= t1 -> t2 < Z.of_nat (length ws) ->
  1 <= t2 - t1 <= 2 ^ Z.of_nat k ->
  (k <= fuel)%nat -> ncount + Z.of_nat k <= max_count ->
  ws !! Z.to_nat t1 = Some w1 -> ws !! Z.to_nat t2 = Some w2 -> w1 * w2 < 0 ->
  exists l a b c u v,
    dichoto_loop PyNum.mul PyNum.ge0 fuel (map PyNum.PyInt ws) t1 t2 ncount
      = (l, Ok (a, b, c)) /\
    b - a = 1 /\ t1 <= a /\ b <= t2 /\
    ws !! Z.to_nat a = Some u /\ ws !! Z.to_nat b = Some v /\ u * v < 0.
Proof.
  intros Hnz.
  induction k as [|k IH]; intros fuel t1 t2 ncount w1 w2 Hlo Hhi Hw Hfuel Hcap H1 H2 Hs.
  - change (2 ^ Z.of_nat 0) with 1 in Hw.
    destruct fuel as [|fuel]; simpl.
    + exists [], t1, t2, ncount, w1, w2. repeat split; solve [assumption | lia].
    + destruct (1 <? t2 - t1) eqn:E; [lia|]. simpl.
      exists [], t1, t2, ncount, w1, w2. repeat split; solve [assumption | lia].
  - destruct fuel as [|fuel]; [lia|]. simpl.
    destruct (1 <? t2 - t1) eqn:E; simpl.
    2: { exists [], t1, t2, ncount, w1, w2. repeat split; solve [assumption | lia]. }
    destruct (ncount <? max_count) eqn:Ec; [|lia]. simpl.
    assert (1 < t2 - t1) as Hw' by lia.
    pose proof (midpoint_between t1 t2 Hw') as Hm.
    assert (2 ^ Z.of_nat (S k) = 2 * 2 ^ Z.of_nat k) as Hpow.
    { rewrite Nat2Z.inj_succ, Z.pow_succ_r by lia. reflexivity. }
    assert (midpoint t1 t2 - t1 <= 2 ^ Z.of_nat k /\
            t2 - midpoint t1 t2 <= 2 ^ Z.of_nat k) as [Hl Hr].
    { unfold midpoint in *.
      pose proof (Z.quot_rem' (t2 + t1) 2) as Hq.
      pose proof (Z.rem_bound_abs (t2 + t1) 2 ltac:(lia)) as Hb.
      lia. }
    destruct (lookup_lt_is_Some_2 ws (Z.to_nat (midpoint t1 t2)) ltac:(lia)) as [w3 H3].
    assert (w3 <> 0) as Hw3.
    { eapply (proj1 (Forall_forall _ _) Hnz). eapply list_elem_of_lookup_2; eauto. }
    unfold dichoto_step, subscript.
    rewrite (py_getitem_map_nonneg PyNum.PyInt ws t2 w2) by (assumption || lia).
    rewrite (py_getitem_map_nonneg PyNum.PyInt ws (midpoint t1 t2) w3) by (assumption || lia).
    cbn [rd_bind rd_lift PyNum.mul PyNum.arith app PyNum.ge0].
    destruct (Z.leb_spec 0 (w2 * w3)) as [Hp|Hp]; cbn [rd_ret rd_bind fst snd app].
    + destruct (IH fuel t1 (midpoint t1 t2) (ncount + 1) w1 w3)
        as [l [a [b [c [u [v [Hrun [Hab [Ha [Hb [Hu [Hv Huv]]]]]]]]]]]];
        try solve [assumption | lia | nia].
      rewrite Hrun. exists ([t2; midpoint t1 t2] ++ l), a, b, c, u, v.
      repeat split; solve [assumption | lia].
    + destruct (IH fuel (midpoint t1 t2) t2 (ncount + 1) w3 w2)
        as [l [a [b [c [u [v [Hrun [Hab [Ha [Hb [Hu [Hv Huv]]]]]]]]]]]];
        try solve [assumption | lia | nia].
      rewrite Hrun. exists ([t2; midpoint t1 t2] ++ l), a, b, c, u, v.
      repeat split; solve [assumption | lia].
Qed.

(** X3.  [get_zero_dichoto] on a list of Python integers none of which equals
    the target: when the samples at the two ends of the window lie on
    opposite sides of the target, the returned index [r] is inside the window
    and the samples at [r] and [r + 1] lie on opposite sides of the target,
    so the interval returned does hold a crossing. *)
Theorem get_zero_dichoto_brackets_crossing (zs : list Z) (c t1 t2 u1 u2 : Z) :
  Forall (fun z => z <> c) zs ->
  0 <= t1 -> t1 < t2 -> t2 <= Z.of_nat (length zs) - 1 -> t2 - t1 <= 2 ^ 9999 ->
  zs !! Z.to_nat t1 = Some u1 -> zs !! Z.to_nat t2 = Some u2 ->
  (u1 - c) * (u2 - c) < 0 ->
  exists r u v,
    snd (get_zero_dichoto PyNum.sub PyNum.mul PyNum.ge0
           (map PyNum.PyInt zs) (PyNum.PyInt c) t1 (Some t2)) = Ok r /\
    t1 <= r < t2 /\
    zs !! Z.to_nat r = Some u /\ zs !! Z.to_nat (r + 1) = Some v /\
    (u - c) * (v - c) < 0.
Proof.
  intros Hne H0 H12 Hn Hw H1 H2 Hs.
  set (ws := map (fun z => z - c) zs).
  assert (Forall (fun w => w <> 0) ws) as Hnz.
  { unfold ws. apply Forall_fmap. eapply Forall_impl; [exact Hne|]. simpl. intros; lia. }
  assert (forall i z, zs !! i = Some z -> ws !! i = Some (z - c)) as Hto.
  { intros i z Hz. unfold ws. rewrite list_lookup_fmap, Hz. reflexivity. }
  assert (forall i w, ws !! i = Some w -> exists z, zs !! i = Some z /\ w = z - c) as Hfrom.
  { intros i w Hi. unfold ws in Hi. rewrite list_lookup_fmap in Hi.
    destruct (zs !! i) as [z|]; [|discriminate]. injection Hi as <-. now exists z. }
  destruct (dichoto_loop_sign_change ws Hnz (Z.to_nat 9999) dichoto_fuel t1 t2 0
              (u1 - c) (u2 - c))
    as [l [a [b [n [u [v [Hrun [Hab [Ha [Hb [Hu [Hv Huv]]]]]]]]]]]]; auto.
  - unfold ws. rewrite length_map. clear Hw. lia.
  - rewrite Z2Nat.id by (clear; lia). split; [clear Hw; lia|exact Hw].
  - apply dichoto_fuel_covers. clear. unfold max_count. lia.
  - clear. unfold max_count. lia.
  - destruct (Hfrom _ _ Hu) as [zu [Hzu ->]]. destruct (Hfrom _ _ Hv) as [zv [Hzv ->]].
    exists a, zu, zv.
    unfold get_zero_dichoto, dichoto_run, rd_lift. rewrite centered_ints.
    cbn [rd_bind].
    replace (map (fun z => PyNum.PyInt (z - c)) zs) with (map PyNum.PyInt ws)
      by (unfold ws; now rewrite map_map).
    rewrite Hrun. cbn [rd_bind rd_ret fst snd].
    replace (a + 1) with b by lia.
    clear Hw. repeat split; solve [assumption | lia].
Qed.

Lemma get_zero_dichoto_brackets_crossing_witness :
  let zs := [-3; -1; 2; 5; 7] in
  Forall (fun z => z <> 0) zs /\
  0 <= 0 /\ 0 < 4 /\ 4 <= Z.of_nat (length zs) - 1 /\ 4 - 0 <= 2 ^ 9999 /\
  zs !! Z.to_nat 0 = Some (-3) /\ zs !! Z.to_nat 4 = Some 7 /\
  (-3 - 0) * (7 - 0) < 0 /\
  exists r u v,
    snd (get_zero_dichoto PyNum.sub PyNum.mul PyNum.ge0
           (map PyNum.PyInt zs) (PyNum.PyInt 0) 0 (Some 4)) = Ok r /\
    0 <= r < 4 /\
    zs !! Z.to_nat r = Some u /\ zs !! Z.to_nat (r + 1) = Some v /\
    (u - 0) * (v - 0) < 0.
Proof.
  intros zs.
  assert (Forall (fun z => z <> 0) zs) as Hne by (repeat constructor; lia).
  assert (4 - 0 <= 2 ^ 9999) as Hw by (vm_compute; discriminate).
  split; [exact Hne|]. split; [lia|]. split; [lia|]. split; [simpl; lia|].
  split; [exact Hw|]. split; [reflexivity|]. split; [reflexivity|]. split; [lia|].
  exact (get_zero_dichoto_brackets_crossing zs 0 0 4 (-3) 7 Hne ltac:(lia) ltac:(lia)
           ltac:(simpl; lia) Hw eq_refl eq_refl ltac:(lia)).
Defined.

(** ** get_cursor on a flat signal *)





(** ** What regrid writes *)

(** X5.  [regrid] writes into no cell that was allocated before the call:
    it fills the array it allocates itself.  In particular [data] holds
    after the call what it held before, whether the call returns or
    raises. *)
Theorem regrid_keeps_data
    {A : Type} (zero : A) (reshape_copies : ndarray -> list nat -> bool)
    (npsub npmul npdiv : A -> A -> A) (of_int : Z -> A) (nan : A)
    (map_coordinates : varray A -> list (varray A) -> gmap string (@kwval A)
                       -> result (varray A))
    (data : ndarray) (limits : list (A * A)) (grid : list (list A))
    (axes : option (list Z)) (kwargs : gmap string (@kwval A)) (st : state A) :
  (buf data < length (heap st))%nat ->
  let st' := snd (regrid zero reshape_copies npsub npmul npdiv of_int nan map_coordinates
                    data limits grid axes kwargs st) in
  contents zero (heap st') data = contents zero (heap st) data /\
  (forall b q, (b < length (heap st))%nat -> cell b (heap st') q = cell b (heap st) q).
Proof.
  intros Hb st'.
  assert (forall b ps, safe b ps
            (regrid zero reshape_copies npsub npmul npdiv of_int nan map_coordinates
               data limits grid axes kwargs) (fun _ => True)) as Hsafe.
  { intros b ps. unfold regrid.
    destruct (negb (length limits =? length grid)%nat); [apply safe_raise|].
    apply (safe_bind _ _ _ _ (fun _ => True)); [apply safe_lift; intros; exact I|].
    intros shape' _.
    apply (safe_bind _ _ _ _ (fun a => buf a <> b)); [apply safe_alloc|].
    intros out Hout.
    apply (safe_bind _ _ _ _ (fun _ => True)); [|intros; now apply safe_ret].
    apply safe_do_stack. intros o Ho. injection Ho as <-. now left. }
  split.
  - apply contents_keeps. now apply Hsafe.
  - intros b q Hlt. destruct (Hsafe b [q] st Hlt) as [[_ Hcell] _].
    apply Hcell. apply list_elem_of_singleton. reflexivity.
Qed.

Lemma regrid_keeps_data_witness :
  let data := Examples.arange [3; 2; 2]%nat in
  let st := Examples.arange_store 12 in
  let st' := snd (Examples.regrid_fill Examples.views data [(0, 1); (0, 1)]
                    [[0; 1; 2]; [0; 1; 2; 3]] None ∅ st) in
  (buf data < length (heap st))%nat /\
  contents 0 (heap st') data = contents 0 (heap st) data /\
  (forall b q, (b < length (heap st))%nat -> cell b (heap st') q = cell b (heap st) q).
Proof.
  intros data st st'.
  assert (buf data < length (heap st))%nat as Hb by (simpl; lia).
  split; [exact Hb|].
  exact (regrid_keeps_data 0 Examples.views Z.sub Z.mul Z.div id (-1) Examples.fill
           data [(0, 1); (0, 1)] [[0; 1; 2]; [0; 1; 2; 3]] None ∅ st Hb).
Defined.

(** ** How often do_stack calls the function *)

Lemma np_reshape_calls {A} (zero : A) rc a dims (st : state A) :
  calls (snd (np_reshape zero rc a dims st)) = calls st.
Proof.
  unfold np_reshape, bind, lift.
  destruct (resolve_shape (size (shape a)) dims) as [s|e]; [|reflexivity].
  destruct (rc a s); reflexivity.
Qed.

Lemma np_setitem_calls {A} (zero : A) a i v (st : state A) :
  calls (snd (np_setitem zero a i v st)) = calls st.
Proof.
  unfold np_setitem, bind, lift.
  destruct (np_getitem a i) as [slot|e]; [|reflexivity].
  destruct (broadcast_to zero v (shape slot)) as [d|e]; reflexivity.
Qed.

Lemma apply_slice_calls {A} (zero : A) {Args} (func : varray A -> Args -> result (varray A))
    args array output i (st st' : state A) :
  apply_slice zero func args array output i st = (Ok tt, st') ->
  calls st' = S (calls st).
Proof.
  unfold apply_slice. intros H.
  apply bind_inv in H. destruct H as [x [st1 [H1 H]]].
  unfold lift in H1. injection H1 as _ <-.
  apply bind_inv in H. destruct H as [xv [st2 [H2 H]]].
  unfold get_contents in H2. injection H2 as _ <-.
  apply bind_inv in H. destruct H as [u [st3 [H3 H]]].
  unfold tick in H3. injection H3 as _ <-.
  apply bind_inv in H. destruct H as [r [st4 [H4 H]]].
  unfold lift in H4. injection H4 as _ <-.
  pose proof (np_setitem_calls zero output i r
                {| heap := heap st; calls := S (calls st) |}) as Hc.
  rewrite H in Hc. exact Hc.
Qed.

Lemma stack_loop_calls {A} (zero : A) {Args} (func : varray A -> Args -> result (varray A))
    args array output (l : list nat) : forall (st st' : state A),
  for_each l (apply_slice zero func args array output) st = (Ok tt, st') ->
  calls st' = (calls st + length l)%nat.
Proof.
  induction l as [|i l IH]; intros st st' H; simpl in H.
  - unfold ret in H. injection H as <-. simpl. lia.
  - apply bind_inv in H. destruct H as [[] [st1 [H1 H]]].
    apply apply_slice_calls in H1. apply IH in H. simpl. lia.
Qed.

Lemma resolve_shape_stack_quotient n (tr s' : list nat) :
  resolve_shape n (-1 :: map Z.of_nat tr) = Ok s' ->
  exists q, s' = q :: tr /\ (q * size tr = n)%nat /\ size tr <> 0%nat.
Proof.
  unfold resolve_shape.
  cbn [existsb]. rewrite existsb_negative_of_nat.
  change (-1 <? -1) with false. cbn [orb].
  rewrite (filter_cons_False (fun d => 0 <= d) (-1)) by (cbv beta; lia).
  rewrite filter_nonneg_of_nat, to_nat_of_nat.
  rewrite (filter_cons_True (fun d => d = -1) (-1)) by reflexivity.
  rewrite filter_unknown_of_nat. cbn [length].
  destruct (Nat.eqb_spec (size tr) 0) as [|Hnz]; [discriminate|]. cbn [orb].
  destruct (Nat.eqb_spec (n mod size tr) 0) as [Hmod|]; [|discriminate]. cbn [negb].
  intros H. injection H as <-. cbn [map]. change (-1 =? -1) with true.
  exists (n / size tr)%nat. split; [|split; [|exact Hnz]].
  - f_equal. generalize (n / size tr)%nat as q. intros q. clear.
    induction tr as [|d tr IH]; [reflexivity|]. simpl.
    destruct (Z.eqb_spec (Z.of_nat d) (-1)); [exfalso; lia|].
    rewrite Nat2Z.id. now f_equal.
  - pose proof (Nat.div_mod n (size tr) Hnz). lia.
Qed.

Lemma until_from_neg {X} (n : nat) (l : list X) :
  slice_until_neg n l ++ slice_from_neg n l = l.
Proof. destruct n; [reflexivity|]. apply take_drop. Qed.

(** The calls a run of [do_stack] over the trailing axes has made. *)
Lemma do_stack_default_calls
    {A : Type} (zero : A) (reshape_copies : ndarray -> list nat -> bool)
    {Args : Type} (func : varray A -> Args -> result (varray A))
    (ndim : nat) (array : ndarray) (args : Args) (output : option ndarray)
    (out : ndarray) (st st' : state A) :
  do_stack zero reshape_copies func ndim array args None output st = (Ok out, st') ->
  calls st' = (calls st + size (slice_until_neg ndim (shape array)))%nat.
Proof.
  intros H. unfold do_stack in H.
  assert (Forall (fun i => (i < ndim)%nat) (seq 0 ndim)) as Hks
    by (apply Forall_seq; intros; lia).
  apply bind_inv in H. destruct H as [a1 [st1 [H1 H]]].
  unfold lift in H1. injection H1 as Hswap <-.
  pose proof (swap_loop_default_shape ndim _ _ _ Hks Hswap) as Hs1.
  apply bind_inv in H. destruct H as [o1 [st1 [H1 H]]].
  assert (calls st1 = calls st) as Hc1.
  { destruct output; [unfold ret in H1|unfold np_zeros, alloc in H1];
      injection H1 as _ <-; reflexivity. }
  apply bind_inv in H. destruct H as [a2 [st2 [H2 H]]].
  pose proof (np_reshape_calls zero reshape_copies a1
                (-1 :: map Z.of_nat (slice_from_neg ndim (shape a1))) st1) as Hc2.
  rewrite H2 in Hc2. cbn [snd] in Hc2.
  apply np_reshape_shape in H2. apply resolve_shape_stack_quotient in H2.
  destruct H2 as [q [Hs2 [Hq Hnz]]].
  apply bind_inv in H. destruct H as [o2 [st3 [H3 H]]].
  pose proof (np_reshape_calls zero reshape_copies o1
                (-1 :: map Z.of_nat (slice_from_neg ndim (shape o1))) st2) as Hc3.
  rewrite H3 in Hc3. cbn [snd] in Hc3.
  apply bind_inv in H. destruct H as [n [st4 [H4 H]]].
  unfold lift, shape0 in H4. rewrite Hs2 in H4. injection H4 as <- <-.
  apply bind_inv in H. destruct H as [[] [st5 [H5 H]]].
  apply stack_loop_calls in H5. rewrite length_seq in H5.
  apply bind_inv in H. destruct H as [a3 [st6 [H6 H]]].
  match type of H6 with np_reshape _ _ ?a ?d _ = _ =>
    pose proof (np_reshape_calls zero reshape_copies a d st5) as Hc6 end.
  rewrite H6 in Hc6. cbn [snd] in Hc6.
  apply bind_inv in H. destruct H as [o3 [st7 [H7 H]]].
  match type of H7 with np_reshape _ _ ?a ?d _ = _ =>
    pose proof (np_reshape_calls zero reshape_copies a d st6) as Hc7 end.
  rewrite H7 in Hc7. cbn [snd] in Hc7.
  apply bind_inv in H. destruct H as [ao [st8 [H8 H]]].
  unfold lift in H8. injection H8 as _ <-.
  unfold ret in H. injection H as _ <-.
  rewrite Hc7, Hc6, H5, Hc3, Hc2, Hc1. f_equal.
  rewrite <- Hs1.
  pose proof (size_app (slice_until_neg ndim (shape a1)) (slice_from_neg ndim (shape a1))) as Hsz.
  rewrite until_from_neg in Hsz. rewrite Hsz in Hq.
  apply Nat.mul_cancel_r in Hq; assumption.
Qed.

(** X6.  With the default axes, every call of [do_stack] that returns has
    called the function exactly once for each index of the axes before the
    last [ndim]: [size (shape[:-ndim])] times, whatever the function does. *)
Theorem do_stack_calls_once_per_slice
    {A : Type} (zero : A) (reshape_copies : ndarray -> list nat -> bool)
    {Args : Type} (func : varray A -> Args -> result (varray A))
    (ndim : nat) (array : ndarray) (args : Args) (output : option ndarray)
    (out : ndarray) (st st' : state A) :
  do_stack zero reshape_copies func ndim array args None output st = (Ok out, st') ->
  calls st' = (calls st + size (slice_until_neg ndim (shape array)))%nat.
Proof. apply do_stack_default_calls. Qed.

(** ** enlarge_mask on a mask of rank below two *)

Lemma for_each_calls {A X} (l : list X) (body : X -> M A unit) :
  (forall x st, calls (snd (body x st)) = calls st) ->
  forall st, calls (snd (for_each l body st)) = calls st.
Proof.
  intros Hbody. induction l as [|x l IH]; intros st; simpl; [reflexivity|].
  unfold bind. specialize (Hbody x st).
  destruct (body x st) as [[u|e] st1]; simpl in *; [|exact Hbody].
  rewrite IH. exact Hbody.
Qed.

Lemma get_circle_kernel_calls {A} (zero one : A) n (st : state A) :
  calls (snd (get_circle_kernel zero one n st)) = calls st.
Proof.
  unfold get_circle_kernel. destruct (n <? 0); [reflexivity|].
  unfold bind at 1. cbn [np_zeros alloc].
  unfold bind at 1.
  match goal with |- context [for_each ?l ?b ?s] =>
    pose proof (for_each_calls l b) as Hfe; specialize (fun H => Hfe H s);
    destruct (for_each l b s) as [[u|e] st1] end; cbn [snd calls] in *.
  - apply Hfe. intros i s1. apply for_each_calls. intros j s2.
    unfold bind, lift. destruct (in_circle n (Z.of_nat i) (Z.of_nat j)); [|reflexivity].
    unfold set_cell. destruct (_ !! _); reflexivity.
  - apply Hfe. intros i s1. apply for_each_calls. intros j s2.
    unfold bind, lift. destruct (in_circle n (Z.of_nat i) (Z.of_nat j)); [|reflexivity].
    unfold set_cell. destruct (_ !! _); reflexivity.
Qed.

(** X7.  [enlarge_mask] refuses a mask of fewer than two dimensions: the
    call raises, and no convolution has been run. *)
Theorem enlarge_mask_refuses_rank_below_2
    {A : Type} (zero one : A) (reshape_copies : ndarray -> list nat -> bool)
    (gt0 : A -> bool)
    (convolve : varray A -> varray A * option (list Z) -> result (varray A))
    (mask : barray) (n_neighbors : Z) (axes : option (list Z)) (st : state A) :
  (length (bshape mask) < 2)%nat ->
  exists e st',
    enlarge_mask zero one reshape_copies gt0 convolve mask n_neighbors axes st
      = (Raise e, st') /\
    calls st' = calls st.
Proof.
  intros Hrank. unfold enlarge_mask.
  pose proof (get_circle_kernel_calls zero one (2 * n_neighbors + 1) st) as Hk.
  unfold bind at 1.
  destruct (get_circle_kernel zero one (2 * n_neighbors + 1) st) as [[kernel|e] st1];
    cbn [snd] in Hk; [|now exists e, st1].
  unfold bind at 1. cbn [alloc].
  unfold bind at 1. cbn [get_contents].
  unfold bind at 1.
  match goal with |- context [do_stack _ _ _ _ ?a ?args _ _ ?s] =>
    destruct (do_stack_rank_too_small zero reshape_copies convolve 2 a args None None s)
      as [e [He _]]; [exact Hrank|]; rewrite He end.
  eexists; eexists; split; [reflexivity|]. exact Hk.
Qed.

Lemma enlarge_mask_refuses_rank_below_2_witness :
  let mask := {| bshape := [3]%nat; bdata := [false; true; false] |} in
  let st := {| heap := []; calls := 0 |} in
  (length (bshape mask) < 2)%nat /\
  exists e st',
    enlarge_mask 0 1 Examples.views (Z.ltb 0) Examples.same_slice mask 1 None st
      = (Raise e, st') /\
    calls st' = calls st.
Proof.
  intros mask st.
  assert (length (bshape mask) < 2)%nat as H by (simpl; lia).
  split; [exact H|].
  exact (enlarge_mask_refuses_rank_below_2 0 1 Examples.views (Z.ltb 0) Examples.same_slice
           mask 1 None st H).
Defined.

(** ** enlarge_mask with a list for [axes] *)

Section FuncRefuses.

Context {A : Type} (zero : A) (reshape_copies : ndarray -> list nat -> bool).
Context {Args : Type} (func : varray A -> Args -> result (varray A)) (args : Args).

Variable ndim : nat.
Hypothesis Hndim : (1 <= ndim)%nat.
Hypothesis Hrefuse :
  forall x, length (vshape x) = ndim -> exists e, func x args = Raise e.

(** Over the trailing axes of an array that is not empty, [do_stack] with a
    function that raises on every slice of [ndim] axes raises: before any
    slice is handed to the function, or at the first slice, with the
    exception of the function. *)
Lemma do_stack_func_refuses array (st : state A) :
  size (shape array) <> 0%nat ->
  exists e st',
    do_stack zero reshape_copies func ndim array args None None st = (Raise e, st') /\
    (calls st' = calls st \/
     calls st' = S (calls st) /\
     exists x, length (vshape x) = ndim /\ func x args = Raise e).
Proof.
  intros Hsize.
  destruct (le_lt_dec ndim (length (shape array))) as [Hrank|Hrank].
  2: { destruct (do_stack_rank_too_small zero reshape_copies func ndim array args
                   None None st Hrank) as [e [He _]].
       exists e, st. split; [exact He|now left]. }
  unfold do_stack.
  assert (Forall (fun i => (i < ndim)%nat) (seq 0 ndim)) as Hks
    by (apply Forall_seq; intros; lia).
  unfold bind at 1. unfold lift at 1.
  destruct (rfold _ (seq 0 ndim) array) as [a1|e] eqn:Hswap.
  2: { exists e, st. split; [reflexivity|now left]. }
  pose proof (swap_loop_default_shape ndim _ _ _ Hks Hswap) as Hs1.
  assert (length (slice_from_neg ndim (shape a1)) = ndim) as Hslice.
  { rewrite Hs1. unfold slice_from_neg. destruct ndim; [lia|].
    rewrite length_drop. lia. }
  unfold bind at 1. cbn [np_zeros alloc].
  set (st1 := {| heap := _; calls := calls st |}).
  set (o1 := {| buf := length (heap st); shape := shape a1; idx := _ |}).
  unfold bind at 1.
  pose proof (np_reshape_calls zero reshape_copies a1
                (-1 :: map Z.of_nat (slice_from_neg ndim (shape a1))) st1) as Hc2.
  destruct (np_reshape zero reshape_copies a1 _ st1) as [[a2|e] st2] eqn:H2;
    cbn [snd] in Hc2.
  2: { exists e, st2. split; [reflexivity|]. left. rewrite Hc2. reflexivity. }
  apply np_reshape_shape in H2. apply resolve_shape_stack_quotient in H2.
  destruct H2 as [q [Hs2 [Hq Hnz]]].
  assert (q <> 0)%nat as Hq0 by (rewrite Hs1 in Hq; intros ->; simpl in Hq; lia).
  unfold bind at 1.
  pose proof (np_reshape_calls zero reshape_copies o1
                (-1 :: map Z.of_nat (slice_from_neg ndim (shape o1))) st2) as Hc3.
  destruct (np_reshape zero reshape_copies o1 _ st2) as [[o2|e] st3] eqn:H3;
    cbn [snd] in Hc3.
  2: { exists e, st3. split; [reflexivity|]. left. rewrite Hc3, Hc2. reflexivity. }
  unfold bind at 1. unfold lift at 1. unfold shape0. rewrite Hs2.
  destruct q as [|q']; [contradiction|].
  cbn [seq for_each]. unfold bind at 1. unfold bind at 1.
  unfold apply_slice at 1.
  unfold bind at 1. unfold lift at 1. unfold np_getitem. rewrite Hs2.
  change (0 <? S q')%nat with true. cbv iota.
  unfold bind at 1. cbn [get_contents].
  unfold bind at 1. cbn [tick].
  unfold bind at 1. unfold lift at 1.
  match goal with |- context [func ?x args] =>
    destruct (Hrefuse x Hslice) as [e He]; rewrite He end.
  eexists; eexists. split; [reflexivity|]. right. cbn [calls]. rewrite Hc3, Hc2.
  split; [reflexivity|]. eexists. split; [|exact He]. exact Hslice.
Qed.

End FuncRefuses.

(** C3, where the code departs from it.  [enlarge_mask] passes [axes] to
    [do_stack] by position, where it joins the arguments handed through to
    the convolution, which receives it as its third parameter, [output];
    [do_stack] itself runs with [axes=None], over the last two axes.
    scipy's convolution raises when it is given a list of integers for the
    output of a slice of two axes.  So on a mask that is not empty a call
    with a list for [axes] returns no mask: it raises, before any slice is
    handed to the convolution or at the first slice, with the exception of
    the convolution. *)
Theorem enlarge_mask_axes_reach_convolve
    {A : Type} (zero one : A) (reshape_copies : ndarray -> list nat -> bool)
    (gt0 : A -> bool)
    (convolve : varray A -> varray A * option (list Z) -> result (varray A))
    (mask : barray) (n_neighbors : Z) (axes : list Z) (st : state A) :
  (forall x kernel, length (vshape x) = 2%nat ->
     exists e, convolve x (kernel, Some axes) = Raise e) ->
  size (bshape mask) <> 0%nat ->
  exists e st',
    enlarge_mask zero one reshape_copies gt0 convolve mask n_neighbors (Some axes) st
      = (Raise e, st') /\
    (calls st' = calls st \/
     calls st' = S (calls st) /\
     exists x kernel, length (vshape x) = 2%nat /\
                      convolve x (kernel, Some axes) = Raise e).
Proof.
  intros Hrefuse Hsize. unfold enlarge_mask.
  pose proof (get_circle_kernel_calls zero one (2 * n_neighbors + 1) st) as Hk.
  unfold bind at 1.
  destruct (get_circle_kernel zero one (2 * n_neighbors + 1) st) as [[kernel|e] st1];
    cbn [snd] in Hk.
  2: { exists e, st1. split; [reflexivity|now left]. }
  unfold bind at 1. cbn [alloc].
  unfold bind at 1. cbn [get_contents].
  unfold bind at 1.
  match goal with |- context [do_stack _ _ _ _ ?a ?args _ _ ?s] =>
    destruct (do_stack_func_refuses zero reshape_copies convolve args 2
                ltac:(lia) (fun x => Hrefuse x (fst args)) a s Hsize)
      as [e [st' [He Hc]]]; rewrite He end.
  exists e, st'. split; [reflexivity|]. cbn [calls] in Hc. rewrite Hk in Hc.
  destruct Hc as [Hc|[Hc [x [Hx He']]]]; [now left|right].
  split; [exact Hc|]. eexists; eexists; split; [exact Hx|exact He'].
Qed.

Lemma enlarge_mask_axes_reach_convolve_witness :
  let mask := {| bshape := [2; 2; 3]%nat;
                 bdata := [false; false; false; false; true; false;
                           false; false; false; false; false; false] |} in
  let st := {| heap := []; calls := 0 |} in
  (forall x kernel, length (vshape x) = 2%nat ->
     exists e, Examples.output_checked x (kernel, Some [0; 1]) = Raise e) /\
  size (bshape mask) <> 0%nat /\
  exists e st',
    enlarge_mask 0 1 Examples.views (Z.ltb 0) Examples.output_checked mask 1 (Some [0; 1]) st
      = (Raise e, st') /\
    (calls st' = calls st \/
     calls st' = S (calls st) /\
     exists x kernel, length (vshape x) = 2%nat /\
                      Examples.output_checked x (kernel, Some [0; 1]) = Raise e).
Proof.
  intros mask st.
  assert (forall x kernel, length (vshape x) = 2%nat ->
             exists e, Examples.output_checked x (kernel, Some [0; 1]) = Raise e) as H
    by (intros x kernel _; now exists ValueError).
  assert (size (bshape mask) <> 0%nat) as Hs by (simpl; lia).
  split; [exact H|]. split; [exact Hs|].
  exact (enlarge_mask_axes_reach_convolve 0 1 Examples.views (Z.ltb 0)
           Examples.output_checked mask 1 [0; 1] st H Hs).
Defined.

(** With [axes] left out the call returns (this stand-in gives every slice
    back, so the mask itself); with [axes = [0, 1]] the first slice is
    refused. *)
Example enlarge_mask_axes_example :
  let mask := {| bshape := [2; 2; 3]%nat;
                 bdata := [false; false; false; false; true; false;
                           false; false; false; false; false; false] |} in
  let st := {| heap := []; calls := 0 |} in
  fst (enlarge_mask 0 1 Examples.views (Z.ltb 0) Examples.output_checked mask 1 None st)
  = Ok mask /\
  fst (enlarge_mask 0 1 Examples.views (Z.ltb 0) Examples.output_checked mask 1
         (Some [0; 1]) st) = Raise ValueError /\
  calls (snd (enlarge_mask 0 1 Examples.views (Z.ltb 0) Examples.output_checked mask 1
                (Some [0; 1]) st)) = 1%nat.
Proof. vm_compute. repeat split; reflexivity. Qed.

Lemma do_stack_calls_once_per_slice_witness :
  let a := Examples.arange [2; 3]%nat in
  let st := Examples.arange_store 6 in
  exists out st',
    do_stack 0 Examples.views Examples.identity 1 a tt None None st = (Ok out, st') /\
    calls st' = (calls st + size (slice_until_neg 1 (shape a)))%nat.
Proof.
  intros a st.
  destruct (do_stack 0 Examples.views Examples.identity 1 a tt None None st)
    as [[out|e] st'] eqn:E.
  - exists out, st'. split; [reflexivity|].
    exact (do_stack_calls_once_per_slice 0 Examples.views Examples.identity 1%nat a tt None
             out st st' E).
  - vm_compute in E. discriminate E.
Defined.

(** ** The shape do_stack returns when it allocates the output *)

Section DefaultOutput.

Context {A : Type} (zero : A) (reshape_copies : ndarray -> list nat -> bool).
Context {Args : Type} (func : varray A -> Args -> result (varray A)).

(** Over the trailing axes and with [output=None], what [do_stack] returns
    has the shape of the input. *)
Lemma do_stack_default_shape ndim a args out (st st' : state A) :
  (1 <= ndim)%nat ->
  do_stack zero reshape_copies func ndim a args None None st = (Ok out, st') ->
  shape out = shape a.
Proof.
  intros Hnd H.
  assert (ndim <= length (shape a))%nat as Hrank.
  { destruct (le_lt_dec ndim (length (shape a))) as [|Hlt]; [assumption|].
    destruct (do_stack_rank_too_small zero reshape_copies func ndim a args None None st Hlt)
      as [e [He _]].
    rewrite He in H. discriminate H. }
  unfold do_stack in H.
  assert (Forall (fun i => (i < ndim)%nat) (seq 0 ndim)) as Hks
    by (apply Forall_seq; intros; lia).
  apply bind_inv in H. destruct H as [a1 [st1 [H1 H]]].
  unfold lift in H1. injection H1 as Hswap _.
  pose proof (swap_loop_default_shape ndim _ _ _ Hks Hswap) as Hs1.
  apply bind_inv in H. destruct H as [o1 [st1' [H1 H]]].
  unfold np_zeros, alloc in H1. injection H1 as Ho1 _.
  assert (shape o1 = shape a) as Hso1 by (subst o1; exact Hs1).
  apply bind_inv in H. destruct H as [a2 [st2 [H2 H]]].
  apply bind_inv in H. destruct H as [o2 [st3 [H3 H]]].
  apply np_reshape_shape in H3. apply resolve_shape_stack_inv in H3.
  destruct H3 as [q Hso2].
  apply bind_inv in H. destruct H as [n [st4 [_ H]]].
  apply bind_inv in H. destruct H as [u [st5 [_ H]]].
  apply bind_inv in H. destruct H as [a3 [st6 [_ H]]].
  apply bind_inv in H. destruct H as [o3 [st7 [H7 H]]].
  apply np_reshape_shape in H7. apply resolve_shape_known_inv in H7.
  apply bind_inv in H. destruct H as [ao [st8 [H8 H]]].
  unfold lift in H8. injection H8 as Hreswap _.
  apply reswap_loop_default_shape in Hreswap; [|exact Hks]. simpl in Hreswap.
  unfold ret in H. injection H as Hout _. subst out.
  rewrite Hreswap, H7, Hs1, Hso2.
  rewrite (slice_from_neg_stacked ndim q (slice_from_neg ndim (shape o1))).
  - rewrite Hso1. apply until_from_neg.
  - exact Hnd.
  - rewrite Hso1. unfold slice_from_neg. destruct ndim; [lia|]. rewrite length_drop. lia.
Qed.

End DefaultOutput.

(** X8.  With the default axes, [ndim >= 1] and no output handed in, an
    array [do_stack] returns has the shape of the input array, whatever the
    function returns for the slices: their values are broadcast into the
    slots of an array allocated with that shape, or the call raises. *)
Theorem do_stack_default_output_has_input_shape
    {A : Type} (zero : A) (reshape_copies : ndarray -> list nat -> bool)
    {Args : Type} (func : varray A -> Args -> result (varray A))
    (ndim : nat) (array : ndarray) (args : Args) (out : ndarray) (st st' : state A) :
  (1 <= ndim)%nat ->
  do_stack zero reshape_copies func ndim array args None None st = (Ok out, st') ->
  shape out = shape array.
Proof. apply do_stack_default_shape. Qed.

Lemma do_stack_default_output_has_input_shape_witness :
  let a := Examples.arange [2; 3]%nat in
  exists out st',
    (1 <= 1)%nat /\
    do_stack 0 Examples.views Examples.identity 1 a tt None None (Examples.arange_store 6)
      = (Ok out, st') /\
    shape out = shape a.
Proof.
  intros a.
  destruct (do_stack 0 Examples.views Examples.identity 1 a tt None None
              (Examples.arange_store 6)) as [[out|e] st'] eqn:E.
  - exists out, st'. split; [lia|]. split; [reflexivity|].
    exact (do_stack_default_output_has_input_shape 0 Examples.views Examples.identity
             1%nat a tt out (Examples.arange_store 6) st' ltac:(lia) E).
  - vm_compute in E. discriminate E.
Defined.

(** X9.  With [ndim = 0] the slices [shape[:-0]] and [shape[-0:]] are the
    empty and the whole shape: the function is called once, on the whole
    array under one more leading axis, and an array [do_stack] returns has
    the shape of the input with a leading axis of length one added. *)
Theorem do_stack_ndim_0_adds_axis
    {A : Type} (zero : A) (reshape_copies : ndarray -> list nat -> bool)
    {Args : Type} (func : varray A -> Args -> result (varray A))
    (array : ndarray) (args : Args) (axes : option (list Z))
    (out : ndarray) (st st' : state A) :
  do_stack zero reshape_copies func 0 array args axes None st = (Ok out, st') ->
  shape out = 1%nat :: shape array /\ calls st' = S (calls st).
Proof.
  intros H.
  assert (calls st' = S (calls st)) as Hcalls.
  { assert (do_stack zero reshape_copies func 0 array args None None st = (Ok out, st'))
      as H' by (destruct axes; exact H).
    apply do_stack_default_calls in H'. rewrite H'. cbn. lia. }
  split; [|exact Hcalls].
  unfold do_stack in H. cbn [seq rfold slice_until_neg slice_from_neg] in H.
  apply bind_inv in H. destruct H as [a1 [st1 [H1 H]]].
  unfold lift in H1. injection H1 as <- <-.
  apply bind_inv in H. destruct H as [o1 [st1 [H1 H]]].
  unfold np_zeros, alloc in H1. injection H1 as <- <-.
  cbn [shape] in H.
  apply bind_inv in H. destruct H as [a2 [st2 [H2 H]]].
  apply np_reshape_shape in H2. apply resolve_shape_stack_quotient in H2.
  destruct H2 as [q [Hs2 [Hq Hnz]]].
  assert (q = 1%nat) as -> by nia.
  apply bind_inv in H. destruct H as [o2 [st3 [H3 H]]].
  apply np_reshape_shape in H3. apply resolve_shape_stack_quotient in H3.
  destruct H3 as [q' [Hso2 [Hq' _]]]. cbn [shape] in Hq'.
  assert (q' = 1%nat) as -> by nia.
  apply bind_inv in H. destruct H as [n [st4 [_ H]]].
  apply bind_inv in H. destruct H as [u [st5 [_ H]]].
  apply bind_inv in H. destruct H as [a3 [st6 [_ H]]].
  apply bind_inv in H. destruct H as [o3 [st7 [H7 H]]].
  apply np_reshape_shape in H7. cbn [app] in H7.
  apply resolve_shape_known_inv in H7.
  apply bind_inv in H. destruct H as [ao [st8 [H8 H]]].
  unfold lift in H8. injection H8 as <- <-.
  unfold ret in H. injection H as <- <-. cbn [snd].
  rewrite H7. exact Hso2.
Qed.

Lemma do_stack_ndim_0_adds_axis_witness :
  let a := Examples.arange [2; 3]%nat in
  let st := Examples.arange_store 6 in
  exists out st',
    do_stack 0 Examples.views Examples.identity 0 a tt None None st = (Ok out, st') /\
    shape out = 1%nat :: shape a /\ calls st' = S (calls st).
Proof.
  intros a st.
  destruct (do_stack 0 Examples.views Examples.identity 0 a tt None None st)
    as [[out|e] st'] eqn:E.
  - exists out, st'. split; [reflexivity|].
    exact (do_stack_ndim_0_adds_axis 0 Examples.views Examples.identity a tt None
             out st st' E).
  - vm_compute in E. discriminate E.
Defined.

(** X10.  A mask [enlarge_mask] returns has the shape of the mask it was
    given, whatever the convolution returns for the slices. *)
Theorem enlarge_mask_keeps_shape
    {A : Type} (zero one : A) (reshape_copies : ndarray -> list nat -> bool)
    (gt0 : A -> bool)
    (convolve : varray A -> varray A * option (list Z) -> result (varray A))
    (mask : barray) (n_neighbors : Z) (axes : option (list Z))
    (r : barray) (st st' : state A) :
  enlarge_mask zero one reshape_copies gt0 convolve mask n_neighbors axes st = (Ok r, st') ->
  bshape r = bshape mask.
Proof.
  intros H. unfold enlarge_mask in H.
  apply bind_inv in H. destruct H as [kernel [st1 [_ H]]].
  apply bind_inv in H. destruct H as [fmask [st2 [H2 H]]].
  unfold alloc in H2. injection H2 as <- <-.
  apply bind_inv in H. destruct H as [kv [st3 [_ H]]].
  apply bind_inv in H. destruct H as [out [st4 [H4 H]]].
  apply do_stack_default_shape in H4; [|lia]. cbn [shape] in H4.
  apply bind_inv in H. destruct H as [ov [st5 [H5 H]]].
  unfold get_contents in H5. injection H5 as <- <-.
  unfold ret in H. injection H as <- <-. cbn [bshape contents vshape]. exact H4.
Qed.

Lemma enlarge_mask_keeps_shape_witness :
  let mask := {| bshape := [2; 2; 3]%nat;
                 bdata := [false; false; false; false; true; false;
                           false; false; false; false; false; false] |} in
  let st := {| heap := []; calls := 0 |} in
  exists r st',
    enlarge_mask 0 1 Examples.views (Z.ltb 0) Examples.same_slice mask 1 None st
      = (Ok r, st') /\
    bshape r = bshape mask.
Proof.
  intros mask st.
  destruct (enlarge_mask 0 1 Examples.views (Z.ltb 0) Examples.same_slice mask 1 None st)
    as [[r|e] st'] eqn:E.
  - exists r, st'. split; [reflexivity|].
    exact (enlarge_mask_keeps_shape 0 1 Examples.views (Z.ltb 0) Examples.same_slice
             mask 1 None r st st' E).
  - vm_compute in E. discriminate E.
Defined.

(** ** The entries of [axes] that do_stack reads *)

Lemma rfold_ext_in {X S} (f g : S -> X -> result S) (l : list X) :
  (forall x, x ∈ l -> forall s, f s x = g s x) ->
  forall s, rfold f l s = rfold g l s.
Proof.
  induction l as [|x l IH]; intros H s; simpl; [reflexivity|].
  rewrite (H x) by (left; reflexivity).
  destruct (g s x) as [s'|e]; simpl; [|reflexivity].
  apply IH. intros y Hy. apply H. now right.
Qed.

Lemma py_getitem_take {X} (l : list X) (n i : nat) :
  (i < n)%nat -> py_getitem (take n l) (Z.of_nat i) = py_getitem l (Z.of_nat i).
Proof.
  intros Hi. destruct (l !! i) as [x|] eqn:E.
  - rewrite (py_getitem_lookup l i x E).
    apply py_getitem_lookup. now rewrite lookup_take_lt.
  - apply lookup_ge_None_1 in E.
    rewrite !py_getitem_out; [reflexivity|lia|rewrite length_take; lia].
Qed.

Lemma swap_ith_take (axes lastaxes : list Z) (n i : nat) a :
  (i < n)%nat -> swap_ith (take n axes) lastaxes a i = swap_ith axes lastaxes a i.
Proof. intros Hi. unfold swap_ith. now rewrite py_getitem_take. Qed.

Lemma swap_loop_take (axes lastaxes : list Z) (n : nat) a :
  rfold (swap_ith (take n axes) lastaxes) (seq 0 n) a
  = rfold (swap_ith axes lastaxes) (seq 0 n) a.
Proof.
  apply rfold_ext_in. intros i Hi s. apply swap_ith_take.
  apply elem_of_seq in Hi. lia.
Qed.

Lemma reswap_loop_take (axes lastaxes : list Z) (n : nat) ao :
  rfold (reswap_ith (take n axes) lastaxes) (seq 0 n) ao
  = rfold (reswap_ith axes lastaxes) (seq 0 n) ao.
Proof.
  apply rfold_ext_in. intros i Hi s. unfold reswap_ith.
  apply elem_of_seq in Hi. now rewrite !swap_ith_take by lia.
Qed.

(** X11.  [do_stack] reads the first [ndim] entries of [axes] and no other:
    the call with a longer selection is the call with its first [ndim]
    entries, in what it returns or raises and in the store it leaves. *)
Theorem do_stack_reads_first_ndim_axes
    {A : Type} (zero : A) (reshape_copies : ndarray -> list nat -> bool)
    {Args : Type} (func : varray A -> Args -> result (varray A))
    (ndim : nat) (array : ndarray) (args : Args) (axes : list Z)
    (output : option ndarray) (st : state A) :
  do_stack zero reshape_copies func ndim array args (Some axes) output st
  = do_stack zero reshape_copies func ndim array args (Some (take ndim axes)) output st.
Proof.
  unfold do_stack. rewrite swap_loop_take.
  repeat (apply bind_ext; [reflexivity|]; intros ? ?).
  apply bind_ext; [|reflexivity].
  intros ?. unfold lift. now rewrite reswap_loop_take.
Qed.

(** ** The kernel of get_circle_kernel *)

(** [+] on floats is commutative. *)
Lemma SFadd_comm (x y : spec_float) : SFadd prec emax x y = SFadd prec emax y x.
Proof.
  destruct x as [sx|sx| |sx mx ex], y as [sy|sy| |sy my ey]; try reflexivity;
    try (destruct sx, sy; reflexivity).
  unfold SFadd. rewrite (Z.min_comm ex ey). f_equal. apply Z.add_comm.
Qed.

Lemma float_add_comm (x y : float) : PrimFloat.add x y = PrimFloat.add y x.
Proof.
  apply Prim2SF_inj. rewrite !add_spec. apply SFadd_comm.
Qed.

Lemma float_of_int_raises z e : PyNum.float_of_int z = Raise e -> e = OverflowError.
Proof.
  unfold PyNum.float_of_int. destruct (is_infinity _); [|discriminate].
  intros H. now injection H.
Qed.

Lemma float_sq_raises f e : PyNum.float_sq f = Raise e -> e = OverflowError.
Proof.
  unfold PyNum.float_sq. destruct (_ && _); [|discriminate].
  intros H. now injection H.
Qed.

(** The test of [get_circle_kernel] does not tell [(i, j)] from [(j, i)]. *)
Lemma in_circle_sym (n i j : Z) : in_circle n i j = in_circle n j i.
Proof.
  unfold in_circle.
  destruct (PyNum.int_truediv (n - 1) 2) as [h|e]; cbn [rbind]; [|reflexivity].
  destruct (PyNum.float_of_int i) as [fi|e1] eqn:E1;
    destruct (PyNum.float_of_int j) as [fj|e2] eqn:E2; cbn [rbind];
    try (apply float_of_int_raises in E1; subst e1);
    try (apply float_of_int_raises in E2; subst e2).
  - destruct (PyNum.float_sq (PrimFloat.sub fi h)) as [a|e3] eqn:E3;
      destruct (PyNum.float_sq (PrimFloat.sub fj h)) as [b|e4] eqn:E4; cbn [rbind];
      try (apply float_sq_raises in E3; subst e3);
      try (apply float_sq_raises in E4; subst e4); try reflexivity.
    destruct (PyNum.int_truediv n 2) as [r|e]; cbn [rbind]; [|reflexivity].
    destruct (PyNum.float_sq r) as [r2|e]; cbn [rbind]; [|reflexivity].
    now rewrite float_add_comm.
  - destruct (PyNum.float_sq (PrimFloat.sub fi h)) as [a|e3] eqn:E3; cbn [rbind];
      [reflexivity|]. apply float_sq_raises in E3. now subst e3.
  - destruct (PyNum.float_sq (PrimFloat.sub fj h)) as [b|e4] eqn:E4; cbn [rbind];
      [reflexivity|]. apply float_sq_raises in E4. now subst e4.
  - reflexivity.
Qed.

Section KernelFacts.

Context {A : Type} (zero one : A).

Lemma ravel_square (N i j : nat) : ravel [N; N] [i; j] = (i * N + j)%nat.
Proof. cbn [ravel size foldr]. lia. Qed.

Lemma poke_lookup (h : list (list A)) b p (x : A) d :
  h !! b = Some d -> poke b p x h !! b = Some (<[p := x]> d).
Proof.
  intros Hb. unfold poke. rewrite list_lookup_alter_eq, Hb. reflexivity.
Qed.

(** One cell: the buffer of the kernel after [kernel[i, j] = ...]. *)
Lemma kernel_cell (n : Z) (N : nat) kernel (i j : nat) (st st' : state A) d :
  shape kernel = [N; N] -> idx kernel = seq 0 (N * N) ->
  (i < N)%nat -> (j < N)%nat ->
  heap st !! buf kernel = Some d -> length d = (N * N)%nat ->
  bind (lift (in_circle n (Z.of_nat i) (Z.of_nat j)))
    (fun c => set_cell kernel i j (of_bool zero one c)) st = (Ok tt, st') ->
  exists c,
    in_circle n (Z.of_nat i) (Z.of_nat j) = Ok c /\
    heap st' !! buf kernel = Some (<[(i * N + j)%nat := of_bool zero one c]> d).
Proof.
  intros Hs Hi Hin Hjn Hd Hl H.
  apply bind_inv in H. destruct H as [c [st1 [H1 H]]].
  unfold lift in H1. injection H1 as Hc <-.
  exists c. split; [exact Hc|].
  unfold set_cell in H. rewrite Hs, Hi, ravel_square in H.
  rewrite lookup_seq_lt in H by nia. cbn [Nat.add] in H.
  injection H as <-. cbn [heap]. now apply poke_lookup.
Qed.

(** Row [i] from column [j] on. *)
Lemma kernel_row (n : Z) (N : nat) kernel (i : nat) :
  shape kernel = [N; N] -> idx kernel = seq 0 (N * N) -> (i < N)%nat ->
  forall c j (st st' : state A) d,
  (j + c = N)%nat ->
  heap st !! buf kernel = Some d -> length d = (N * N)%nat ->
  for_each (seq j c)
    (fun j => bind (lift (in_circle n (Z.of_nat i) (Z.of_nat j)))
                 (fun c => set_cell kernel i j (of_bool zero one c))) st
    = (Ok tt, st') ->
  exists d',
    heap st' !! buf kernel = Some d' /\ length d' = (N * N)%nat /\
    (forall p, (p < i * N + j \/ i * N + N <= p)%nat -> d' !! p = d !! p) /\
    (forall j', (j <= j' < N)%nat ->
       exists b, in_circle n (Z.of_nat i) (Z.of_nat j') = Ok b /\
                 d' !! (i * N + j')%nat = Some (of_bool zero one b)).
Proof.
  intros Hs Hi Hin.
  induction c as [|c IH]; intros j st st' d Hj Hd Hl H.
  - cbn [seq for_each] in H. unfold ret in H. injection H as <-.
    exists d. split; [exact Hd|]. split; [exact Hl|]. split; [reflexivity|].
    intros j' Hj'. lia.
  - cbn [seq for_each] in H.
    apply bind_inv in H. destruct H as [[] [st1 [H1 H]]].
    destruct (kernel_cell n N kernel i j st st1 d Hs Hi Hin ltac:(lia) Hd Hl H1)
      as [b [Hb Hd1]].
    destruct (IH (S j) st1 st' _ ltac:(lia) Hd1 ltac:(now rewrite length_insert) H)
      as [d' [Hd' [Hl' [Hout Hrow]]]].
    exists d'. split; [exact Hd'|]. split; [exact Hl'|]. split.
    + intros p Hp. rewrite Hout by lia. apply list_lookup_insert_ne. lia.
    + intros j' Hj'. destruct (decide (j' = j)) as [->|Hne].
      * exists b. split; [exact Hb|]. rewrite Hout by lia.
        apply list_lookup_insert_eq. nia.
      * apply Hrow. lia.
Qed.

(** The rows from [i] on. *)
Lemma kernel_rows (n : Z) (N : nat) kernel :
  shape kernel = [N; N] -> idx kernel = seq 0 (N * N) ->
  forall c i (st st' : state A) d,
  (i + c = N)%nat ->
  heap st !! buf kernel = Some d -> length d = (N * N)%nat ->
  for_each (seq i c)
    (fun i => for_each (seq 0 N)
       (fun j => bind (lift (in_circle n (Z.of_nat i) (Z.of_nat j)))
                   (fun c => set_cell kernel i j (of_bool zero one c)))) st
    = (Ok tt, st') ->
  exists d',
    heap st' !! buf kernel = Some d' /\ length d' = (N * N)%nat /\
    (forall p, (p < i * N)%nat -> d' !! p = d !! p) /\
    (forall i' j', (i <= i' < N)%nat -> (j' < N)%nat ->
       exists b, in_circle n (Z.of_nat i') (Z.of_nat j') = Ok b /\
                 d' !! (i' * N + j')%nat = Some (of_bool zero one b)).
Proof.
  intros Hs Hi.
  induction c as [|c IH]; intros i st st' d Hic Hd Hl H.
  - cbn [seq for_each] in H. unfold ret in H. injection H as <-.
    exists d. split; [exact Hd|]. split; [exact Hl|]. split; [reflexivity|].
    intros i' j' Hi'. lia.
  - cbn [seq for_each] in H.
    apply bind_inv in H. destruct H as [[] [st1 [H1 H]]].
    destruct (kernel_row n N kernel i Hs Hi ltac:(lia) N 0%nat st st1 d
                ltac:(lia) Hd Hl H1) as [d1 [Hd1 [Hl1 [Hout1 Hrow1]]]].
    destruct (IH (S i) st1 st' d1 ltac:(lia) Hd1 Hl1 H)
      as [d' [Hd' [Hl' [Hout Hrows]]]].
    exists d'. split; [exact Hd'|]. split; [exact Hl'|]. split.
    + intros p Hp. rewrite Hout by lia. apply Hout1. lia.
    + intros i' j' Hi' Hj'. destruct (decide (i' = i)) as [->|Hne].
      * destruct (Hrow1 j' ltac:(lia)) as [b [Hb Hcell]].
        exists b. split; [exact Hb|]. rewrite Hout by nia. exact Hcell.
      * apply Hrows; lia.
Qed.

(** The kernel a call returns: entry [(i, j)] is the outcome of the test,
    as [1.] or [0.]. *)
Lemma get_circle_kernel_entries (n : Z) (kernel : ndarray) (st st' : state A) :
  get_circle_kernel zero one n st = (Ok kernel, st') ->
  let N := Z.to_nat n in
  0 <= n /\ shape kernel = [N; N] /\
  forall i j, (i < N)%nat -> (j < N)%nat ->
    exists b, in_circle n (Z.of_nat i) (Z.of_nat j) = Ok b /\
              vdata (contents zero (heap st') kernel) !! (i * N + j)%nat
              = Some (of_bool zero one b).
Proof.
  intros H N. unfold get_circle_kernel in H.
  destruct (Z.ltb_spec n 0) as [|Hn]; [discriminate|]. split; [exact Hn|].
  apply bind_inv in H. destruct H as [k [st1 [H1 H]]].
  apply bind_inv in H. destruct H as [[] [st2 [H2 H]]].
  unfold ret in H. injection H as <- <-. fold N in H1, H2.
  assert (size [N; N] = (N * N)%nat) as Hsz by (cbn [size foldr]; lia).
  unfold np_zeros, alloc in H1. rewrite length_replicate, Hsz in H1.
  injection H1 as Hk Hst1.
  assert (shape k = [N; N]) as Hs by (now rewrite <- Hk).
  assert (idx k = seq 0 (N * N)) as Hidx by (now rewrite <- Hk).
  assert (heap st1 !! buf k = Some (replicate (N * N) zero)) as Hd.
  { rewrite <- Hk, <- Hst1. cbn [heap buf]. now apply list_lookup_middle. }
  split; [exact Hs|].
  destruct (kernel_rows n N k Hs Hidx N 0%nat st1 st2 (replicate (N * N) zero)
              ltac:(lia) Hd ltac:(now rewrite length_replicate) H2)
    as [d' [Hd' [Hl' [_ Hrows]]]].
  intros i j Hi Hj. destruct (Hrows i j ltac:(lia) Hj) as [b [Hb Hcell]].
  exists b. split; [exact Hb|].
  unfold contents. cbn [vdata]. rewrite list_lookup_fmap, Hidx.
  rewrite lookup_seq_lt by nia. cbn [fmap option_fmap option_map Nat.add].
  unfold peek. rewrite Hd'. cbn [mbind option_bind]. rewrite Hcell. reflexivity.
Qed.

End KernelFacts.

(** X12.  The kernel [get_circle_kernel(n)] returns is an [n x n] array of
    zeros and ones that equals its transpose: the entries [(i, j)] and
    [(j, i)] are both [1.] when [(i, j)] passes the test of the disc and
    both [0.] when it does not. *)
Theorem get_circle_kernel_symmetric {A : Type} (zero one : A) (n : Z)
    (kernel : ndarray) (st st' : state A) :
  get_circle_kernel zero one n st = (Ok kernel, st') ->
  let N := Z.to_nat n in
  let entry i j := vdata (contents zero (heap st') kernel) !! (i * N + j)%nat in
  shape kernel = [N; N] /\
  forall i j, (i < N)%nat -> (j < N)%nat ->
    exists b, in_circle n (Z.of_nat i) (Z.of_nat j) = Ok b /\
              entry i j = Some (of_bool zero one b) /\
              entry j i = Some (of_bool zero one b).
Proof.
  intros H N entry.
  destruct (get_circle_kernel_entries zero one n kernel st st' H) as [_ [Hs Hent]].
  split; [exact Hs|].
  intros i j Hi Hj.
  destruct (Hent i j Hi Hj) as [b [Hb Hij]].
  destruct (Hent j i Hj Hi) as [b' [Hb' Hji]].
  rewrite in_circle_sym, Hb in Hb'. injection Hb' as <-.
  exists b. now repeat split.
Qed.

Lemma get_circle_kernel_symmetric_witness :
  let st := {| heap := []; calls := 0 |} in
  exists kernel st',
    get_circle_kernel 0 1 5 st = (Ok kernel, st') /\
    let N := Z.to_nat 5 in
    let entry i j := vdata (contents 0 (heap st') kernel) !! (i * N + j)%nat in
    shape kernel = [N; N] /\
    forall i j, (i < N)%nat -> (j < N)%nat ->
      exists b, in_circle 5 (Z.of_nat i) (Z.of_nat j) = Ok b /\
                entry i j = Some (of_bool 0 1 b) /\
                entry j i = Some (of_bool 0 1 b).
Proof.
  intros st.
  destruct (get_circle_kernel 0 1 5 st) as [[kernel|e] st'] eqn:E.
  - exists kernel, st'. split; [reflexivity|].
    exact (get_circle_kernel_symmetric 0 1 5 kernel st st' E).
  - vm_compute in E. discriminate E.
Defined.

(** The kernel of size 5, as [enlarge_mask] builds it for two neighbours. *)
Lemma get_circle_kernel_5 :
  Examples.returned (get_circle_kernel 0 1 5 {| heap := []; calls := 0 |})
  = Ok {| vshape := [5; 5]%nat;
          vdata := [0; 1; 1; 1; 0;
                    1; 1; 1; 1; 1;
                    1; 1; 1; 1; 1;
                    1; 1; 1; 1; 1;
                    0; 1; 1; 1; 0] |}.
Proof. vm_compute. reflexivity. Qed.

(** ** get_closest *)

Section ClosestFacts.

Context {num : Type}.
Variable lt le eq : num -> num -> bool.
Variable sub : num -> num -> result num.

Lemma midpoint_floor lo hi : lo < hi -> lo <= (lo + hi) / 2 < hi.
Proof.
  intros H. split.
  - apply Z.div_le_lower_bound; lia.
  - apply Z.div_lt_upper_bound; lia.
Qed.

Lemma py_getitem_nonneg {X} (l : list X) i :
  0 <= i < Z.of_nat (length l) ->
  exists x, l !! Z.to_nat i = Some x /\ py_getitem l i = Ok x.
Proof.
  intros Hi. destruct (lookup_lt_is_Some_2 l (Z.to_nat i) ltac:(lia)) as [x Hx].
  exists x. split; [exact Hx|].
  replace i with (Z.of_nat (Z.to_nat i)) at 1 by lia. now apply py_getitem_lookup.
Qed.

(** The loop ends inside the window it starts from. *)
Lemma bisect_loop_bounds (a : list num) (x : num) fuel : forall lo hi,
  0 <= lo <= hi -> hi <= Z.of_nat (length a) -> hi - lo <= Z.of_nat fuel ->
  exists p, bisect_loop lt fuel a x lo hi = Ok p /\ lo <= p <= hi.
Proof.
  induction fuel as [|fuel IH]; intros lo hi Hlo Hhi Hf; simpl.
  - exists lo. split; [reflexivity|lia].
  - destruct (Z.ltb_spec lo hi) as [Hlt|Hge]; [|exists lo; split; [reflexivity|lia]].
    pose proof (midpoint_floor lo hi Hlt) as Hm.
    destruct (py_getitem_nonneg a ((lo + hi) / 2) ltac:(lia)) as [am [_ Ham]]; rewrite Ham. simpl.
    destruct (lt am x).
    + destruct (IH ((lo + hi) / 2 + 1) hi) as [p [Hp Hb]]; try lia.
      exists p. split; [exact Hp|lia].
    + destruct (IH lo ((lo + hi) / 2)) as [p [Hp Hb]]; try lia.
      exists p. split; [exact Hp|lia].
Qed.

Lemma bisect_left_bounds (a : list num) (x : num) :
  exists p, bisect_left lt a x = Ok p /\ 0 <= p <= Z.of_nat (length a).
Proof. apply bisect_loop_bounds; lia. Qed.

Lemma loc_cases loc :
  loc ∈ loc_opt -> loc = "left"%string \/ loc = "right"%string \/ loc = "closest"%string.
Proof.
  unfold loc_opt. intros H.
  repeat (apply elem_of_cons in H; destruct H as [H|H]; [tauto|]).
  now apply elem_of_nil in H.
Qed.

End ClosestFacts.

(** X13.  [get_closest] raises [ValueError] for a [loc] other than ['left'],
    ['right'], ['closest'], and for nothing else when [-] does not raise;
    what it returns is never [None] but an index of [L], or [0] when [L]
    is empty.  This holds for every list, sorted or not. *)
Theorem get_closest_returns_index {num : Type} (lt le eq : num -> num -> bool)
    (sub : num -> num -> result num) (L : list num) (elt : num) (loc : string) :
  (forall a b, is_ok (sub a b)) ->
  match get_closest lt le eq sub L elt loc with
  | Ok r => loc ∈ loc_opt /\
            exists p, r = Some p /\ 0 <= p /\
                      (p < Z.of_nat (length L) \/ (L = [] /\ p = 0))
  | Raise e => e = ValueError /\ loc ∉ loc_opt
  end.
Proof.
  intros Hsub. unfold get_closest.
  destruct (bool_decide_reflect (loc ∈ loc_opt)) as [Hloc|Hloc]; cbn [negb]; [|now split].
  destruct (bisect_left_bounds lt L elt) as [pos [Hbis Hpos]]; rewrite Hbis. cbn [rbind].
  destruct (Z.eqb_spec pos 0) as [->|Hp0].
  { split; [exact Hloc|]. exists 0. split; [reflexivity|]. split; [lia|].
    destruct L; [right; now split|left; simpl; lia]. }
  destruct (Z.eqb_spec pos (Z.of_nat (length L))) as [Hpn|Hpn].
  { split; [exact Hloc|]. eexists. split; [reflexivity|]. lia. }
  destruct (py_getitem_nonneg L pos ltac:(lia)) as [r [_ Hr]].
  destruct (py_getitem_nonneg L (pos - 1) ltac:(lia)) as [l [_ Hl]].
  destruct (loc_cases loc Hloc) as [ -> | [ -> | -> ]]; cbn [String.eqb Ascii.eqb Bool.eqb].
  - rewrite Hr. cbn [rbind].
    destruct (eq elt r); (split; [exact Hloc|]); eexists; (split; [reflexivity|]); lia.
  - split; [exact Hloc|]. eexists. split; [reflexivity|]. lia.
  - rewrite Hl, Hr. cbn [rbind].
    pose proof (Hsub elt l) as H1. destruct (sub elt l) as [dl|]; [|contradiction].
    pose proof (Hsub r elt) as H2. destruct (sub r elt) as [dr|]; [|contradiction].
    cbn [rbind].
    destruct (le dl dr); (split; [exact Hloc|]); eexists; (split; [reflexivity|]); lia.
Qed.

Lemma get_closest_returns_index_witness :
  (forall a b, is_ok (IntSeq.sub a b)) /\
  match IntSeq.get_closest [1; 3; 7] 4 "closest" with
  | Ok r => "closest"%string ∈ loc_opt /\
            exists p, r = Some p /\ 0 <= p /\
                      (p < Z.of_nat (length [1; 3; 7]) \/ ([1; 3; 7] = [] /\ p = 0))
  | Raise e => e = ValueError /\ "closest"%string ∉ loc_opt
  end.
Proof.
  assert (forall a b, is_ok (IntSeq.sub a b)) as Hsub by (intros; exact I).
  split; [exact Hsub|].
  exact (get_closest_returns_index Z.ltb Z.leb Z.eqb IntSeq.sub [1; 3; 7] 4 "closest" Hsub).
Defined.

(** *** On an ascending list of integers *)

Lemma ascending_elem (L : list Z) i a w :
  ascending L -> L !! i = Some a -> w ∈ L ->
  (exists j, L !! j = Some w /\ (j < i)%nat /\ w <= a) \/
  (exists j, L !! j = Some w /\ (i <= j)%nat /\ a <= w).
Proof.
  intros Hasc Ha Hw. apply list_elem_of_lookup_1 in Hw. destruct Hw as [j Hj].
  destruct (le_lt_dec i j) as [Hij|Hji].
  - right. exists j. repeat split; try assumption. eapply Hasc; eauto.
  - left. exists j. repeat split; try assumption. eapply (Hasc j i); eauto. lia.
Qed.

(** On an ascending list the loop ends at the insertion point: the entries
    before it are smaller than [x], those from it on are not. *)
Lemma bisect_loop_ascending (L : list Z) (x : Z) (Hasc : ascending L) fuel : forall lo hi,
  0 <= lo <= hi -> hi <= Z.of_nat (length L) -> hi - lo <= Z.of_nat fuel ->
  (forall i v, Z.of_nat i < lo -> L !! i = Some v -> v < x) ->
  (forall i v, hi <= Z.of_nat i -> L !! i = Some v -> x <= v) ->
  exists p, bisect_loop Z.ltb fuel L x lo hi = Ok p /\ lo <= p <= hi /\
            (forall i v, Z.of_nat i < p -> L !! i = Some v -> v < x) /\
            (forall i v, p <= Z.of_nat i -> L !! i = Some v -> x <= v).
Proof.
  induction fuel as [|fuel IH]; intros lo hi Hlo Hhi Hf Hbelow Habove; simpl.
  - exists lo. split; [reflexivity|]. split; [lia|]. split; [exact Hbelow|].
    intros i v Hi. apply Habove. lia.
  - destruct (Z.ltb_spec lo hi) as [Hlt|Hge].
    2: { exists lo. split; [reflexivity|]. split; [lia|]. split; [exact Hbelow|].
         intros i v Hi. apply Habove. lia. }
    pose proof (midpoint_floor lo hi Hlt) as Hm.
    destruct (py_getitem_nonneg L ((lo + hi) / 2) ltac:(lia)) as [am [Ham Hget]]; rewrite Hget. simpl.
    destruct (Z.ltb_spec am x) as [Hc|Hc].
    + destruct (IH ((lo + hi) / 2 + 1) hi) as [p [Hp [Hb [H1 H2]]]]; try lia; try assumption.
      { intros i v Hi Hv. assert (v <= am); [|lia].
        eapply (Hasc i (Z.to_nat ((lo + hi) / 2))); eauto. lia. }
      exists p. split; [exact Hp|]. split; [lia|]. now split.
    + destruct (IH lo ((lo + hi) / 2)) as [p [Hp [Hb [H1 H2]]]]; try lia; try assumption.
      { intros i v Hi Hv. assert (am <= v); [|lia].
        eapply (Hasc (Z.to_nat ((lo + hi) / 2)) i); eauto. lia. }
      exists p. split; [exact Hp|]. split; [lia|]. now split.
Qed.

Lemma bisect_left_ascending (L : list Z) (x : Z) :
  ascending L ->
  exists p, bisect_left Z.ltb L x = Ok p /\ 0 <= p <= Z.of_nat (length L) /\
            (forall i v, Z.of_nat i < p -> L !! i = Some v -> v < x) /\
            (forall i v, p <= Z.of_nat i -> L !! i = Some v -> x <= v).
Proof.
  intros Hasc. apply bisect_loop_ascending; try assumption; try lia.
  intros i v Hi Hv. apply lookup_lt_Some in Hv. lia.
Qed.

(** Where the entries of an ascending list lie with respect to the
    insertion point [pos] of [elt]. *)
Lemma insertion_point_sides (L : list Z) (elt pos : Z) :
  ascending L ->
  (forall i v, Z.of_nat i < pos -> L !! i = Some v -> v < elt) ->
  (forall i v, pos <= Z.of_nat i -> L !! i = Some v -> elt <= v) ->
  forall w, w ∈ L ->
    (w < elt /\ forall l, 0 < pos -> L !! Z.to_nat (pos - 1) = Some l -> w <= l) \/
    (elt <= w /\ forall r, 0 <= pos -> L !! Z.to_nat pos = Some r -> r <= w).
Proof.
  intros Hasc Hbelow Habove w Hw.
  apply list_elem_of_lookup_1 in Hw. destruct Hw as [j Hj].
  destruct (Z.ltb_spec (Z.of_nat j) pos) as [Hjp|Hjp].
  - left. split; [eapply Hbelow; eauto|].
    intros l Hp Hl. eapply (Hasc j (Z.to_nat (pos - 1))); eauto. lia.
  - right. split; [eapply Habove; eauto|].
    intros r Hp Hr. eapply (Hasc (Z.to_nat pos) j); eauto. lia.
Qed.

Ltac closest_start :=
  unfold IntSeq.get_closest, get_closest;
  match goal with
  | |- context [bool_decide (?s ∈ loc_opt)] =>
      replace (bool_decide (s ∈ loc_opt)) with true
        by (symmetry; apply bool_decide_eq_true; unfold loc_opt; set_solver)
  end;
  cbn [negb].

(** X14.  On a non-empty ascending list of Python integers,
    [get_closest(L, elt)] returns the index of an entry closest to [elt]:
    no entry of [L] is nearer, and of the entries as near none is smaller. *)
Theorem get_closest_closest_is_nearest (L : list Z) (elt : Z) :
  ascending L -> L <> [] ->
  exists p v,
    IntSeq.get_closest L elt "closest" = Ok (Some p) /\
    0 <= p /\ L !! Z.to_nat p = Some v /\
    forall w, w ∈ L ->
      Z.abs (v - elt) <= Z.abs (w - elt) /\
      (Z.abs (w - elt) = Z.abs (v - elt) -> v <= w).
Proof.
  intros Hasc Hne.
  assert (0 < Z.of_nat (length L)) as Hlen by (destruct L; [contradiction|simpl; lia]).
  closest_start.
  destruct (bisect_left_ascending L elt Hasc) as [pos [Hbis [Hpos [Hbelow Habove]]]].
  rewrite Hbis. cbn [rbind].
  pose proof (insertion_point_sides L elt pos Hasc Hbelow Habove) as Hside.
  destruct (Z.eqb_spec pos 0) as [Hp0|Hp0].
  { destruct (py_getitem_nonneg L pos ltac:(lia)) as [r [Hr _]].
    exists pos, r. split; [reflexivity|]. split; [lia|]. split; [exact Hr|].
    intros w Hw. pose proof (Habove (Z.to_nat pos) r ltac:(lia) Hr).
    destruct (Hside w Hw) as [[H1 _]|[H1 H2]].
    - apply list_elem_of_lookup_1 in Hw. destruct Hw as [j Hj].
      pose proof (Habove j w ltac:(lia) Hj). lia.
    - specialize (H2 r ltac:(lia) Hr). lia. }
  destruct (Z.eqb_spec pos (Z.of_nat (length L))) as [Hpn|Hpn].
  { destruct (py_getitem_nonneg L (pos - 1) ltac:(lia)) as [l [Hl _]].
    exists (Z.of_nat (length L) - 1), l. rewrite <- Hpn.
    split; [reflexivity|]. split; [lia|]. split; [exact Hl|].
    intros w Hw. pose proof (Hbelow (Z.to_nat (pos - 1)) l ltac:(lia) Hl).
    destruct (Hside w Hw) as [[H1 H2]|[H1 _]].
    - specialize (H2 l ltac:(lia) Hl). lia.
    - apply list_elem_of_lookup_1 in Hw. destruct Hw as [j Hj].
      pose proof (lookup_lt_Some _ _ _ Hj). pose proof (Hbelow j w ltac:(lia) Hj). lia. }
  destruct (py_getitem_nonneg L pos ltac:(lia)) as [r [Hr Hgr]].
  destruct (py_getitem_nonneg L (pos - 1) ltac:(lia)) as [l [Hl Hgl]].
  cbn [String.eqb Ascii.eqb Bool.eqb]. rewrite Hgl, Hgr. cbn [rbind IntSeq.sub].
  pose proof (Hbelow (Z.to_nat (pos - 1)) l ltac:(lia) Hl). pose proof (Habove (Z.to_nat pos) r ltac:(lia) Hr).
  destruct (Z.leb_spec (elt - l) (r - elt)) as [Hc|Hc].
  - exists (pos - 1), l. split; [reflexivity|]. split; [lia|]. split; [exact Hl|].
    intros w Hw. destruct (Hside w Hw) as [[H1 H2]|[H1 H2]].
    + specialize (H2 l ltac:(lia) Hl). lia.
    + specialize (H2 r ltac:(lia) Hr). lia.
  - exists pos, r. split; [reflexivity|]. split; [lia|]. split; [exact Hr|].
    intros w Hw. destruct (Hside w Hw) as [[H1 H2]|[H1 H2]].
    + specialize (H2 l ltac:(lia) Hl). lia.
    + specialize (H2 r ltac:(lia) Hr). lia.
Qed.

Lemma ascending_1_3_7 : ascending [1; 3; 7].
Proof.
  intros i j a b Hij Ha Hb.
  destruct i as [|[|[|i]]]; destruct j as [|[|[|j]]]; simpl in Ha, Hb;
    try discriminate; try lia; injection Ha as <-; injection Hb as <-; lia.
Defined.

Lemma get_closest_closest_is_nearest_witness :
  ascending [1; 3; 7] /\ [1; 3; 7] <> [] /\
  exists p v,
    IntSeq.get_closest [1; 3; 7] 5 "closest" = Ok (Some p) /\
    0 <= p /\ [1; 3; 7] !! Z.to_nat p = Some v /\
    forall w, w ∈ [1; 3; 7] ->
      Z.abs (v - 5) <= Z.abs (w - 5) /\
      (Z.abs (w - 5) = Z.abs (v - 5) -> v <= w).
Proof.
  split; [exact ascending_1_3_7|]. split; [discriminate|].
  exact (get_closest_closest_is_nearest [1; 3; 7] 5 ascending_1_3_7 ltac:(discriminate)).
Defined.

(** X15.  On a non-empty ascending list of Python integers, [loc='left']
    gives the index of the greatest entry not above [elt] when there is
    one, and [0] when every entry is above [elt]. *)
Theorem get_closest_left_is_floor (L : list Z) (elt : Z) :
  ascending L -> L <> [] ->
  exists p v,
    IntSeq.get_closest L elt "left" = Ok (Some p) /\
    0 <= p /\ L !! Z.to_nat p = Some v /\
    (forall w, w ∈ L -> w <= elt -> w <= v /\ v <= elt) /\
    ((forall w, w ∈ L -> elt < w) -> p = 0).
Proof.
  intros Hasc Hne.
  assert (0 < Z.of_nat (length L)) as Hlen by (destruct L; [contradiction|simpl; lia]).
  closest_start.
  destruct (bisect_left_ascending L elt Hasc) as [pos [Hbis [Hpos [Hbelow Habove]]]].
  rewrite Hbis. cbn [rbind].
  pose proof (insertion_point_sides L elt pos Hasc Hbelow Habove) as Hside.
  assert ((forall w, w ∈ L -> elt < w) -> pos = 0) as Hall.
  { intros Hw. destruct (Z.eq_dec pos 0) as [|Hnz]; [assumption|exfalso].
    destruct (lookup_lt_is_Some_2 L 0 ltac:(lia)) as [v0 H0].
    pose proof (Hbelow 0%nat v0 ltac:(lia) H0).
    pose proof (Hw v0 ltac:(eapply list_elem_of_lookup_2; eauto)). lia. }
  destruct (Z.eqb_spec pos 0) as [Hp0|Hp0].
  { destruct (py_getitem_nonneg L pos ltac:(lia)) as [r [Hr _]].
    exists pos, r. split; [reflexivity|]. split; [lia|]. split; [exact Hr|].
    split; [|intros; exact Hp0].
    intros w Hw Hle. pose proof (Habove (Z.to_nat pos) r ltac:(lia) Hr).
    assert (elt <= w) as Hew.
    { apply list_elem_of_lookup_1 in Hw. destruct Hw as [j Hj].
      apply (Habove j w); [lia|exact Hj]. }
    destruct (Hside w Hw) as [[H1 _]|[H1 H2]]; [lia|].
    specialize (H2 r ltac:(lia) Hr). lia. }
  destruct (Z.eqb_spec pos (Z.of_nat (length L))) as [Hpn|Hpn].
  { destruct (py_getitem_nonneg L (pos - 1) ltac:(lia)) as [l [Hl _]].
    exists (Z.of_nat (length L) - 1), l. rewrite <- Hpn.
    split; [reflexivity|]. split; [lia|]. split; [exact Hl|].
    split; [|intros Hw; specialize (Hall Hw); lia].
    intros w Hw Hle. pose proof (Hbelow (Z.to_nat (pos - 1)) l ltac:(lia) Hl).
    destruct (Hside w Hw) as [[H1 H2]|[H1 _]].
    - specialize (H2 l ltac:(lia) Hl). lia.
    - apply list_elem_of_lookup_1 in Hw. destruct Hw as [j Hj].
      pose proof (lookup_lt_Some _ _ _ Hj). pose proof (Hbelow j w ltac:(lia) Hj). lia. }
  destruct (py_getitem_nonneg L pos ltac:(lia)) as [r [Hr Hgr]].
  destruct (py_getitem_nonneg L (pos - 1) ltac:(lia)) as [l [Hl Hgl]].
  cbn [String.eqb Ascii.eqb Bool.eqb]. rewrite Hgr. cbn [rbind].
  pose proof (Hbelow (Z.to_nat (pos - 1)) l ltac:(lia) Hl). pose proof (Habove (Z.to_nat pos) r ltac:(lia) Hr).
  destruct (Z.eqb_spec elt r) as [Hc|Hc].
  - exists pos, r. split; [reflexivity|]. split; [lia|]. split; [exact Hr|].
    split; [|intros Hw; specialize (Hall Hw); lia].
    intros w Hw Hle. lia.
  - exists (pos - 1), l. split; [reflexivity|]. split; [lia|]. split; [exact Hl|].
    split; [|intros Hw; specialize (Hall Hw); lia].
    intros w Hw Hle. destruct (Hside w Hw) as [[H1 H2]|[H1 H2]].
    + specialize (H2 l ltac:(lia) Hl). lia.
    + specialize (H2 r ltac:(lia) Hr). lia.
Qed.

Lemma get_closest_left_is_floor_witness :
  ascending [1; 3; 7] /\ [1; 3; 7] <> [] /\
  exists p v,
    IntSeq.get_closest [1; 3; 7] 5 "left" = Ok (Some p) /\
    0 <= p /\ [1; 3; 7] !! Z.to_nat p = Some v /\
    (forall w, w ∈ [1; 3; 7] -> w <= 5 -> w <= v /\ v <= 5) /\
    ((forall w, w ∈ [1; 3; 7] -> 5 < w) -> p = 0).
Proof.
  split; [exact ascending_1_3_7|]. split; [discriminate|].
  exact (get_closest_left_is_floor [1; 3; 7] 5 ascending_1_3_7 ltac:(discriminate)).
Defined.

(** X16.  On a non-empty ascending list of Python integers, [loc='right']
    gives the index of the first entry not below [elt] when there is one,
    and the last index when every entry is below [elt]. *)
Theorem get_closest_right_is_ceiling (L : list Z) (elt : Z) :
  ascending L -> L <> [] ->
  exists p v,
    IntSeq.get_closest L elt "right" = Ok (Some p) /\
    0 <= p /\ L !! Z.to_nat p = Some v /\
    (forall w, w ∈ L -> elt <= w -> elt <= v /\ v <= w) /\
    (forall i u, Z.of_nat i < p -> L !! i = Some u -> u < elt) /\
    ((forall w, w ∈ L -> w < elt) -> p = Z.of_nat (length L) - 1).
Proof.
  intros Hasc Hne.
  assert (0 < Z.of_nat (length L)) as Hlen by (destruct L; [contradiction|simpl; lia]).
  closest_start.
  destruct (bisect_left_ascending L elt Hasc) as [pos [Hbis [Hpos [Hbelow Habove]]]].
  rewrite Hbis. cbn [rbind].
  pose proof (insertion_point_sides L elt pos Hasc Hbelow Habove) as Hside.
  assert ((forall w, w ∈ L -> w < elt) -> pos = Z.of_nat (length L)) as Hall.
  { intros Hw. destruct (Z.eq_dec pos (Z.of_nat (length L))) as [|Hnz]; [assumption|exfalso].
    destruct (lookup_lt_is_Some_2 L (Z.to_nat pos) ltac:(lia)) as [v0 H0].
    pose proof (Habove (Z.to_nat pos) v0 ltac:(lia) H0).
    pose proof (Hw v0 ltac:(eapply list_elem_of_lookup_2; eauto)). lia. }
  destruct (Z.eqb_spec pos 0) as [Hp0|Hp0].
  { destruct (py_getitem_nonneg L pos ltac:(lia)) as [r [Hr _]].
    exists pos, r. split; [reflexivity|]. split; [lia|]. split; [exact Hr|].
    split; [|split; [exact Hbelow|intros Hw; specialize (Hall Hw); lia]].
    intros w Hw Hle. pose proof (Habove (Z.to_nat pos) r ltac:(lia) Hr).
    destruct (Hside w Hw) as [[H1 _]|[H1 H2]]; [lia|].
    specialize (H2 r ltac:(lia) Hr). lia. }
  destruct (Z.eqb_spec pos (Z.of_nat (length L))) as [Hpn|Hpn].
  { destruct (py_getitem_nonneg L (pos - 1) ltac:(lia)) as [l [Hl _]].
    exists (Z.of_nat (length L) - 1), l. rewrite <- Hpn.
    split; [reflexivity|]. split; [lia|]. split; [exact Hl|].
    split; [|split; [intros i u Hi; apply Hbelow; lia|intros; reflexivity]].
    intros w Hw Hle. exfalso.
    apply list_elem_of_lookup_1 in Hw. destruct Hw as [j Hj].
    pose proof (lookup_lt_Some _ _ _ Hj). pose proof (Hbelow j w ltac:(lia) Hj). lia. }
  destruct (py_getitem_nonneg L pos ltac:(lia)) as [r [Hr Hgr]].
  cbn [String.eqb Ascii.eqb Bool.eqb].
  pose proof (Habove (Z.to_nat pos) r ltac:(lia) Hr).
  exists pos, r. split; [reflexivity|]. split; [lia|]. split; [exact Hr|].
  split; [|split; [exact Hbelow|intros Hw; specialize (Hall Hw); lia]].
  intros w Hw Hle. destruct (Hside w Hw) as [[H1 _]|[H1 H2]]; [lia|].
  specialize (H2 r ltac:(lia) Hr). lia.
Qed.

Lemma get_closest_right_is_ceiling_witness :
  ascending [1; 3; 7] /\ [1; 3; 7] <> [] /\
  exists p v,
    IntSeq.get_closest [1; 3; 7] 5 "right" = Ok (Some p) /\
    0 <= p /\ [1; 3; 7] !! Z.to_nat p = Some v /\
    (forall w, w ∈ [1; 3; 7] -> 5 <= w -> 5 <= v /\ v <= w) /\
    (forall i u, Z.of_nat i < p -> [1; 3; 7] !! i = Some u -> u < 5) /\
    ((forall w, w ∈ [1; 3; 7] -> w < 5) -> p = Z.of_nat (length [1; 3; 7]) - 1).
Proof.
  split; [exact ascending_1_3_7|]. split; [discriminate|].
  exact (get_closest_right_is_ceiling [1; 3; 7] 5 ascending_1_3_7 ltac:(discriminate)).
Defined.

(** ** check_mask *)

Lemma any_xor_false (a b : list bool) :
  length a = length b -> (any_xor a b = false <-> a = b).
Proof.
  unfold any_xor. revert b. induction a as [|x a IH]; intros [|y b] Hl;
    try discriminate Hl; simpl.
  - tauto.
  - injection Hl as Hl. specialize (IH b Hl).
    destruct x, y; simpl; split; intros H; try discriminate H.
    + f_equal. now apply IH.
    + apply IH. now injection H.
    + f_equal. now apply IH.
    + apply IH. now injection H.
Qed.

Lemma length_mask_row (mask : barray) (n : nat) (s : list nat) (i : nat) :
  bshape mask = n :: s -> length (bdata mask) = size (bshape mask) -> (i < n)%nat ->
  length (mask_row mask i) = size s.
Proof.
  intros Hs Hl Hi. unfold mask_row. rewrite Hs in *. cbn [tail].
  rewrite size_cons in Hl. rewrite length_take, length_drop, Hl. nia.
Qed.

(** The loop over rows of one length: [diff] ends as whether some row
    differs from the first. *)
Lemma check_mask_loop_spec (mask : barray) (n : nat) (s : list nat) :
  bshape mask = n :: s -> length (bdata mask) = size (bshape mask) -> (0 < n)%nat ->
  forall rows diff, Forall (fun i => (i < n)%nat) rows -> rows <> [] ->
  exists d, check_mask_loop mask rows diff = Some d /\
            (d = false <-> Forall (fun i => mask_row mask i = mask_row mask 0) rows).
Proof.
  intros Hs Hl Hn.
  induction rows as [|i rows IH]; intros diff Hrows Hne; [contradiction|].
  inversion Hrows as [|? ? Hi Hrest]; subst. cbn [check_mask_loop].
  pose proof (any_xor_false (mask_row mask 0) (mask_row mask i)) as Hx.
  rewrite (length_mask_row mask n s 0 Hs Hl Hn), (length_mask_row mask n s i Hs Hl Hi) in Hx.
  specialize (Hx eq_refl).
  destruct (any_xor (mask_row mask 0) (mask_row mask i)) eqn:E.
  - exists true. split; [reflexivity|]. split; [discriminate|].
    intros H. inversion H as [|? ? H0 _]; subst.
    symmetry in H0. apply Hx in H0. discriminate H0.
  - assert (mask_row mask i = mask_row mask 0) as Heq by (symmetry; now apply Hx).
    destruct rows as [|j rows'].
    + exists false. split; [reflexivity|]. split; [|reflexivity].
      intros _. constructor; [exact Heq|constructor].
    + destruct (IH (Some false) Hrest ltac:(discriminate)) as [d [Hd Hiff]].
      exists d. split; [exact Hd|]. rewrite Hiff. split.
      * intros H. now constructor.
      * intros H. now inversion H.
Qed.

(** X17.  [check_mask] on an array of at least one dimension: with fewer
    than two entries along the first axis the loop never runs and the
    function raises [UnboundLocalError]; with two or more it returns whether
    every [mask[i]] equals [mask[0]]. *)
Theorem check_mask_compares_rows (mask : barray) (n : nat) (s : list nat) :
  bshape mask = n :: s -> length (bdata mask) = size (bshape mask) ->
  ((n <= 1)%nat -> check_mask mask = Throws UnboundLocalError) /\
  ((2 <= n)%nat ->
   exists b, check_mask mask = Returns b /\
             (b = true <-> forall i, (i < n)%nat -> mask_row mask i = mask_row mask 0)).
Proof.
  intros Hs Hl. unfold check_mask. rewrite Hs. split.
  - intros Hn. replace (n - 1)%nat with 0%nat by lia. reflexivity.
  - intros Hn.
    destruct (check_mask_loop_spec mask n s Hs Hl ltac:(lia) (seq 1 (n - 1)) None)
      as [d [Hd Hiff]].
    + apply Forall_seq. intros; lia.
    + destruct n as [|[|n]]; try lia. discriminate.
    + rewrite Hd. exists (negb d). split; [reflexivity|].
      rewrite negb_true_iff, Hiff, Forall_seq. split.
      * intros H i Hi. destruct i; [reflexivity|]. apply H. lia.
      * intros H i Hi. apply H. lia.
Qed.

Lemma check_mask_compares_rows_witness :
  let mask := {| bshape := [3; 2]%nat;
                 bdata := [true; false; true; false; true; false] |} in
  bshape mask = [3; 2]%nat /\ length (bdata mask) = size (bshape mask) /\
  ((3 <= 1)%nat -> check_mask mask = Throws UnboundLocalError) /\
  ((2 <= 3)%nat ->
   exists b, check_mask mask = Returns b /\
             (b = true <-> forall i, (i < 3)%nat -> mask_row mask i = mask_row mask 0)).
Proof.
  intros mask. split; [reflexivity|]. split; [reflexivity|].
  exact (check_mask_compares_rows mask 3 [2%nat] eq_refl eq_refl).
Defined.

(** ** corr *)

Section CorrFacts.

Context {num : Type}.
Variable average : list num -> num.
Variable zero : num.
Variable sub mul add div : num -> num -> num.
Variable sq sqrt : num -> num.

Lemma corr_loop (x y : list num) (avgX avgY : num) : forall c j s,
  (j + c = length x)%nat ->
  ((j + c <= length y)%nat ->
   exists s', rfold (corr_step sub mul add sq x y avgX avgY) (seq j c) s = Ok s') /\
  ((j <= length y < j + c)%nat ->
   rfold (corr_step sub mul add sq x y avgX avgY) (seq j c) s = Raise IndexError).
Proof.
  induction c as [|c IH]; intros j s Hj.
  - split; [intros _; now exists s|intros; lia].
  - destruct s as [[sumxy sumx2] sumy2]. cbn [seq rfold]. unfold corr_step at 1 3.
    destruct (lookup_lt_is_Some_2 x j ltac:(lia)) as [xi Hxi].
    rewrite (py_getitem_lookup x j xi Hxi). cbn [rbind].
    split.
    + intros Hy. destruct (lookup_lt_is_Some_2 y j ltac:(lia)) as [yi Hyi].
      rewrite (py_getitem_lookup y j yi Hyi). cbn [rbind].
      apply (IH (S j)); lia.
    + intros Hy. destruct (decide (j < length y)%nat) as [Hlt|Hge].
      * destruct (lookup_lt_is_Some_2 y j Hlt) as [yi Hyi].
        rewrite (py_getitem_lookup y j yi Hyi). cbn [rbind].
        apply (IH (S j)); lia.
      * rewrite py_getitem_out by lia. reflexivity.
Qed.

End CorrFacts.

(** X18.  [corr] does not compare the lengths of [x] and [y]: it raises,
    with [IndexError], exactly when [y] is shorter than [x], and returns
    whenever [y] is at least as long. *)
Theorem corr_raises_iff_y_shorter {num : Type} (average : list num -> num) (zero : num)
    (sub mul add div : num -> num -> num) (sq sqrt : num -> num) (x y : list num) :
  match corr average zero sub mul add div sq sqrt x y with
  | Ok _ => (length x <= length y)%nat
  | Raise e => e = IndexError /\ (length y < length x)%nat
  end.
Proof.
  unfold corr.
  destruct (corr_loop sub mul add sq x y (average x) (average y) (length x) 0%nat
              (zero, zero, zero) eq_refl) as [Hok Hraise].
  destruct (le_lt_dec (length x) (length y)) as [Hle|Hlt].
  - destruct (Hok ltac:(lia)) as [[[sumxy sumx2] sumy2] Hs]. rewrite Hs. cbn [rbind].
    exact Hle.
  - rewrite Hraise by lia. cbn [rbind]. split; [reflexivity|exact Hlt].
Qed.

(** ** linearFit *)

(** The sums over integer samples that share one abscissa [c]. *)
Lemma fit_loop_single_abscissa (n : nat) (c : Z) (ys : list Z) :
  length ys = n ->
  forall k j a1 a2 a3 a4 a5, (j + k = n)%nat ->
  exists b2 b3 b5,
    rfold (fit_step (replicate n (PyNum.PyInt c)) (map PyNum.PyInt ys)) (seq j k)
      (PyNum.PyInt a1, PyNum.PyInt a2, PyNum.PyInt a3, PyNum.PyInt a4, PyNum.PyInt a5)
    = Ok (PyNum.PyInt (a1 + Z.of_nat k * c), PyNum.PyInt b2, PyNum.PyInt b3,
          PyNum.PyInt (a4 + Z.of_nat k * (c * c)), PyNum.PyInt b5).
Proof.
  intros Hl. induction k as [|k IH]; intros j a1 a2 a3 a4 a5 Hj.
  - exists a2, a3, a5. cbn [seq rfold].
    change (Z.of_nat 0) with 0. rewrite !Z.mul_0_l, !Z.add_0_r. reflexivity.
  - cbn [seq rfold]. unfold fit_step at 1.
    rewrite (py_getitem_lookup (replicate n (PyNum.PyInt c)) j (PyNum.PyInt c))
      by (apply lookup_replicate_2; lia).
    destruct (lookup_lt_is_Some_2 ys j ltac:(lia)) as [yj Hyj].
    rewrite (py_getitem_lookup (map PyNum.PyInt ys) j (PyNum.PyInt yj))
      by (rewrite list_lookup_fmap, Hyj; reflexivity).
    cbn [rbind PyNum.add PyNum.mul PyNum.arith py_sq].
    destruct (IH (S j) (a1 + c) (a2 + yj) (a3 + c * yj) (a4 + c * c) (a5 + yj * yj)
                ltac:(lia)) as [b2 [b3 [b5 Hrun]]].
    rewrite Hrun. exists b2, b3, b5.
    assert (a1 + c + Z.of_nat k * c = a1 + Z.of_nat (S k) * c) as E1 by lia.
    assert (a4 + c * c + Z.of_nat k * (c * c) = a4 + Z.of_nat (S k) * (c * c)) as E2 by lia.
    rewrite <- E1, <- E2. reflexivity.
Qed.

(** X19.  On lists of Python integers whose abscissas are all the same
    (among them a single point and the empty lists), [linearFit] raises:
    the denominators [n*sumx2 - sumx**2] are zero, and the one of the
    intercept does not depend on [fixedInt], so fixing the intercept does
    not avoid the division. *)
Theorem linearFit_single_abscissa_raises (n : nat) (c : Z) (ys : list Z)
    (fixedInt : bool) :
  exists e,
    linearFit (replicate n (PyNum.PyInt c)) (map PyNum.PyInt ys) fixedInt = Raise e /\
    (length ys <> n -> e = ValueError) /\
    (length ys = n -> e = ZeroDivisionError \/ (fixedInt = true /\ e = OverflowError)).
Proof.
  unfold linearFit. rewrite length_replicate, length_map.
  destruct (Nat.eqb_spec n (length ys)) as [Hl|Hl]; cbn [negb].
  2: { exists ValueError. split; [reflexivity|]. split; [reflexivity|]. intros; congruence. }
  destruct (fit_loop_single_abscissa n c ys (eq_sym Hl) n 0%nat 0 0 0 0 0 eq_refl)
    as [sy [sxy [sy2 Hrun]]].
  rewrite Hrun. cbn [rbind PyNum.mul PyNum.sub PyNum.add PyNum.arith py_sq].
  set (N := Z.of_nat n).
  destruct fixedInt.
  - (* the slope may be computed; the intercept divides by zero *)
    destruct (PyNum.truediv _ _) as [m|e] eqn:Em at 1.
    2: { exists e. split; [reflexivity|]. split; [intros; congruence|]. intros _.
         cbn [PyNum.truediv] in Em.
         unfold PyNum.int_truediv in Em.
         destruct (_ =? 0); [injection Em as <-; now left|].
         cbn [rbind] in Em.
         destruct (is_infinity _); [injection Em as <-; right; now split|discriminate]. }
    cbn [rbind].
    replace (N * (0 + N * (c * c)) - (0 + N * c) * (0 + N * c)) with 0 by ring.
    exists ZeroDivisionError. split; [reflexivity|]. split; [intros; congruence|].
    intros _. now left.
  - replace (N * (0 + N * (c * c)) - 1 * ((0 + N * c) * (0 + N * c))) with 0 by ring.
    exists ZeroDivisionError. split; [reflexivity|]. split; [intros; congruence|].
    intros _. now left.
Qed.

(** ** get_intersection_line and get_intersection_segment *)

Section IntersectionFacts.

Context {num : Type}.
Variable sub mul add truediv : num -> num -> result num.
Variable le eq : num -> num -> bool.
Variable zero : num.

Lemma set_add_inv (P : num * num -> Prop) p points :
  P p -> Forall P points ->
  Forall P (set_add eq p points) /\
  (length points <= length (set_add eq p points) <= S (length points))%nat.
Proof.
  intros Hp Hs. unfold set_add. destruct (existsb _ _).
  - split; [exact Hs|lia].
  - split; [apply Forall_app; split; [exact Hs|now constructor]|].
    rewrite length_app. simpl. lia.
Qed.

Lemma add_if_inv (P : num * num -> Prop) (c : bool) p points :
  (c = true -> P p) -> Forall P points ->
  Forall P (if c then set_add eq p points else points) /\
  (length (if c then set_add eq p points else points) <= S (length points))%nat.
Proof.
  intros Hp Hs. destruct c.
  - destruct (set_add_inv P p points (Hp eq_refl) Hs) as [H1 H2]. split; [exact H1|lia].
  - split; [exact Hs|lia].
Qed.

End IntersectionFacts.

(** X20.  [get_intersection_line] returns [None] and never an empty set; a
    set it returns holds at most four points, at most two when the slope
    equals zero, and each of them lies on the line carrying one side of the
    box and has passed the range test of that side, which for the top side
    compares the abscissa with [ur[1]]. *)
Theorem get_intersection_line_points {num : Type}
    (sub mul add truediv : num -> num -> result num) (le eq : num -> num -> bool)
    (zero : num) (p1 : num * num) (a : num) (bl ur : num * num) :
  match get_intersection_line sub mul add truediv le eq zero p1 a bl ur with
  | Ok (Some points) =>
      points <> [] /\ (length points <= 4)%nat /\
      (eq a zero = true -> (length points <= 2)%nat) /\
      Forall (caught le bl ur) points
  | Ok None => True
  | Raise _ => True
  end.
Proof.
  unfold get_intersection_line.
  destruct (sub (fst bl) (fst p1)) as [d1|]; cbn [rbind]; [|exact I].
  destruct (mul d1 a) as [t1|]; cbn [rbind]; [|exact I].
  destruct (add (snd p1) t1) as [y1|]; cbn [rbind]; [|exact I].
  destruct (sub (fst ur) (fst p1)) as [d2|]; cbn [rbind]; [|exact I].
  destruct (mul d2 a) as [t2|]; cbn [rbind]; [|exact I].
  destruct (add (snd p1) t2) as [y2|]; cbn [rbind]; [|exact I].
  set (P := caught le bl ur).
  destruct (add_if_inv eq P (between le (snd bl) y1 (snd ur)) (fst bl, y1) [])
    as [HP1 HL1]; [intros Hc; left; now split|constructor|].
  set (s1 := if between le (snd bl) y1 (snd ur) then set_add eq (fst bl, y1) [] else [])
    in *.
  destruct (add_if_inv eq P (between le (snd bl) y2 (snd ur)) (fst ur, y2) s1)
    as [HP2 HL2]; [intros Hc; right; left; now split|exact HP1|].
  set (s2 := if between le (snd bl) y2 (snd ur) then set_add eq (fst ur, y2) s1 else s1)
    in *.
  cbn [length] in HL1.
  assert (forall s : list (num * num),
            Forall P s -> (length s <= 4)%nat ->
            (eq a zero = true -> (length s <= 2)%nat) ->
            match (if (0 <? length s)%nat then Ok (Some s) else Ok None)
                  : result (option (list (num * num))) with
            | Ok (Some points) =>
                points <> [] /\ (length points <= 4)%nat /\
                (eq a zero = true -> (length points <= 2)%nat) /\ Forall P points
            | Ok None => True
            | Raise _ => True
            end) as Hend.
  { intros s HP HL Hz. destruct (Nat.ltb_spec 0 (length s)); [|exact I].
    split; [destruct s; [simpl in *; lia|discriminate]|]. now repeat split. }
  destruct (eq a zero) eqn:Ea; cbn [negb rbind].
  { apply Hend; [exact HP2|lia|intros _; lia]. }
  destruct (sub (snd bl) (snd p1)) as [d3|]; cbn [rbind]; [|exact I].
  destruct (truediv d3 a) as [t3|]; cbn [rbind]; [|exact I].
  destruct (add (fst p1) t3) as [x3|]; cbn [rbind]; [|exact I].
  destruct (sub (snd ur) (snd p1)) as [d4|]; cbn [rbind]; [|exact I].
  destruct (truediv d4 a) as [t4|]; cbn [rbind]; [|exact I].
  destruct (add (fst p1) t4) as [x4|]; cbn [rbind]; [|exact I].
  destruct (add_if_inv eq P (between le (fst bl) x3 (fst ur)) (x3, snd bl) s2)
    as [HP3 HL3]; [intros Hc; right; right; left; now split|exact HP2|].
  set (s3 := if between le (fst bl) x3 (fst ur) then set_add eq (x3, snd bl) s2 else s2)
    in *.
  destruct (add_if_inv eq P (between le (fst bl) x4 (snd ur)) (x4, snd ur) s3)
    as [HP4 HL4]; [intros Hc; right; right; right; now split|exact HP3|].
  apply Hend; [exact HP4|lia|intros; discriminate].
Qed.

(** X21.  [get_intersection_segment] keeps an intercept only when it lies
    between [p1] and [p2] taken as lower left and upper right ends: for a
    segment given from right to left or from top to bottom every call that
    returns gives the empty set, whatever the box.  [<=] is assumed
    transitive. *)
Theorem get_intersection_segment_needs_ascending_ends {num : Type}
    (sub mul add truediv : num -> num -> result num) (le eq : num -> num -> bool)
    (zero : num) (p1 p2 bl ur : num * num) :
  (forall u v w, le u v = true -> le v w = true -> le u w = true) ->
  le (fst p1) (fst p2) = false \/ le (snd p1) (snd p2) = false ->
  match get_intersection_segment sub mul add truediv le eq zero p1 p2 bl ur with
  | Returns points_ => points_ = []
  | Throws _ => True
  end.
Proof.
  intros Htrans Hends. unfold get_intersection_segment.
  destruct (segment_line sub mul add truediv le eq zero p1 p2 bl ur) as [[points|]|e];
    try exact I.
  assert (forall p, in_segment le p1 p2 p = false) as Hout.
  { intros p. unfold in_segment.
    destruct (le (fst p1) (fst p)) eqn:E1; [|reflexivity].
    destruct (le (fst p) (fst p2)) eqn:E2; [|reflexivity].
    destruct (le (snd p1) (snd p)) eqn:E3; [|reflexivity].
    destruct (le (snd p) (snd p2)) eqn:E4; [|reflexivity].
    pose proof (Htrans _ _ _ E1 E2). pose proof (Htrans _ _ _ E3 E4).
    destruct Hends; congruence. }
  induction points as [|p points IH] using rev_ind; [reflexivity|].
  rewrite foldl_app. cbn [foldl]. rewrite Hout. exact IH.
Qed.

(** [<=] on floats is transitive. *)
Lemma SFleb_trans (x y z : spec_float) :
  SFleb x y = true -> SFleb y z = true -> SFleb x z = true.
Proof.
  unfold SFleb, SFcompare.
  destruct x as [sx|sx| |sx mx ex], y as [sy|sy| |sy my ey], z as [sz|sz| |sz mz ez];
    try discriminate; try reflexivity;
    try (destruct sx, sy; try discriminate; try reflexivity; destruct sz;
         try discriminate; reflexivity);
    try (destruct sx, sz; try discriminate; try reflexivity; destruct sy;
         try discriminate; reflexivity);
    try (destruct sy, sz; try discriminate; try reflexivity; destruct sx;
         try discriminate; reflexivity).
  all: change (Pos.compare_cont Eq mx my) with (Pos.compare mx my);
    change (Pos.compare_cont Eq my mz) with (Pos.compare my mz);
    change (Pos.compare_cont Eq mx mz) with (Pos.compare mx mz).
  all: destruct sx, sy, sz; try discriminate; try reflexivity.
  all: destruct (Z.compare_spec ex ey), (Z.compare_spec ey ez), (Z.compare_spec ex ez);
    try discriminate; try reflexivity; try lia; subst.
  all: destruct (Pos.compare_spec mx my), (Pos.compare_spec my mz),
         (Pos.compare_spec mx mz); try discriminate; try reflexivity; try lia.
Qed.

Lemma float_leb_trans (u v w : float) :
  PrimFloat.leb u v = true -> PrimFloat.leb v w = true -> PrimFloat.leb u w = true.
Proof. rewrite !leb_spec. apply SFleb_trans. Qed.

Lemma get_intersection_segment_needs_ascending_ends_witness :
  let p1 := (2, 2)%float in
  let p2 := (0, 0)%float in
  let bl := (0, 0)%float in
  let ur := (1, 1)%float in
  (forall u v w, PrimFloat.leb u v = true -> PrimFloat.leb v w = true ->
                 PrimFloat.leb u w = true) /\
  (PrimFloat.leb (fst p1) (fst p2) = false \/ PrimFloat.leb (snd p1) (snd p2) = false) /\
  match get_intersection_segment FloatSeq.sub FloatSeq.mul FloatSeq.add FloatSeq.truediv
          PrimFloat.leb PrimFloat.eqb 0%float p1 p2 bl ur with
  | Returns points_ => points_ = []
  | Throws _ => True
  end.
Proof.
  intros p1 p2 bl ur.
  assert (PrimFloat.leb (fst p1) (fst p2) = false \/ PrimFloat.leb (snd p1) (snd p2) = false)
    as Hends by (left; reflexivity).
  split; [exact float_leb_trans|]. split; [exact Hends|].
  exact (get_intersection_segment_needs_ascending_ends FloatSeq.sub FloatSeq.mul FloatSeq.add
           FloatSeq.truediv PrimFloat.leb PrimFloat.eqb 0%float p1 p2 bl ur
           float_leb_trans Hends).
Defined.

(** On that input the line does cross the box and the call returns. *)
Lemma get_intersection_segment_descending_example :
  get_intersection_segment FloatSeq.sub FloatSeq.mul FloatSeq.add FloatSeq.truediv
    PrimFloat.leb PrimFloat.eqb 0%float (2, 2)%float (0, 0)%float (0, 0)%float (1, 1)%float
  = Returns [] /\
  get_intersection_segment FloatSeq.sub FloatSeq.mul FloatSeq.add FloatSeq.truediv
    PrimFloat.leb PrimFloat.eqb 0%float (0, 0)%float (2, 2)%float (0, 0)%float (1, 1)%float
  = Returns [(0, 0)%float; (1, 1)%float].
Proof. split; vm_compute; reflexivity. Qed.

(** ** downsample_average *)

Section DownsampleFacts.

Context {A : Type} (zero : A) (reshape_copies : ndarray -> list nat -> bool).
Variable isfinite : A -> bool.
Variable downscale_average_stack :
  list A -> list A -> list A -> list A -> varray A -> result (varray A).

Lemma downsample_swap_raises array x_in y_in x_out y_out axes st e :
  rfold (swap_ith (default (range_neg 2) axes) (range_neg 2)) (seq 0 2) array = Raise e ->
  downsample_average zero reshape_copies isfinite downscale_average_stack
    array x_in y_in x_out y_out axes st = (Raise e, st).
Proof.
  intros H. unfold downsample_average, bind, lift.
  replace (match axes with Some l => l | None => range_neg 2 end)
    with (default (range_neg 2) axes) by now destruct axes.
  now rewrite H.
Qed.

Lemma peek_app (h t : list (list A)) b p :
  (b < length h)%nat -> peek zero (h ++ t) b p = peek zero h b p.
Proof. intros Hb. unfold peek. now rewrite lookup_app_l. Qed.

Lemma clean_app (h t : list (list A)) b :
  (b < length h)%nat -> clean zero isfinite h b -> clean zero isfinite (h ++ t) b.
Proof. intros Hb Hc p. rewrite peek_app by exact Hb. apply Hc. Qed.

Lemma clean_buffer (h : list (list A)) b d :
  isfinite zero = true -> h !! b = Some d -> Forall (fun x => isfinite x = true) d ->
  clean zero isfinite h b.
Proof.
  intros Hz Hb Hd p. unfold peek. rewrite Hb. cbn [mbind option_bind].
  destruct (d !! p) as [x|] eqn:E; cbn [default]; [|exact Hz].
  eapply (proj1 (Forall_forall _ _) Hd). eapply list_elem_of_lookup_2; eauto.
Qed.

Lemma clean_contents (h : list (list A)) a :
  clean zero isfinite h (buf a) ->
  Forall (fun x => isfinite x = true) (vdata (contents zero h a)).
Proof.
  intros Hc. unfold contents. cbn [vdata]. apply Forall_fmap, Forall_forall.
  intros p _. apply Hc.
Qed.

(** [np.reshape] of an array over a clean buffer gives one, and keeps the
    other buffers clean. *)
Lemma np_reshape_clean a dims a' (st st' : state A) :
  isfinite zero = true ->
  np_reshape zero reshape_copies a dims st = (Ok a', st') ->
  (length (heap st) <= length (heap st'))%nat /\
  (forall b, (b < length (heap st))%nat -> clean zero isfinite (heap st) b ->
             clean zero isfinite (heap st') b) /\
  ((buf a < length (heap st))%nat -> clean zero isfinite (heap st) (buf a) ->
   (buf a' < length (heap st'))%nat /\ clean zero isfinite (heap st') (buf a')).
Proof.
  intros Hz. unfold np_reshape, bind, lift.
  destruct (resolve_shape (size (shape a)) dims) as [s|e]; [|discriminate].
  destruct (reshape_copies a s).
  - unfold alloc. intros H. injection H as <- <-. cbn [heap buf].
    split; [rewrite length_app; lia|]. split.
    + intros b Hb Hc. now apply clean_app.
    + intros Hb Hc. split; [rewrite length_app; simpl; lia|].
      apply (clean_buffer _ _ (vdata (contents zero (heap st) a))); [exact Hz| |].
      * now apply list_lookup_middle.
      * now apply clean_contents.
  - unfold ret. intros H. injection H as <- <-. cbn [buf].
    split; [lia|]. split; [auto|]. auto.
Qed.

Lemma reswap_loop_buf axes lastaxes ks : forall ao ao',
  rfold (reswap_ith axes lastaxes) ks ao = Ok ao' -> buf (snd ao') = buf (snd ao).
Proof.
  induction ks as [|i ks IH]; intros ao ao'; simpl.
  - intros H. now injection H as <-.
  - unfold reswap_ith at 1.
    destruct (swap_ith axes lastaxes (fst ao) i) as [a1|e]; simpl; [|discriminate].
    destruct (swap_ith axes lastaxes (snd ao) i) as [o1|e] eqn:E; simpl; [|discriminate].
    intros H. rewrite (IH (a1, o1) ao' H). simpl.
    now destruct (swap_ith_ok axes lastaxes (snd ao) i o1 E).
Qed.

(** [output[~np.isfinite(output)] = 0] on an array that covers the last
    buffer, in order: the buffer then holds finite values only. *)
Lemma zero_nonfinite_fresh (h : list (list A)) s d c :
  isfinite zero = true ->
  exists d',
    zero_nonfinite zero isfinite
      {| buf := length h; shape := s; idx := seq 0 (length d) |}
      {| heap := h ++ [d]; calls := c |}
    = (Ok tt, {| heap := h ++ [d']; calls := c |}) /\
    Forall (fun x => isfinite x = true) d'.
Proof.
  intros Hz. unfold zero_nonfinite. cbn [heap buf idx calls].
  set (xs := map (fun x => if isfinite x then x else zero)
               (vdata (contents zero (h ++ [d])
                         {| buf := length h; shape := s; idx := seq 0 (length d) |}))).
  assert (length xs = length d) as Hl.
  { unfold xs, contents. cbn [vdata idx]. now rewrite !length_map, length_seq. }
  assert (Forall (fun x => isfinite x = true) xs) as Hfin.
  { unfold xs. apply Forall_fmap, Forall_forall. intros x _. cbn.
    destruct (isfinite x) eqn:E; [exact E|exact Hz]. }
  exists xs. split; [|exact Hfin]. f_equal. f_equal.
  replace (seq 0 (length d)) with (seq 0 (length xs)) by now rewrite Hl.
  rewrite (poke_all_seq (length h) xs 0 (h ++ [d]) d)
    by (first [now apply list_lookup_middle | lia]).
  cbn [take app Nat.add]. rewrite Hl, drop_all, app_nil_r.
  rewrite insert_app_r_alt by lia. rewrite Nat.sub_diag. reflexivity.
Qed.

End DownsampleFacts.

(** X22.  [downsample_average] refuses, from its first loop and with the
    store as it was, an array of fewer than two dimensions and an axis
    selection that is shorter than two or has one of its first two entries
    outside the rank of the array: the compiled routine is not reached. *)
Theorem downsample_average_refuses_axes
    {A : Type} (zero : A) (reshape_copies : ndarray -> list nat -> bool)
    (isfinite : A -> bool)
    (downscale_average_stack :
       list A -> list A -> list A -> list A -> varray A -> result (varray A))
    (array : ndarray) (x_in y_in x_out y_out : list A) (axes : option (list Z))
    (st : state A) :
  (length (shape array) < 2)%nat \/
  (exists l, axes = Some l /\
     ((length l < 2)%nat \/
      exists i ax, (i < 2)%nat /\ l !! i = Some ax /\
        ~ (- Z.of_nat (length (shape array)) <= ax < Z.of_nat (length (shape array))))) ->
  exists e,
    downsample_average zero reshape_copies isfinite downscale_average_stack
      array x_in y_in x_out y_out axes st = (Raise e, st) /\
    (e = IndexError \/ e = AxisError).
Proof.
  intros H.
  assert (exists i, i ∈ seq 0 2 /\
            swap_refused (default (range_neg 2) axes) (range_neg 2)
              (length (shape array)) i) as [i [Hi Hbad]].
  { destruct H as [Hrank | [l [-> [Hshort | [i [ax [Hi [Hax Hout]]]]]]]].
    - exists 0%nat. split; [apply elem_of_seq; lia|].
      apply (swap_refused_lastaxis _ _ _ _ (Z.of_nat 0 - Z.of_nat 2)).
      + apply lookup_range_neg. lia.
      + lia.
    - exists (length l). split; [apply elem_of_seq; lia|].
      now apply swap_refused_short.
    - exists i. split; [apply elem_of_seq; lia|].
      now apply (swap_refused_axis _ _ _ _ ax). }
  destruct (swap_loop_refused _ (range_neg 2) (seq 0 2) array i Hi Hbad) as [e [He Hk]].
  exists e. split; [|exact Hk].
  now apply downsample_swap_raises.
Qed.

Lemma downsample_average_refuses_axes_witness :
  let array := FloatExamples.maps in
  (length (shape array) < 2)%nat \/
  (exists l, Some [0; 5] = Some l /\
     ((length l < 2)%nat \/
      exists i ax, (i < 2)%nat /\ l !! i = Some ax /\
        ~ (- Z.of_nat (length (shape array)) <= ax < Z.of_nat (length (shape array))))) /\
  exists e,
    downsample_average 0%float Examples.views FloatExamples.isfinite FloatExamples.one_cell
      array [] [] [] [] (Some [0; 5]) FloatExamples.store = (Raise e, FloatExamples.store) /\
    (e = IndexError \/ e = AxisError).
Proof.
  intros array. right.
  assert (exists l, Some [0; 5] = Some l /\
     ((length l < 2)%nat \/
      exists i ax, (i < 2)%nat /\ l !! i = Some ax /\
        ~ (- Z.of_nat (length (shape array)) <= ax < Z.of_nat (length (shape array)))))
    as H.
  { exists [0; 5]. split; [reflexivity|]. right. exists 1%nat, 5.
    split; [lia|]. split; [reflexivity|]. simpl. lia. }
  split; [exact H|].
  exact (downsample_average_refuses_axes 0%float Examples.views FloatExamples.isfinite
           FloatExamples.one_cell array [] [] [] [] (Some [0; 5]) FloatExamples.store
           (or_intror H)).
Defined.

(** X23.  Whatever the compiled routine returns and whichever axes are
    selected, an array [downsample_average] returns holds finite values
    only: the values that are not finite have been replaced by [0]. *)
Theorem downsample_average_returns_finite
    {A : Type} (zero : A) (reshape_copies : ndarray -> list nat -> bool)
    (isfinite : A -> bool)
    (downscale_average_stack :
       list A -> list A -> list A -> list A -> varray A -> result (varray A))
    (array : ndarray) (x_in y_in x_out y_out : list A) (axes : option (list Z))
    (st st' : state A) (out : ndarray) :
  isfinite zero = true ->
  downsample_average zero reshape_copies isfinite downscale_average_stack
    array x_in y_in x_out y_out axes st = (Ok out, st') ->
  Forall (fun x => isfinite x = true) (vdata (contents zero (heap st') out)).
Proof.
  intros Hz H. unfold downsample_average in H.
  apply bind_inv in H. destruct H as [a1 [st1 [_ H]]].
  apply bind_inv in H. destruct H as [a2 [st2 [_ H]]].
  apply bind_inv in H. destruct H as [av [st3 [_ H]]].
  apply bind_inv in H. destruct H as [ov [st4 [_ H]]].
  apply bind_inv in H. destruct H as [o1 [st5 [H5 H]]].
  unfold alloc in H5. injection H5 as <- <-.
  apply bind_inv in H. destruct H as [[] [st6 [H6 H]]].
  destruct (zero_nonfinite_fresh zero isfinite (heap st4) (vshape ov) (vdata ov)
              (calls st4) Hz) as [d' [Hrun Hfin]].
  rewrite Hrun in H6. injection H6 as <-.
  assert (clean zero isfinite (heap st4 ++ [d']) (length (heap st4))) as Hclean.
  { apply (clean_buffer zero isfinite _ _ d'); [exact Hz| |exact Hfin].
    now apply list_lookup_middle. }
  assert (length (heap st4 ++ [d']) = S (length (heap st4))) as Hlen
    by (rewrite length_app; simpl; lia).
  apply bind_inv in H. destruct H as [a3 [st7 [H7 H]]].
  destruct (np_reshape_clean zero reshape_copies isfinite _ _ _ _ _ Hz H7)
    as [Hlen7 [Hkeep7 _]].
  cbn [heap] in Hlen7, Hkeep7.
  apply bind_inv in H. destruct H as [o2 [st8 [H8 H]]].
  destruct (np_reshape_clean zero reshape_copies isfinite _ _ _ _ _ Hz H8)
    as [_ [_ Hout8]].
  cbn [buf] in Hout8.
  destruct Hout8 as [_ Hclean8]; [lia|apply Hkeep7; [lia|exact Hclean]|].
  apply bind_inv in H. destruct H as [ao [st9 [H9 H]]].
  unfold lift in H9. injection H9 as Hre <-.
  apply (reswap_loop_buf _ (range_neg 2) (seq 0 2) (a3, o2) ao) in Hre. cbn [snd] in Hre.
  unfold ret in H. injection H as <- <-.
  apply clean_contents. rewrite Hre. exact Hclean8.
Qed.

Lemma float_isfinite_zero : FloatExamples.isfinite 0%float = true.
Proof. reflexivity. Defined.

Lemma downsample_average_returns_finite_witness :
  exists out st',
    FloatExamples.isfinite 0%float = true /\
    downsample_average 0%float Examples.views FloatExamples.isfinite FloatExamples.one_cell
      FloatExamples.maps [] [] [] [] None FloatExamples.store = (Ok out, st') /\
    Forall (fun x => FloatExamples.isfinite x = true) (vdata (contents 0%float (heap st') out)).
Proof.
  destruct (downsample_average 0%float Examples.views FloatExamples.isfinite
              FloatExamples.one_cell FloatExamples.maps [] [] [] [] None FloatExamples.store)
    as [[out|e] st'] eqn:E.
  - exists out, st'. split; [reflexivity|]. split; [reflexivity|].
    exact (downsample_average_returns_finite 0%float Examples.views FloatExamples.isfinite
             FloatExamples.one_cell FloatExamples.maps [] [] [] [] None FloatExamples.store
             st' out float_isfinite_zero E).
  - vm_compute in E. discriminate E.
Defined.

(** What the call does on that input: the one cell, infinite as the
    stand-in gave it, comes back as [0]. *)
Lemma downsample_average_example :
  let r := downsample_average 0%float Examples.views FloatExamples.isfinite
             FloatExamples.one_cell FloatExamples.maps [] [] [] [] None FloatExamples.store in
  match fst r with
  | Ok out => contents 0%float (heap (snd r)) out
              = {| vshape := [1; 1; 1]%nat; vdata := [0%float] |}
  | Raise _ => False
  end.
Proof. vm_compute. reflexivity. Qed.

Section DownsampleFrame.

Context {A : Type} (zero : A) (reshape_copies : ndarray -> list nat -> bool).
Variable isfinite : A -> bool.
Variable downscale_average_stack :
  list A -> list A -> list A -> list A -> varray A -> result (varray A).
Variable b : nat.
Variable ps : list nat.

Lemma safe_zero_nonfinite a :
  buf a <> b -> safe b ps (zero_nonfinite zero isfinite a) (fun _ => True).
Proof.
  intros Ha st Hb. unfold zero_nonfinite. cbn [fst snd]. split; [|intros; exact I].
  destruct (poke_all_keeps b ps (buf a) (idx a)
              (map (fun x => if isfinite x then x else zero)
                 (vdata (contents zero (heap st) a))) (heap st)) as [Hl Hc]; [now left|].
  split; cbn [heap]; [lia|exact Hc].
Qed.

Lemma safe_downsample_average array x_in y_in x_out y_out axes :
  safe b ps (downsample_average zero reshape_copies isfinite downscale_average_stack
               array x_in y_in x_out y_out axes) (fun _ => True).
Proof.
  unfold downsample_average.
  apply (safe_bind _ _ _ _ (fun _ => True)); [apply safe_lift; intros; exact I|].
  intros a1 _.
  apply (safe_bind _ _ _ _ (fun _ => True)); [apply safe_reshape; intros; exact I|].
  intros a2 _.
  apply (safe_bind _ _ _ _ (fun _ => True)); [apply safe_get_contents|].
  intros av _.
  apply (safe_bind _ _ _ _ (fun _ => True)); [apply safe_lift; intros; exact I|].
  intros ov _.
  apply (safe_bind _ _ _ _ (fun a => buf a <> b)); [apply safe_alloc|].
  intros o1 Ho1.
  apply (safe_bind _ _ _ _ (fun _ => True)); [now apply safe_zero_nonfinite|].
  intros _ _.
  apply (safe_bind _ _ _ _ (fun _ => True)); [apply safe_reshape; intros; exact I|].
  intros a3 _.
  apply (safe_bind _ _ _ _ (fun _ => True)); [apply safe_reshape; intros; exact I|].
  intros o2 _.
  apply (safe_bind _ _ _ _ (fun _ => True)); [apply safe_lift; intros; exact I|].
  intros ao _. now apply safe_ret.
Qed.

End DownsampleFrame.

(** X24.  [downsample_average] writes into no cell allocated before the
    call, whether it returns or raises: the replacement of the values that
    are not finite is done in the array the compiled routine returned, and
    the input array holds afterwards what it held before. *)
Theorem downsample_average_keeps_input
    {A : Type} (zero : A) (reshape_copies : ndarray -> list nat -> bool)
    (isfinite : A -> bool)
    (downscale_average_stack :
       list A -> list A -> list A -> list A -> varray A -> result (varray A))
    (array : ndarray) (x_in y_in x_out y_out : list A) (axes : option (list Z))
    (st : state A) :
  (buf array < length (heap st))%nat ->
  let st' := snd (downsample_average zero reshape_copies isfinite downscale_average_stack
                    array x_in y_in x_out y_out axes st) in
  contents zero (heap st') array = contents zero (heap st) array /\
  (forall b q, (b < length (heap st))%nat -> cell b (heap st') q = cell b (heap st) q).
Proof.
  intros Hb st'. split.
  - apply contents_keeps.
    now apply (safe_downsample_average zero reshape_copies isfinite downscale_average_stack
                 (buf array) (idx array)).
  - intros b q Hlt.
    destruct (safe_downsample_average zero reshape_copies isfinite downscale_average_stack
                b [q] array x_in y_in x_out y_out axes st Hlt) as [[_ Hcell] _].
    apply Hcell. apply list_elem_of_singleton. reflexivity.
Qed.

Lemma downsample_average_keeps_input_witness :
  let array := FloatExamples.maps in
  let st := FloatExamples.store in
  let st' := snd (downsample_average 0%float Examples.views FloatExamples.isfinite
                    FloatExamples.one_cell array [] [] [] [] None st) in
  (buf array < length (heap st))%nat /\
  contents 0%float (heap st') array = contents 0%float (heap st) array /\
  (forall b q, (b < length (heap st))%nat -> cell b (heap st') q = cell b (heap st) q).
Proof.
  intros array st st'.
  assert (buf array < length (heap st))%nat as Hb by (simpl; lia).
  split; [exact Hb|].
  exact (downsample_average_keeps_input 0%float Examples.views FloatExamples.isfinite
           FloatExamples.one_cell array [] [] [] [] None st Hb).
Defined.
